(** * duplicacy-util: the backup/copy/prune/check pipeline

    A shallow embedding of [backup-ops.go] (the operation runners, their
    line sinks and the run orchestrator) and of the prune and thread
    defaulting done by [loadConfig], followed by the properties of the
    pipeline that the specification states.

    Conventions.
    - A Go [string] is a [string] of bytes.  The three regular expressions
      of the program only mention ASCII literals, [.] and [\S]; every byte
      of a multi-byte rune is neither a newline nor one of the five
      characters excluded by [\S], so matching byte by byte yields the same
      submatches as matching rune by rune.
    - A Go [error] is carried as its message.
    - Process-wide variables ([backupTable], [copyTable]) and everything the
      program does to the outside (log lines, process invocations,
      notifications) live in a [world] threaded through the code; a run-time
      panic (index out of range) is the result [None]. *)

From Stdlib Require Import String Ascii List Bool Arith Lia DecimalString.
Import ListNotations.
Local Open Scope string_scope.
Local Open Scope list_scope.

(** String concatenation, Go's [+] on strings. *)
Local Infix "+++" := String.append (right associativity, at level 60).

(* ===================================================================== *)
(** ** Strings: the functions of package [strings] the program calls     *)
(* ===================================================================== *)

Module Strings.

(** [strings.HasPrefix(s, p)] *)
Definition HasPrefix (s p : string) : bool := String.prefix p s.

(** [strings.HasSuffix(s, suf)] *)
Definition HasSuffix (s suf : string) : bool :=
  Nat.leb (String.length suf) (String.length s) &&
  String.eqb
    (substring (String.length s - String.length suf) (String.length suf) s) suf.

(** [strings.Split(s, " ")]: the pieces between the spaces of [s], empty
    pieces included; a string without a space is returned as one piece. *)
Fixpoint SplitSpace (s : string) : list string :=
  match s with
  | EmptyString => [EmptyString]
  | String c s' =>
      if Ascii.eqb c " " then EmptyString :: SplitSpace s'
      else match SplitSpace s' with
           | [] => [String c EmptyString]
           | w :: ws => String c w :: ws
           end
  end.

(** [strings.Join(l, sep)] *)
Fixpoint Join (l : list string) (sep : string) : string :=
  match l with
  | [] => EmptyString
  | [x] => x
  | x :: rest => x +++ sep +++ Join rest sep
  end.

(** [strconv.Itoa] on a non-negative number. *)
Definition Itoa (n : nat) : string := NilEmpty.string_of_uint (Nat.to_uint n).

(** Number of space characters of a string. *)
Fixpoint spaces (s : string) : nat :=
  match s with
  | EmptyString => 0
  | String c s' => (if Ascii.eqb c " " then 1 else 0) + spaces s'
  end.

End Strings.
Import Strings.

(* ===================================================================== *)
(** ** Regular expressions                                               *)
(* ===================================================================== *)

(** The patterns compiled by the program are sequences of three kinds of
    items: a literal, a greedy [.*], and a capturing group [(\S+)].
    [FindStringSubmatch] returns the leftmost match and, among the matches
    starting there, the one a backtracking search finds first. *)
Module Regexp.

Inductive item : Type :=
| Lit (l : string)      (* literal text *)
| AnyStar               (* .*    *)
| NonSpacePlus.         (* (\S+) *)

Definition regexp := list item.

(** [.] matches everything but a newline. *)
Definition is_newline (c : ascii) : bool := Ascii.eqb c "010".

(** [\s] is the class [\t\n\f\r ]; [\S] is its complement. *)
Definition is_space (c : ascii) : bool :=
  Ascii.eqb c "009" || Ascii.eqb c "010" || Ascii.eqb c "012" ||
  Ascii.eqb c "013" || Ascii.eqb c " ".

(** Remove the literal [l] from the front of [s]. *)
Fixpoint strip (l s : string) : option string :=
  match l, s with
  | EmptyString, _ => Some s
  | String a l', String b s' => if Ascii.eqb a b then strip l' s' else None
  | String _ _, EmptyString => None
  end.

Definition result := option (list string * string).

(** Greedy [.*] followed by the continuation [k]: the longest run first. *)
Fixpoint star (k : string -> result) (s : string) : result :=
  match s with
  | EmptyString => k s
  | String c s' =>
      if is_newline c then k s
      else match star k s' with
           | Some r => Some r
           | None => k s
           end
  end.

(** Greedy [(\S+)] followed by [k]: at least one character, the longest
    run first; the captured text is returned in front. *)
Fixpoint plus (k : string -> result) (s : string)
  : option (string * (list string * string)) :=
  match s with
  | EmptyString => None
  | String c s' =>
      if is_space c then None
      else match plus k s' with
           | Some (tok, r) => Some (String c tok, r)
           | None =>
               match k s' with
               | Some r => Some (String c EmptyString, r)
               | None => None
               end
           end
  end.

(** Match [p] at the start of [s]: the captured groups and what is left of
    [s] after the match. *)
Fixpoint match_here (p : regexp) (s : string) {struct p} : result :=
  match p with
  | [] => Some ([], s)
  | Lit l :: p' =>
      match strip l s with
      | Some s' => match_here p' s'
      | None => None
      end
  | AnyStar :: p' => star (match_here p') s
  | NonSpacePlus :: p' =>
      match plus (match_here p') s with
      | Some (tok, (caps, rest)) => Some (tok :: caps, rest)
      | None => None
      end
  end.

(** [re.FindStringSubmatch(s)]: [nil] when nothing matches, otherwise the
    whole match followed by the groups. *)
Fixpoint FindStringSubmatch (p : regexp) (s : string) : list string :=
  match match_here p s with
  | Some (caps, rest) =>
      substring 0 (String.length s - String.length rest) s :: caps
  | None =>
      match s with
      | EmptyString => []
      | String _ s' => FindStringSubmatch p s'
      end
  end.

(** Spaces that the literals of a pattern require. *)
Fixpoint lit_spaces (p : regexp) : nat :=
  match p with
  | [] => 0
  | Lit l :: p' => spaces l + lit_spaces p'
  | _ :: p' => lit_spaces p'
  end.

(** Number of capturing groups. *)
Fixpoint groups (p : regexp) : nat :=
  match p with
  | [] => 0
  | NonSpacePlus :: p' => S (groups p')
  | _ :: p' => groups p'
  end.

End Regexp.
Import Regexp.

(** [.*: (\S+) total, (\S+) bytes; (\S+) new, (\S+) bytes] *)
Definition filesRe : regexp :=
  [AnyStar; Lit ": "; NonSpacePlus; Lit " total, "; NonSpacePlus;
   Lit " bytes; "; NonSpacePlus; Lit " new, "; NonSpacePlus; Lit " bytes"].

(** [.*: (\S+) total, (\S+) bytes; (\S+) new, (\S+) bytes, (\S+) bytes uploaded] *)
Definition chunksRe : regexp :=
  [AnyStar; Lit ": "; NonSpacePlus; Lit " total, "; NonSpacePlus;
   Lit " bytes; "; NonSpacePlus; Lit " new, "; NonSpacePlus; Lit " bytes, ";
   NonSpacePlus; Lit " bytes uploaded"].

(** [Copy complete, (\S+) total chunks, (\S+) chunks copied, (\S+) skipped] *)
Definition copyRe : regexp :=
  [Lit "Copy complete, "; NonSpacePlus; Lit " total chunks, "; NonSpacePlus;
   Lit " chunks copied, "; NonSpacePlus; Lit " skipped"].

(* ===================================================================== *)
(** ** Data model                                                        *)
(* ===================================================================== *)

Record backupRevision : Type := {
  storage : string;
  chunkTotalCount : string;
  chunkTotalSize : string;
  filesTotalCount : string;
  filesTotalSize : string;
  filesNewCount : string;
  filesNewSize : string;
  chunkNewCount : string;
  chunkNewSize : string;
  chunkNewUploaded : string;
  duration : string
}.

(** The fields of [copyRevision] that share a name with a field of
    [backupRevision] are reached as [Copy.chunkTotalCount], [Copy.duration]. *)
Module Copy.
Record copyRevision : Type := {
  storageFrom : string;
  storageTo : string;
  chunkTotalCount : string;
  chunkCopyCount : string;
  chunkSkipCount : string;
  duration : string
}.
End Copy.
Abbreviation copyRevision := Copy.copyRevision.

(** [var backupEntry backupRevision]: the zero value, every field empty. *)
Definition zeroBackupRevision : backupRevision :=
  {| storage := ""; chunkTotalCount := ""; chunkTotalSize := "";
     filesTotalCount := ""; filesTotalSize := ""; filesNewCount := "";
     filesNewSize := ""; chunkNewCount := ""; chunkNewSize := "";
     chunkNewUploaded := ""; duration := "" |}.

(** [var copyEntry copyRevision] *)
Definition zeroCopyRevision : copyRevision :=
  {| Copy.storageFrom := ""; Copy.storageTo := ""; Copy.chunkTotalCount := "";
     Copy.chunkCopyCount := ""; Copy.chunkSkipCount := ""; Copy.duration := "" |}.

(** The anonymous structs of [configurationFile], one module per slice. *)
Module BackupInfo.
Record t : Type := {
  Name : string; Threads : string; Vss : bool; VssTimeout : string; Quote : string
}.
End BackupInfo.

Module CopyInfo.
Record t : Type := {
  From : string; To : string; Threads : string; Quote : string
}.
End CopyInfo.

Module PruneInfo.
Record t : Type := {
  Storage : string; Keep : string; Threads : string; All : bool; Quote : string
}.
End PruneInfo.

Module CheckInfo.
Record t : Type := {
  Storage : string; All : bool; Quote : string
}.
End CheckInfo.

Record configurationFile : Type := {
  configFilename : string;
  RepoDir : string;
  BackupInfo : list BackupInfo.t;
  CopyInfo : list CopyInfo.t;
  PruneInfo : list PruneInfo.t;
  CheckInfo : list CheckInfo.t
}.

(** A Go [error], by its message; [nil] is [None]. *)
Definition error : Type := string.

(** What the program does to the outside, in the order it does it. *)
Inductive event : Type :=
| Println (line : string)                 (* logger.Println(line) *)
| LogMessage (toFile : bool) (msg : string)  (* logMessage(logger or nil, msg) *)
| LogError (toFile : bool) (msg : string)    (* logError(logger or nil, msg) *)
| Printf (text : string)                  (* fmt.Printf *)
| RotateLogFiles (res : option error)     (* rotateLogFiles() and its result *)
| OsCreate (res : option error)           (* os.Create of the log file *)
| NotifyOfStart                           (* notifyOfStart() *)
| Executor (path : string) (args : list string) (dir : string)
           (out : list string) (res : option error)
                                          (* executor(...), the lines the
                                             process wrote and its result *)
| NotifyOfSuccess (res : option error).   (* notifyOfSuccess() *)

(** The process-wide tables and the history of events. *)
Record world : Type := {
  backupTable : list backupRevision;
  copyTable : list copyRevision;
  trace : list event
}.

(** The package-level variables the pipeline reads, and the collaborators it
    calls.  A collaborator answers from the history of the run so far, so it
    may answer differently each time it is called. *)
Record env : Type := {
  configFile : configurationFile;
  duplicacyPath : string;
  debugFlag : bool;
  cmdBackup : bool;
  cmdCopy : bool;
  cmdPrune : bool;
  cmdCheck : bool;
  (* executor(path, args, dir, sink): the output lines, then the result *)
  executor : list event -> string -> list string -> string
             -> list string * option error;
  rotateLogFiles : list event -> option error;
  osCreate : list event -> option error;
  notifyOfSuccess : list backupRevision -> list copyRevision -> list event
                    -> option error;
  (* getTimeDiffString(start, time.Now().UTC()) *)
  getTimeDiffString : list event -> string;
  (* time.Now().Format("01-02-2006 15:04:05") *)
  timeNowFormat : list event -> string
}.

(* ===================================================================== *)
(** ** The monad of the pipeline: state, and panics                      *)
(* ===================================================================== *)

Definition M (A : Type) : Type := world -> option (A * world).

Definition ret {A} (a : A) : M A := fun w => Some (a, w).

Definition bind {A B} (m : M A) (f : A -> M B) : M B :=
  fun w => match m w with
           | Some (a, w') => f a w'
           | None => None
           end.

Definition panic {A} : M A := fun _ => None.

Declare Scope go_scope.
Delimit Scope go_scope with go.
Notation "x <- m ;; k" := (bind m (fun x => k))
  (at level 61, m at next level, right associativity) : go_scope.
Notation "m ;; k" := (bind m (fun _ => k))
  (at level 61, right associativity) : go_scope.
Local Open Scope go_scope.

Definition emit (e : event) : M unit :=
  fun w => Some (tt, {| backupTable := backupTable w;
                        copyTable := copyTable w;
                        trace := trace w ++ [e] |}).

(** Ask a collaborator that answers from the history. *)
Definition ask {A} (f : list event -> A) : M A :=
  fun w => Some (f (trace w), w).

(** [l[i]], which panics out of range. *)
Definition index (l : list string) (i : nat) : M string :=
  match nth_error l i with
  | Some x => ret x
  | None => panic
  end.

(** The sink is called once per output line, in order. *)
Fixpoint eachLine {St} (sink : string -> St -> M St) (lines : list string)
    (s : St) : M St :=
  match lines with
  | [] => ret s
  | line :: rest => s' <- sink line s ;; eachLine sink rest s'
  end.

(** [logMessage(logger, msg)] and [logError(logger, msg)] *)
Definition logMessage (msg : string) : M unit := emit (LogMessage true msg).
Definition logError (msg : string) : M unit := emit (LogError true msg).

Definition separator : string :=
  "######################################################################".

(* ===================================================================== *)
(** ** The line sinks                                                    *)
(* ===================================================================== *)

(** The assignments of [backupLogger] to the captured [backupEntry]. *)
Definition setFiles (e : backupRevision) (e1 e2 e3 e4 : string) : backupRevision :=
  {| storage := storage e;
     chunkTotalCount := chunkTotalCount e;
     chunkTotalSize := chunkTotalSize e;
     filesTotalCount := e1;
     filesTotalSize := e2;
     filesNewCount := e3;
     filesNewSize := e4;
     chunkNewCount := chunkNewCount e;
     chunkNewSize := chunkNewSize e;
     chunkNewUploaded := chunkNewUploaded e;
     duration := duration e |}.

Definition setChunks (e : backupRevision) (e1 e2 e3 e4 e5 : string)
  : backupRevision :=
  {| storage := storage e;
     chunkTotalCount := e1;
     chunkTotalSize := e2;
     filesTotalCount := filesTotalCount e;
     filesTotalSize := filesTotalSize e;
     filesNewCount := filesNewCount e;
     filesNewSize := filesNewSize e;
     chunkNewCount := e3;
     chunkNewSize := e4;
     chunkNewUploaded := e5;
     duration := duration e |}.

(** [backupEntry.storage = ...; backupEntry.duration = ...] *)
Definition setStorageDuration (e : backupRevision) (name d : string)
  : backupRevision :=
  {| storage := name;
     chunkTotalCount := chunkTotalCount e;
     chunkTotalSize := chunkTotalSize e;
     filesTotalCount := filesTotalCount e;
     filesTotalSize := filesTotalSize e;
     filesNewCount := filesNewCount e;
     filesNewSize := filesNewSize e;
     chunkNewCount := chunkNewCount e;
     chunkNewSize := chunkNewSize e;
     chunkNewUploaded := chunkNewUploaded e;
     duration := d |}.

(** The closure [backupLogger] of [performDuplicacyBackup]; the variable
    [backupEntry] it captures is passed in and handed back. *)
Definition backupLogger (line : string) (backupEntry : backupRevision)
  : M backupRevision :=
  if HasPrefix line "Files:" then
    emit (Println line) ;;
    logMessage ("  " +++ line) ;;
    let elements := FindStringSubmatch filesRe line in
    if Nat.leb 4 (List.length elements) then
      e1 <- index elements 1 ;;
      e2 <- index elements 2 ;;
      e3 <- index elements 3 ;;
      e4 <- index elements 4 ;;
      ret (setFiles backupEntry e1 e2 e3 e4)
    else ret backupEntry
  else if HasPrefix line "All chunks:" then
    emit (Println line) ;;
    logMessage ("  " +++ line) ;;
    let elements := FindStringSubmatch chunksRe line in
    if Nat.leb 6 (List.length elements) then
      e1 <- index elements 1 ;;
      e2 <- index elements 2 ;;
      e3 <- index elements 3 ;;
      e4 <- index elements 4 ;;
      e5 <- index elements 5 ;;
      ret (setChunks backupEntry e1 e2 e3 e4 e5)
    else ret backupEntry
  else if HasPrefix line "Enter storage password:"
          || HasSuffix line "Authorization failure" then
    logMessage "  Error: Duplicacy appears to be prompting for a password" ;;
    emit (Println line) ;;
    logMessage ("  " +++ line) ;;
    ret backupEntry
  else
    emit (Println line) ;;
    ret backupEntry.

Definition setCopyChunks (e : copyRevision) (e1 e2 e3 : string) : copyRevision :=
  {| Copy.storageFrom := Copy.storageFrom e;
     Copy.storageTo := Copy.storageTo e;
     Copy.chunkTotalCount := e1;
     Copy.chunkCopyCount := e2;
     Copy.chunkSkipCount := e3;
     Copy.duration := Copy.duration e |}.

Definition setCopyStorageDuration (e : copyRevision) (from to d : string)
  : copyRevision :=
  {| Copy.storageFrom := from;
     Copy.storageTo := to;
     Copy.chunkTotalCount := Copy.chunkTotalCount e;
     Copy.chunkCopyCount := Copy.chunkCopyCount e;
     Copy.chunkSkipCount := Copy.chunkSkipCount e;
     Copy.duration := d |}.

(** The closure [copyLogger] of [performDuplicacyCopy]. *)
Definition copyLogger (line : string) (copyEntry : copyRevision) : M copyRevision :=
  if HasPrefix line "Copy complete, " then
    emit (Println line) ;;
    logMessage ("  " +++ line) ;;
    let elements := FindStringSubmatch copyRe line in
    if Nat.leb 4 (List.length elements) then
      e1 <- index elements 1 ;;
      e2 <- index elements 2 ;;
      e3 <- index elements 3 ;;
      ret (setCopyChunks copyEntry e1 e2 e3)
    else ret copyEntry
  else
    emit (Println line) ;;
    ret copyEntry.

(** [anon := func(s string) { logger.Println(s) }], the sink of prune and
    check; it captures no variable. *)
Definition anon (s : string) (_ : unit) : M unit := emit (Println s).

(* ===================================================================== *)
(** ** Command construction                                              *)
(* ===================================================================== *)

(** The support for unit tests at the head of each loop body:
    [cmdArgs := make([]string, len(testArgs)); copy(cmdArgs, testArgs);
     if len(cmdArgs) > 0 && cmdArgs[0] == "testbackup"
       { cmdArgs[1] = testArgs[1] + suffix + strconv.Itoa(i+1) }].
    With [testArgs] equal to ["testbackup"] alone, [cmdArgs[1]] is out of
    range. *)
Definition testCmdArgs (suffix : string) (i : nat) (testArgs : list string)
  : M (list string) :=
  match testArgs with
  | [] => ret []
  | a0 :: rest =>
      if String.eqb a0 "testbackup" then
        match rest with
        | [] => panic
        | a1 :: rest' => ret (a0 :: (a1 +++ suffix +++ Itoa (i + 1)) :: rest')
        end
      else ret testArgs
  end.

(** The arguments of one [duplicacy backup], after the test header. *)
Definition backupCmdArgs (cmdArgs : list string) (backupInfo : BackupInfo.t)
  : list string :=
  let cmdArgs := cmdArgs ++ ["backup"; "-storage"; BackupInfo.Name backupInfo; "-stats"] in
  let cmdArgs := cmdArgs ++ ["-threads"; BackupInfo.Threads backupInfo] in
  let cmdArgs :=
    if BackupInfo.Vss backupInfo then
      let cmdArgs := cmdArgs ++ ["-vss"] in
      if negb (String.eqb (BackupInfo.VssTimeout backupInfo) "") then
        cmdArgs ++ ["-vss-timeout"; BackupInfo.VssTimeout backupInfo]
      else cmdArgs
    else cmdArgs in
  if negb (String.eqb (BackupInfo.Quote backupInfo) "") then
    cmdArgs ++ [" " +++ BackupInfo.Quote backupInfo]
  else cmdArgs.

(** [vssFlags], the text about snapshots in the log line of a backup. *)
Definition vssFlags (backupInfo : BackupInfo.t) : string :=
  if BackupInfo.Vss backupInfo then
    if negb (String.eqb (BackupInfo.VssTimeout backupInfo) "") then
      " -vss" +++ " -vss-timeout " +++ BackupInfo.VssTimeout backupInfo
    else " -vss"
  else "".

(** The arguments of one [duplicacy copy]. *)
Definition copyCmdArgs (cmdArgs : list string) (copyInfo : CopyInfo.t)
  : list string :=
  let cmdArgs := cmdArgs ++ ["copy"; "-from"; CopyInfo.From copyInfo;
                             "-to"; CopyInfo.To copyInfo] in
  let cmdArgs := cmdArgs ++ ["-threads"; CopyInfo.Threads copyInfo] in
  if negb (String.eqb (CopyInfo.Quote copyInfo) "") then
    cmdArgs ++ [" " +++ CopyInfo.Quote copyInfo]
  else cmdArgs.

(** The arguments of one [duplicacy prune].  The source appends to
    [testArgs] here, not to the [cmdArgs] of the test header. *)
Definition pruneCmdArgs (testArgs : list string) (pruneInfo : PruneInfo.t)
  : list string :=
  let cmdArgs := testArgs ++ ["prune"; "-storage"; PruneInfo.Storage pruneInfo] in
  let cmdArgs := cmdArgs ++ SplitSpace (PruneInfo.Keep pruneInfo) in
  let cmdArgs := cmdArgs ++ ["-threads"; PruneInfo.Threads pruneInfo] in
  let cmdArgs := if PruneInfo.All pruneInfo then cmdArgs ++ ["-all"] else cmdArgs in
  if negb (String.eqb (PruneInfo.Quote pruneInfo) "") then
    cmdArgs ++ [" " +++ PruneInfo.Quote pruneInfo]
  else cmdArgs.

(** The arguments of one [duplicacy check]. *)
Definition checkCmdArgs (cmdArgs : list string) (checkInfo : CheckInfo.t)
  : list string :=
  let cmdArgs := cmdArgs ++ ["check"; "-storage"; CheckInfo.Storage checkInfo] in
  let cmdArgs := if CheckInfo.All checkInfo then cmdArgs ++ ["-all"] else cmdArgs in
  if negb (String.eqb (CheckInfo.Quote checkInfo) "") then
    cmdArgs ++ [" " +++ CheckInfo.Quote checkInfo]
  else cmdArgs.

(** [fmt.Sprint] of a [[]string]: the elements between brackets. *)
Definition sprintArgs (args : list string) : string := "[" +++ Join args " " +++ "]".

Definition sprintBool (b : bool) : string := if b then "true" else "false".

(* ===================================================================== *)
(** ** The operation runners                                             *)
(* ===================================================================== *)

(** [for i, x := range xs { body }] where the body may return from the
    function with an error: [inl err] is that return, [inr s] carries the
    variables the body shares with the rest of the function into the next
    turn.  After the last turn the function returns [nil]. *)
Fixpoint forRange {T St : Type} (body : nat -> T -> St -> M (error + St))
    (i : nat) (xs : list T) (s : St) : M (option error) :=
  match xs with
  | [] => ret None
  | x :: rest =>
      r <- body i x s ;;
      match r with
      | inl err => ret (Some err)
      | inr s' => forRange body (S i) rest s'
      end
  end.

Section Runners.

Variable E : env.

(** [err := executor(duplicacyPath, cmdArgs, configFile.RepoDir, sink)]:
    the process is started, the sink receives its lines one by one, and the
    result of the process comes back. *)
Definition callExecutor {St} (cmdArgs : list string)
    (sink : string -> St -> M St) (s : St) : M (option error * St) :=
  r <- ask (fun h => executor E h (duplicacyPath E) cmdArgs (RepoDir (configFile E))) ;;
  emit (Executor (duplicacyPath E) cmdArgs (RepoDir (configFile E)) (fst r) (snd r)) ;;
  s' <- eachLine sink (fst r) s ;;
  ret (snd r, s').

(** [if debugFlag { logMessage(logger, fmt.Sprint("Executing: ", duplicacyPath, cmdArgs)) }] *)
Definition logExecuting (cmdArgs : list string) : M unit :=
  if debugFlag E then
    logMessage ("Executing: " +++ duplicacyPath E +++ sprintArgs cmdArgs)
  else ret tt.

(** [backupTable = append(backupTable, backupEntry)] *)
Definition appendBackupTable (backupEntry : backupRevision) : M unit :=
  fun w => Some (tt, {| backupTable := backupTable w ++ [backupEntry];
                        copyTable := copyTable w;
                        trace := trace w |}).

(** [copyTable = append(copyTable, copyEntry)] *)
Definition appendCopyTable (copyEntry : copyRevision) : M unit :=
  fun w => Some (tt, {| backupTable := backupTable w;
                        copyTable := copyTable w ++ [copyEntry];
                        trace := trace w |}).

(** [if cmdArgs[0] == "testbackup" { d = "x seconds" }] *)
Definition testDuration (cmdArgs : list string) (d : string) : M string :=
  a0 <- index cmdArgs 0 ;;
  ret (if String.eqb a0 "testbackup" then "x seconds" else d).

(** One turn of the loop of [performDuplicacyBackup]: [inl err] when the
    function returns [err], [inr backupEntry] when the loop goes on. *)
Definition backupStep (testArgs : list string) (i : nat)
    (backupInfo : BackupInfo.t) (backupEntry : backupRevision)
  : M (error + backupRevision) :=
  emit (Println separator) ;;
  cmdArgs <- testCmdArgs "_backup" i testArgs ;;
  emit (Printf ("BACKUP: {" +++ BackupInfo.Name backupInfo +++ " "
                +++ BackupInfo.Threads backupInfo +++ " "
                +++ sprintBool (BackupInfo.Vss backupInfo) +++ " "
                +++ BackupInfo.VssTimeout backupInfo +++ " "
                +++ BackupInfo.Quote backupInfo +++ "}" +++ String "010" "")) ;;
  let threadCount := BackupInfo.Threads backupInfo in
  let cmdArgs := backupCmdArgs cmdArgs backupInfo in
  let quoteFlags := BackupInfo.Quote backupInfo in
  logMessage ("Backing up to storage " +++ BackupInfo.Name backupInfo
              +++ vssFlags backupInfo +++ " with " +++ threadCount
              +++ " threads" +++ quoteFlags) ;;
  logExecuting cmdArgs ;;
  r <- callExecutor cmdArgs backupLogger backupEntry ;;
  match fst r with
  | Some err =>
      logError ("Error executing command: " +++ err) ;;
      ret (inl err)
  | None =>
      backupDuration <- ask (getTimeDiffString E) ;;
      backupDuration <- testDuration cmdArgs backupDuration ;;
      logMessage ("  Duration: " +++ backupDuration) ;;
      let backupEntry :=
        setStorageDuration (snd r) (BackupInfo.Name backupInfo) backupDuration in
      appendBackupTable backupEntry ;;
      ret (inr backupEntry)
  end.

(** [backupEntry] is declared once, before the loop, and shared by all its
    turns. *)
Definition performDuplicacyBackup (testArgs : list string) : M (option error) :=
  forRange (backupStep testArgs) 0 (BackupInfo (configFile E)) zeroBackupRevision.

Definition copyStep (testArgs : list string) (i : nat)
    (copyInfo : CopyInfo.t) (copyEntry : copyRevision)
  : M (error + copyRevision) :=
  emit (Println separator) ;;
  cmdArgs <- testCmdArgs "_copy" i testArgs ;;
  let threadCount := CopyInfo.Threads copyInfo in
  let cmdArgs := copyCmdArgs cmdArgs copyInfo in
  let quoteFlags := CopyInfo.Quote copyInfo in
  logMessage ("Copying from storage " +++ CopyInfo.From copyInfo
              +++ " to storage " +++ CopyInfo.To copyInfo +++ " with "
              +++ threadCount +++ " threads" +++ quoteFlags) ;;
  logExecuting cmdArgs ;;
  r <- callExecutor cmdArgs copyLogger copyEntry ;;
  match fst r with
  | Some err =>
      logError ("Error executing command: " +++ err) ;;
      ret (inl err)
  | None =>
      copyDuration <- ask (getTimeDiffString E) ;;
      copyDuration <- testDuration cmdArgs copyDuration ;;
      logMessage ("  Duration: " +++ copyDuration) ;;
      let copyEntry :=
        setCopyStorageDuration (snd r) (CopyInfo.From copyInfo)
          (CopyInfo.To copyInfo) copyDuration in
      appendCopyTable copyEntry ;;
      ret (inr copyEntry)
  end.

(** [copyEntry] too is declared once, before the loop. *)
Definition performDuplicacyCopy (testArgs : list string) : M (option error) :=
  forRange (copyStep testArgs) 0 (CopyInfo (configFile E)) zeroCopyRevision.

(** One turn of the loop of [performDuplicacyPrune].  The test header is
    still evaluated (and can panic), its result is not used. *)
Definition pruneStep (testArgs : list string) (i : nat) (pruneInfo : PruneInfo.t)
    (_ : unit) : M (error + unit) :=
  emit (Println separator) ;;
  _ <- testCmdArgs "_prune" i testArgs ;;
  let cmdArgs := pruneCmdArgs testArgs pruneInfo in
  let threadCount := PruneInfo.Threads pruneInfo in
  let allFlag := if PruneInfo.All pruneInfo then " -all" else "" in
  let quoteFlags := PruneInfo.Quote pruneInfo in
  logMessage ("Pruning storage " +++ PruneInfo.Storage pruneInfo +++ " using "
              +++ threadCount +++ " thread(s)" +++ allFlag +++ quoteFlags) ;;
  logExecuting cmdArgs ;;
  r <- callExecutor cmdArgs anon tt ;;
  match fst r with
  | Some err =>
      logError ("Error executing command: " +++ err) ;;
      ret (inl err)
  | None => ret (inr tt)
  end.

Definition performDuplicacyPrune (testArgs : list string) : M (option error) :=
  forRange (pruneStep testArgs) 0 (PruneInfo (configFile E)) tt.

Definition checkStep (testArgs : list string) (i : nat) (checkInfo : CheckInfo.t)
    (_ : unit) : M (error + unit) :=
  emit (Println separator) ;;
  cmdArgs <- testCmdArgs "_check" i testArgs ;;
  let cmdArgs := checkCmdArgs cmdArgs checkInfo in
  let allText := if CheckInfo.All checkInfo then " with -all" else "" in
  let quoteFlags := CheckInfo.Quote checkInfo in
  logMessage ("Checking storage " +++ CheckInfo.Storage checkInfo
              +++ allText +++ quoteFlags) ;;
  logExecuting cmdArgs ;;
  r <- callExecutor cmdArgs anon tt ;;
  match fst r with
  | Some err =>
      logError ("Error executing command: " +++ err) ;;
      ret (inl err)
  | None => ret (inr tt)
  end.

Definition performDuplicacyCheck (testArgs : list string) : M (option error) :=
  forRange (checkStep testArgs) 0 (CheckInfo (configFile E)) tt.

(* ===================================================================== *)
(** ** The run orchestrator                                              *)
(* ===================================================================== *)

(** [if requested { if err := op(logger, []string{}); err != nil { return err } }]
    followed by the rest of [performBackup]. *)
Definition whenRequested (requested : bool) (op : list string -> M (option error))
    (next : M (option error)) : M (option error) :=
  if requested then
    err <- op [] ;;
    match err with
    | Some e => ret (Some e)
    | None => next
    end
  else next.

Definition performBackup : M (option error) :=
  emit (LogMessage false "Rotating log files") ;;
  err <- ask (rotateLogFiles E) ;;
  emit (RotateLogFiles err) ;;
  match err with
  | Some e => ret (Some e)
  | None =>
      err <- ask (osCreate E) ;;
      emit (OsCreate err) ;;
      match err with
      | Some e =>
          emit (LogError false ("Error: " +++ e)) ;;
          ret (Some e)
      | None =>
          now <- ask (timeNowFormat E) ;;
          logMessage ("Beginning backup on " +++ now) ;;
          emit NotifyOfStart ;;
          whenRequested (cmdBackup E) performDuplicacyBackup
          (whenRequested (cmdCopy E) performDuplicacyCopy
          (whenRequested (cmdPrune E) performDuplicacyPrune
          (whenRequested (cmdCheck E) performDuplicacyCheck
          (emit (Println separator) ;;
           d <- ask (getTimeDiffString E) ;;
           logMessage ("Operations completed in " +++ d) ;;
           err <- (fun w => ask (notifyOfSuccess E (backupTable w) (copyTable w)) w) ;;
           emit (NotifyOfSuccess err) ;;
           ret err))))
      end
  end.

End Runners.

(* ===================================================================== *)
(** ** Configuration loading: what [loadConfig] does to the entries      *)
(* ===================================================================== *)

(** [newConfigurationFile()]: [new(configurationFile)], the zero value. *)
Definition newConfigurationFile : configurationFile :=
  {| configFilename := ""; RepoDir := "";
     BackupInfo := []; CopyInfo := []; PruneInfo := []; CheckInfo := [] |}.

(** [defaults.Set(config)], from the library github.com/creasty/defaults:
    a field that carries a [default] tag and has its zero value receives
    the default, and a slice is walked through the elements it has at the
    time of the call.  The one [default] tag of [configurationFile] is
    [default:"true"] on the field [All] of the elements of [PruneInfo]. *)
Definition defaultsSet (config : configurationFile) : configurationFile :=
  {| configFilename := configFilename config;
     RepoDir := RepoDir config;
     BackupInfo := BackupInfo config;
     CopyInfo := CopyInfo config;
     PruneInfo :=
       map (fun pi => {| PruneInfo.Storage := PruneInfo.Storage pi;
                         PruneInfo.Keep := PruneInfo.Keep pi;
                         PruneInfo.Threads := PruneInfo.Threads pi;
                         PruneInfo.All := true;
                         PruneInfo.Quote := PruneInfo.Quote pi |})
           (PruneInfo config);
     CheckInfo := CheckInfo config |}.

(** [UnmarshalYAML]: the defaults are set on [config] as it is, then the
    decoder that the caller passes fills [config] from the document. *)
Definition UnmarshalYAML
    (unmarshal : configurationFile -> option error * configurationFile)
    (config : configurationFile) : option error * configurationFile :=
  let config := defaultsSet config in
  match unmarshal config with
  | (Some err, config) => (Some err, config)
  | (None, config) => (None, config)
  end.

(** An entry of the [prune] sequence of a configuration document: the keys
    [threads], [all] and [quote] may be absent. *)
Record pruneNode : Type := {
  storageKey : string;
  keepKey : string;
  threadsKey : option string;
  allKey : option bool;
  quoteKey : option string
}.

(** The decoder of gopkg.in/yaml.v2 on a sequence: the slice is made anew,
    each element starts as the zero value of its type and receives the keys
    that the entry has. *)
Definition decodePruneNode (n : pruneNode) : PruneInfo.t :=
  {| PruneInfo.Storage := storageKey n;
     PruneInfo.Keep := keepKey n;
     PruneInfo.Threads := match threadsKey n with Some t => t | None => "" end;
     PruneInfo.All := match allKey n with Some b => b | None => false end;
     PruneInfo.Quote := match quoteKey n with Some q => q | None => "" end |}.

(** The decoder that [yaml.Unmarshal] hands to [UnmarshalYAML], for a
    document whose [prune] sequence is [prune]; the other keys of the
    document are left out of the model. *)
Definition yamlUnmarshal (prune : list pruneNode) (config : configurationFile)
  : option error * configurationFile :=
  (None,
   {| configFilename := configFilename config;
      RepoDir := RepoDir config;
      BackupInfo := BackupInfo config;
      CopyInfo := CopyInfo config;
      PruneInfo := map decodePruneNode prune;
      CheckInfo := CheckInfo config |}).

(** [splitList := strings.Split(pi.Keep, " ");
     for i, element := range splitList { splitList[i] = "-keep " + element };
     strings.Join(splitList, " ")] *)
Definition keepFlags (keep : string) : string :=
  Join (map (fun element => "-keep " +++ element) (SplitSpace keep)) " ".

(** The body of the loop over [config.PruneInfo]: the entry as it is left in
    the slice. *)
Definition loadPruneInfo (pi : PruneInfo.t) : PruneInfo.t :=
  {| PruneInfo.Storage := PruneInfo.Storage pi;
     PruneInfo.Keep :=
       if String.eqb (PruneInfo.Keep pi) "" then PruneInfo.Keep pi
       else keepFlags (PruneInfo.Keep pi);
     PruneInfo.Threads :=
       if String.eqb (PruneInfo.Threads pi) "" then "1" else PruneInfo.Threads pi;
     PruneInfo.All := PruneInfo.All pi;
     PruneInfo.Quote := PruneInfo.Quote pi |}.

(** The body of the loop over [config.BackupInfo]. *)
Definition loadBackupInfo (bi : BackupInfo.t) : BackupInfo.t :=
  {| BackupInfo.Name := BackupInfo.Name bi;
     BackupInfo.Threads :=
       if String.eqb (BackupInfo.Threads bi) "" then "1" else BackupInfo.Threads bi;
     BackupInfo.Vss := BackupInfo.Vss bi;
     BackupInfo.VssTimeout := BackupInfo.VssTimeout bi;
     BackupInfo.Quote := BackupInfo.Quote bi |}.

(** The body of the loop over [config.CopyInfo]. *)
Definition loadCopyInfo (ci : CopyInfo.t) : CopyInfo.t :=
  {| CopyInfo.From := CopyInfo.From ci;
     CopyInfo.To := CopyInfo.To ci;
     CopyInfo.Threads :=
       if String.eqb (CopyInfo.Threads ci) "" then "1" else CopyInfo.Threads ci;
     CopyInfo.Quote := CopyInfo.Quote ci |}.

(** The configuration as [loadConfig] leaves it, from the configuration as
    [yaml.Unmarshal] filled it.  The errors that [loadConfig] reports do not
    stop the loops: every entry is rewritten. *)
Definition loadConfig (config : configurationFile) : configurationFile :=
  {| configFilename := configFilename config;
     RepoDir := RepoDir config;
     BackupInfo := map loadBackupInfo (BackupInfo config);
     CopyInfo := map loadCopyInfo (CopyInfo config);
     PruneInfo := map loadPruneInfo (PruneInfo config);
     CheckInfo := CheckInfo config |}.

(* ===================================================================== *)
(** ** Vocabulary of the statements                                      *)
(* ===================================================================== *)

(** A token: a non-empty run of characters of the class [\S]. *)
Fixpoint nonspace (s : string) : bool :=
  match s with
  | EmptyString => true
  | String c s' => negb (is_space c) && nonspace s'
  end.

Definition token (s : string) : bool :=
  negb (String.eqb s "") && nonspace s.

(** The subject of the "Files:" pattern as the tool prints it. *)
Definition filesLine (a b c d : string) : string :=
  "Files: " +++ a +++ " total, " +++ b +++ " bytes; " +++ c +++ " new, "
  +++ d +++ " bytes".

(** Test arguments on which the test header of the loops does not panic:
    anything but ["testbackup"] alone. *)
Definition testArgsOK (testArgs : list string) : bool :=
  match testArgs with
  | [a0] => negb (String.eqb a0 "testbackup")
  | _ => true
  end.

(** The [cmdArgs] that the test header leaves when it does not panic. *)
Definition testHeader (suffix : string) (i : nat) (testArgs : list string)
  : list string :=
  match testArgs with
  | a0 :: a1 :: rest =>
      if String.eqb a0 "testbackup"
      then a0 :: (a1 +++ suffix +++ Itoa (i + 1)) :: rest
      else testArgs
  | _ => testArgs
  end.

(** The events that are log output; the others are the steps of a run. *)
Definition is_log (ev : event) : bool :=
  match ev with
  | Println _ | LogMessage _ _ | LogError _ _ | Printf _ => true
  | _ => false
  end.

Definition steps (t : list event) : list event :=
  filter (fun ev => negb (is_log ev)) t.

(** The error a step came back with, if any. *)
Definition failure (ev : event) : option error :=
  match ev with
  | RotateLogFiles res | OsCreate res | NotifyOfSuccess res => res
  | Executor _ _ _ _ res => res
  | _ => None
  end.

(** The process invocations of a history: arguments and result. *)
Fixpoint invocations (t : list event) : list (list string * option error) :=
  match t with
  | [] => []
  | Executor _ args _ _ res :: t' => (args, res) :: invocations t'
  | _ :: t' => invocations t'
  end.

(** [Some e] as the one-element list, [nil] as the empty one. *)
Definition failed (r : option error) : list (option error) :=
  match r with
  | Some e => [Some e]
  | None => []
  end.

(** The arguments of the invocations of a loop that goes through all of
    [xs], the first of which has index [i]. *)
Fixpoint plannedArgs {T : Type} (argsOf : nat -> T -> list string) (i : nat)
    (xs : list T) : list (list string) :=
  match xs with
  | [] => []
  | x :: rest => argsOf i x :: plannedArgs argsOf (S i) rest
  end.

Definition backupArgsOf (testArgs : list string) (i : nat) (bi : BackupInfo.t) :=
  backupCmdArgs (testHeader "_backup" i testArgs) bi.
Definition copyArgsOf (testArgs : list string) (i : nat) (ci : CopyInfo.t) :=
  copyCmdArgs (testHeader "_copy" i testArgs) ci.
Definition pruneArgsOf (testArgs : list string) (i : nat) (pi : PruneInfo.t) :=
  pruneCmdArgs testArgs pi.
Definition checkArgsOf (testArgs : list string) (i : nat) (ci : CheckInfo.t) :=
  checkCmdArgs (testHeader "_check" i testArgs) ci.

(** [ev] is the invocation of the tool of [E] with the arguments [args]. *)
Definition invocation_of (E : env) (ev : event) (args : list string) : Prop :=
  exists out res,
    ev = Executor (duplicacyPath E) args (RepoDir (configFile E)) out res.

(** A loop body that logs, invokes the tool once with [args], and returns
    from the function exactly when the invocation failed, with its error. *)
Definition invokes {St : Type} (E : env) (args : list string)
    (body : M (error + St)) : Prop :=
  forall w, exists out res t r w',
    body w = Some (r, w') /\
    trace w' = trace w ++ t /\
    steps t = [Executor (duplicacyPath E) args (RepoDir (configFile E)) out res] /\
    match r with
    | inl e => res = Some e
    | inr _ => res = None
    end.

(** The stages of a run, in the order of [performBackup]. *)
Inductive stage : Type :=
| Rotate | CreateLog | NotifyStart
| RunBackup | RunCopy | RunPrune | RunCheck
| NotifySuccess.

(** The stage a step belongs to; an invocation is told by its verb, the
    first argument when there are no test arguments. *)
Definition stage_of (ev : event) : option stage :=
  match ev with
  | RotateLogFiles _ => Some Rotate
  | OsCreate _ => Some CreateLog
  | NotifyOfStart => Some NotifyStart
  | NotifyOfSuccess _ => Some NotifySuccess
  | Executor _ (verb :: _) _ _ _ =>
      if String.eqb verb "backup" then Some RunBackup
      else if String.eqb verb "copy" then Some RunCopy
      else if String.eqb verb "prune" then Some RunPrune
      else if String.eqb verb "check" then Some RunCheck
      else None
  | _ => None
  end.

(** The stages of a run in which nothing fails: each requested operation
    once per configured target. *)
Definition plan (E : env) : list stage :=
  [Rotate; CreateLog; NotifyStart]
  ++ (if cmdBackup E then repeat RunBackup (List.length (BackupInfo (configFile E))) else [])
  ++ (if cmdCopy E then repeat RunCopy (List.length (CopyInfo (configFile E))) else [])
  ++ (if cmdPrune E then repeat RunPrune (List.length (PruneInfo (configFile E))) else [])
  ++ (if cmdCheck E then repeat RunCheck (List.length (CheckInfo (configFile E))) else [])
  ++ [NotifySuccess].

(** [follows pl ss r]: the steps [ss] go through the stages [pl] in order,
    one step per stage, up to and including the first step that fails; [r]
    is the error of that step, or [nil] when every stage of [pl] was gone
    through without failure. *)
Inductive follows : list stage -> list event -> option error -> Prop :=
| follows_done : follows [] [] None
| follows_ok (st : stage) (pl : list stage) (ev : event) (ss : list event)
    (r : option error) :
    stage_of ev = Some st -> failure ev = None -> follows pl ss r ->
    follows (st :: pl) (ev :: ss) r
| follows_fail (st : stage) (pl : list stage) (ev : event) (e : error) :
    stage_of ev = Some st -> failure ev = Some e ->
    follows (st :: pl) [ev] (Some e).

(** The world after some more events. *)
Definition logged (w : world) (evs : list event) : world :=
  {| backupTable := backupTable w;
     copyTable := copyTable w;
     trace := trace w ++ evs |}.

(** The record that [backupLogger] leaves in [backupEntry], as a function
    of the line. *)
Definition observed (line : string) (backupEntry : backupRevision)
  : backupRevision :=
  if HasPrefix line "Files:" then
    match FindStringSubmatch filesRe line with
    | [_; e1; e2; e3; e4] => setFiles backupEntry e1 e2 e3 e4
    | _ => backupEntry
    end
  else if HasPrefix line "All chunks:" then
    match FindStringSubmatch chunksRe line with
    | [_; e1; e2; e3; e4; e5] => setChunks backupEntry e1 e2 e3 e4 e5
    | _ => backupEntry
    end
  else backupEntry.

(** The record that [copyLogger] leaves in [copyEntry]. *)
Definition observedCopy (line : string) (copyEntry : copyRevision)
  : copyRevision :=
  if HasPrefix line "Copy complete, " then
    match FindStringSubmatch copyRe line with
    | [_; e1; e2; e3] => setCopyChunks copyEntry e1 e2 e3
    | _ => copyEntry
    end
  else copyEntry.

(** A computation that returns, after steps that follow the stages [pl]. *)
Definition runs (m : M (option error)) (pl : list stage) : Prop :=
  forall w, exists r w' t,
    m w = Some (r, w') /\ trace w' = trace w ++ t /\ follows pl (steps t) r.

(** [ev] is a step that did not fail. *)
Definition succeeded (ev : event) : Prop := failure ev = None.

(* ===================================================================== *)
(** ** Sample runs                                                       *)
(* ===================================================================== *)

Definition emptyWorld : world :=
  {| backupTable := []; copyTable := []; trace := [] |}.

Definition sampleTarget (name quote : string) : BackupInfo.t :=
  {| BackupInfo.Name := name; BackupInfo.Threads := "1";
     BackupInfo.Vss := false; BackupInfo.VssTimeout := "";
     BackupInfo.Quote := quote |}.

(** Two backup targets and one target of each other kind, as [loadConfig]
    would leave them. *)
Definition sampleConfig : configurationFile :=
  {| configFilename := "sample.yaml";
     RepoDir := "/home/user";
     BackupInfo := [sampleTarget "primary" ""; sampleTarget "secondary" ""];
     CopyInfo := [{| CopyInfo.From := "primary"; CopyInfo.To := "offsite";
                     CopyInfo.Threads := "1"; CopyInfo.Quote := "" |}];
     PruneInfo := [{| PruneInfo.Storage := "primary";
                      PruneInfo.Keep := "-keep 7 -keep 30 -keep 365";
                      PruneInfo.Threads := "1"; PruneInfo.All := true;
                      PruneInfo.Quote := "" |}];
     CheckInfo := [{| CheckInfo.Storage := "primary"; CheckInfo.All := false;
                      CheckInfo.Quote := "" |}] |}.

(** The same configuration as [yaml.Unmarshal] fills it from a document
    that gives no thread count and the retention rules "7 30 365". *)
Definition sampleDocument : configurationFile :=
  {| configFilename := "sample.yaml";
     RepoDir := "/home/user";
     BackupInfo := [{| BackupInfo.Name := "primary"; BackupInfo.Threads := "";
                       BackupInfo.Vss := false; BackupInfo.VssTimeout := "";
                       BackupInfo.Quote := "" |};
                    {| BackupInfo.Name := "secondary"; BackupInfo.Threads := "";
                       BackupInfo.Vss := false; BackupInfo.VssTimeout := "";
                       BackupInfo.Quote := "" |}];
     CopyInfo := [{| CopyInfo.From := "primary"; CopyInfo.To := "offsite";
                     CopyInfo.Threads := ""; CopyInfo.Quote := "" |}];
     PruneInfo := [{| PruneInfo.Storage := "primary";
                      PruneInfo.Keep := "7 30 365";
                      PruneInfo.Threads := ""; PruneInfo.All := true;
                      PruneInfo.Quote := "" |}];
     CheckInfo := [{| CheckInfo.Storage := "primary"; CheckInfo.All := false;
                      CheckInfo.Quote := "" |}] |}.

(** A run of all four operations in which only the tool can fail. *)
Definition sampleEnv
    (exec : list event -> string -> list string -> string
            -> list string * option error) : env :=
  {| configFile := sampleConfig;
     duplicacyPath := "duplicacy";
     debugFlag := false;
     cmdBackup := true; cmdCopy := true; cmdPrune := true; cmdCheck := true;
     executor := exec;
     rotateLogFiles := fun _ => None;
     osCreate := fun _ => None;
     notifyOfSuccess := fun _ _ _ => None;
     getTimeDiffString := fun _ => "2 seconds";
     timeNowFormat := fun _ => "10-30-2026 06:00:00" |}.

Definition mentions (name : string) (args : list string) : bool :=
  existsb (String.eqb name) args.

(** The tool prints nothing and succeeds. *)
Definition quietTool (h : list event) (path : string) (args : list string)
    (dir : string) : list string * option error :=
  ([], None).

(** The tool fails on the storage "secondary". *)
Definition failsOnSecondary (h : list event) (path : string)
    (args : list string) (dir : string) : list string * option error :=
  if mentions "secondary" args
  then (["Failed to connect to the storage"], Some "exit status 100")
  else ([], None).

(** The tool prints its statistics for "primary" and nothing at all for
    "secondary", and succeeds on both. *)
Definition silentOnSecondary (h : list event) (path : string)
    (args : list string) (dir : string) : list string * option error :=
  if mentions "secondary" args then ([], None)
  else (["Files: 100 total, 10G bytes; 5 new, 200M bytes";
         "All chunks: 400 total, 12G bytes; 20 new, 300M bytes, 290M bytes uploaded"],
        None).

(* ===================================================================== *)
(** ** Further vocabulary                                                *)
(* ===================================================================== *)

(** The subject of the "All chunks:" pattern as the tool prints it. *)
Definition chunksLine (a b c d u : string) : string :=
  "All chunks: " +++ a +++ " total, " +++ b +++ " bytes; " +++ c +++ " new, "
  +++ d +++ " bytes, " +++ u +++ " bytes uploaded".

(** The subject of the "Copy complete" pattern as the tool prints it. *)
Definition copyLine (a b c : string) : string :=
  "Copy complete, " +++ a +++ " total chunks, " +++ b +++ " chunks copied, "
  +++ c +++ " skipped".

(** [tok] stands in [line] as it is. *)
Definition piece (tok line : string) : Prop :=
  exists pre post, line = pre +++ tok +++ post.

(** The nine fields of a backup record that hold statistics. *)
Definition statistics : list (backupRevision -> string) :=
  [chunkTotalCount; chunkTotalSize; filesTotalCount; filesTotalSize;
   filesNewCount; filesNewSize; chunkNewCount; chunkNewSize; chunkNewUploaded].

(** The warning of [backupLogger] about a password prompt. *)
Definition passwordWarning : event :=
  LogMessage true "  Error: Duplicacy appears to be prompting for a password".

(** The output lines of the invocations of a history, one list each. *)
Fixpoint outputs (t : list event) : list (list string) :=
  match t with
  | [] => []
  | Executor _ _ _ out _ :: t' => out :: outputs t'
  | _ :: t' => outputs t'
  end.

(** Every line that an invocation of the history wrote was handed to
    [logger.Println]. *)
Definition linesLogged (t : list event) : Prop :=
  forall path args dir out res line,
    In (Executor path args dir out res) t -> In line out -> In (Println line) t.

(** The run with another configuration in the global [configFile]. *)
Definition withConfig (E : env) (config : configurationFile) : env :=
  {| configFile := config;
     duplicacyPath := duplicacyPath E;
     debugFlag := debugFlag E;
     cmdBackup := cmdBackup E; cmdCopy := cmdCopy E;
     cmdPrune := cmdPrune E; cmdCheck := cmdCheck E;
     executor := executor E;
     rotateLogFiles := rotateLogFiles E;
     osCreate := osCreate E;
     notifyOfSuccess := notifyOfSuccess E;
     getTimeDiffString := getTimeDiffString E;
     timeNowFormat := timeNowFormat E |}.

(** A document with two prune entries; the second has two spaces in a row
    in its retention rules, and no thread count. *)
Definition retentionDocument : configurationFile :=
  {| configFilename := "retention.yaml";
     RepoDir := "/home/user";
     BackupInfo := []; CopyInfo := [];
     PruneInfo := [{| PruneInfo.Storage := "primary"; PruneInfo.Keep := "7 30 365";
                      PruneInfo.Threads := "4"; PruneInfo.All := false;
                      PruneInfo.Quote := "" |};
                   {| PruneInfo.Storage := "b2"; PruneInfo.Keep := "0:365 30:180  1:7";
                      PruneInfo.Threads := ""; PruneInfo.All := true;
                      PruneInfo.Quote := "" |}];
     CheckInfo := [] |}.

(** The two tables are the same in both worlds. *)
Definition sameTables (w w' : world) : Prop :=
  backupTable w' = backupTable w /\ copyTable w' = copyTable w.

(* ===================================================================== *)
(** ** Configuration loading: the error that [loadConfig] returns        *)
(* ===================================================================== *)

(** [for i, x := range xs { ... err = ... }]: the value of [err] after a
    loop whose body may assign it. *)
Fixpoint rangeErr {T : Type} (body : nat -> T -> option error -> option error)
    (i : nat) (xs : list T) (err : option error) : option error :=
  match xs with
  | [] => err
  | x :: rest => rangeErr body (S i) rest (body i x err)
  end.

(** [fmt.Errorf("missing mandatory <what> field: %d.<key>", i)] *)
Definition missingField (what : string) (i : nat) (key : string) : error :=
  "missing mandatory " +++ what +++ " field: " +++ Itoa i +++ "." +++ key.

Definition backupInfoErr (i : nat) (bi : BackupInfo.t) (err : option error)
  : option error :=
  if String.eqb (BackupInfo.Name bi) "" then Some (missingField "storage" i "name")
  else err.

Definition copyInfoErr (i : nat) (ci : CopyInfo.t) (err : option error)
  : option error :=
  let err := if String.eqb (CopyInfo.From ci) ""
             then Some (missingField "from" i "from") else err in
  if String.eqb (CopyInfo.To ci) "" then Some (missingField "to" i "to") else err.

Definition pruneInfoErr (i : nat) (pi : PruneInfo.t) (err : option error)
  : option error :=
  let err := if String.eqb (PruneInfo.Storage pi) ""
             then Some (missingField "prune" i "storage") else err in
  if String.eqb (PruneInfo.Keep pi) "" then Some (missingField "prune" i "keep")
  else err.

Definition checkInfoErr (i : nat) (ci : CheckInfo.t) (err : option error)
  : option error :=
  if String.eqb (CheckInfo.Storage ci) "" then Some (missingField "check" i "storage")
  else err.

(** The error that [loadConfig] returns once the configuration file is read
    and decoded into [config]: the variable [err] after the checks, each of
    which assigns it without looking at what it holds.  [osStat] is
    [os.Stat], by the error it returns; its result is assigned to [err]
    itself, after the test of an empty [RepoDir]. *)
Definition loadConfigErr (osStat : string -> option error)
    (config : configurationFile) : option error :=
  let err : option error := None in
  let err := if String.eqb (RepoDir config) ""
             then Some "missing mandatory repository location" else err in
  (* [_, err = os.Stat(config.RepoDir)] assigns the same [err] *)
  let err := osStat (RepoDir config) in
  let err := match BackupInfo config with
             | [] => Some "no storage locations defined in configuration"
             | l => rangeErr backupInfoErr 0 l err
             end in
  let err := rangeErr copyInfoErr 0 (CopyInfo config) err in
  let err := match PruneInfo config with
             | [] => Some "no prune locations defined in configuration"
             | _ => err
             end in
  let err := rangeErr pruneInfoErr 0 (PruneInfo config) err in
  let err := match CheckInfo config with
             | [] => Some "no check locations defined in configuration"
             | l => rangeErr checkInfoErr 0 l err
             end in
  err.

(** A configuration on which none of the checks of [loadConfig] fires. *)
Definition validConfig (config : configurationFile) : Prop :=
  BackupInfo config <> [] /\
  Forall (fun bi => BackupInfo.Name bi <> "") (BackupInfo config) /\
  Forall (fun ci => CopyInfo.From ci <> "" /\ CopyInfo.To ci <> "") (CopyInfo config) /\
  PruneInfo config <> [] /\
  Forall (fun pi => PruneInfo.Storage pi <> "" /\ PruneInfo.Keep pi <> "")
         (PruneInfo config) /\
  CheckInfo config <> [] /\
  Forall (fun ci => CheckInfo.Storage ci <> "") (CheckInfo config).

(* ===================================================================== *)
(** * Properties                                                         *)
(* ===================================================================== *)

(** ** The patterns on the lines of the source comments *)

Example filesRe_example :
  FindStringSubmatch filesRe "Files: 161318 total, 1666G bytes; 373 new, 15,951M bytes"
  = ["Files: 161318 total, 1666G bytes; 373 new, 15,951M bytes";
     "161318"; "1666G"; "373"; "15,951M"].
Proof. reflexivity. Qed.

Example chunksRe_example :
  FindStringSubmatch chunksRe
    "All chunks: 348444 total, 1668G bytes; 2415 new, 12,391M bytes, 12,255M bytes uploaded"
  = ["All chunks: 348444 total, 1668G bytes; 2415 new, 12,391M bytes, 12,255M bytes uploaded";
     "348444"; "1668G"; "2415"; "12,391M"; "12,255M"].
Proof. reflexivity. Qed.

Example copyRe_example :
  FindStringSubmatch copyRe "Copy complete, 107 total chunks, 0 chunks copied, 107 skipped"
  = ["Copy complete, 107 total chunks, 0 chunks copied, 107 skipped"; "107"; "0"; "107"].
Proof. reflexivity. Qed.

Example filesRe_mismatch : FindStringSubmatch filesRe "Files: none" = [].
Proof. reflexivity. Qed.

(* ===================================================================== *)
(** ** The string functions against their meaning                        *)
(* ===================================================================== *)

Example Itoa_examples : Itoa 0 = "0" /\ Itoa 1 = "1" /\ Itoa 12 = "12".
Proof. repeat split. Qed.

Example SplitSpace_examples :
  SplitSpace "" = [""] /\ SplitSpace "7" = ["7"] /\
  SplitSpace "7 30 365" = ["7"; "30"; "365"] /\
  SplitSpace " a  b " = [""; "a"; ""; "b"; ""].
Proof. repeat split. Qed.

Example HasSuffix_examples :
  HasSuffix "ERROR Authorization failure" "Authorization failure" = true /\
  HasSuffix "failure" "Authorization failure" = false /\
  HasSuffix "Authorization failure." "Authorization failure" = false.
Proof. repeat split. Qed.

Lemma HasPrefix_true_iff (s p : string) :
  HasPrefix s p = true <-> exists t, s = p +++ t.
Proof.
  unfold HasPrefix; revert s; induction p as [|a p IH]; intros s.
  - split; [intros _; now exists s | intros _; now destruct s].
  - destruct s as [|b s]; simpl.
    + split; [discriminate | intros [t H]; discriminate].
    + destruct (ascii_dec a b) as [->|Hne].
      * split.
        -- intros H; apply IH in H as [t ->]; now exists t.
        -- intros [t H]; injection H as ->; apply IH; now exists t.
      * split; [discriminate | intros [t H]; injection H as H _; congruence].
Qed.

Lemma length_append (a b : string) :
  String.length (a +++ b) = String.length a + String.length b.
Proof. induction a as [|x a IH]; simpl; [reflexivity | now rewrite IH]. Qed.

Lemma substring_whole (s : string) : substring 0 (String.length s) s = s.
Proof. induction s as [|c s IH]; simpl; [reflexivity | now rewrite IH]. Qed.

Lemma substring_skip (t s : string) (m : nat) :
  substring (String.length t) m (t +++ s) = substring 0 m s.
Proof. induction t as [|c t IH]; simpl; [reflexivity | exact IH]. Qed.

Lemma substring_split (k : nat) :
  forall s, k <= String.length s ->
  s = substring 0 k s +++ substring k (String.length s - k) s.
Proof.
  induction k as [|k IH]; intros s Hk.
  - rewrite Nat.sub_0_r, substring_whole. now destruct s.
  - destruct s as [|c s]; simpl in *; [lia|].
    f_equal. apply IH; lia.
Qed.

Lemma HasSuffix_true_iff (s suf : string) :
  HasSuffix s suf = true <-> exists t, s = t +++ suf.
Proof.
  unfold HasSuffix; rewrite andb_true_iff, Nat.leb_le, String.eqb_eq; split.
  - intros [Hle Hsub].
    exists (substring 0 (String.length s - String.length suf) s).
    pose proof (substring_split (String.length s - String.length suf) s) as H.
    replace (String.length s - (String.length s - String.length suf))
      with (String.length suf) in H by lia.
    rewrite Hsub in H. apply H; lia.
  - intros [t ->]. rewrite length_append. split; [lia|].
    replace (String.length t + String.length suf - String.length suf)
      with (String.length t) by lia.
    now rewrite substring_skip, substring_whole.
Qed.

(** [strings.Join] undoes [strings.Split]. *)
Lemma SplitSpace_nonempty (s : string) : SplitSpace s <> [].
Proof.
  induction s as [|c s IH]; simpl; [discriminate|].
  destruct (Ascii.eqb c " "); [discriminate|].
  destruct (SplitSpace s); [contradiction | discriminate].
Qed.

Lemma Join_SplitSpace (s : string) : Join (SplitSpace s) " " = s.
Proof.
  induction s as [|c s IH]; simpl; [reflexivity|].
  destruct (Ascii.eqb_spec c " ") as [->|Hne].
  - pose proof (SplitSpace_nonempty s) as Hs.
    destruct (SplitSpace s) as [|w ws]; [contradiction|].
    simpl in *. now rewrite IH.
  - pose proof (SplitSpace_nonempty s) as Hs.
    destruct (SplitSpace s) as [|w ws]; [contradiction|].
    destruct ws; simpl in *; now rewrite <- IH.
Qed.

(** A word without a space in front of a space is the first piece. *)
Lemma SplitSpace_word (a r : string) :
  spaces a = 0 -> SplitSpace (a +++ String " " r) = a :: SplitSpace r.
Proof.
  induction a as [|c a IH]; simpl; [reflexivity|].
  destruct (Ascii.eqb c " "); [discriminate|].
  intros Ha; now rewrite IH.
Qed.

Lemma SplitSpace_last_word (a : string) : spaces a = 0 -> SplitSpace a = [a].
Proof.
  induction a as [|c a IH]; simpl; [reflexivity|].
  destruct (Ascii.eqb c " "); [discriminate|].
  intros Ha; now rewrite IH.
Qed.

Lemma SplitSpace_Join (words : list string) :
  words <> [] -> Forall (fun a => spaces a = 0) words ->
  SplitSpace (Join words " ") = words.
Proof.
  induction words as [|a words IH]; [contradiction|].
  intros _ Hall; inversion Hall as [|? ? Ha Hall']; subst.
  destruct words as [|b words].
  - simpl; now apply SplitSpace_last_word.
  - change (Join (a :: b :: words) " ") with (a +++ String " " (Join (b :: words) " ")).
    rewrite SplitSpace_word by assumption.
    f_equal; apply IH; [discriminate | assumption].
Qed.

(** The retention rules of a [keep] string, however many there are, reach
    the tool as one pair [-keep <rule>] per rule. *)
Lemma keep_rules_expanded (rules : list string) :
  rules <> [] -> Forall (fun a => spaces a = 0) rules ->
  SplitSpace (keepFlags (Join rules " "))
  = flat_map (fun rule => ["-keep"; rule]) rules.
Proof.
  intros Hne Hall. unfold keepFlags. rewrite (SplitSpace_Join _ Hne Hall).
  destruct rules as [|a rules]; [contradiction|]. clear Hne.
  revert a Hall; induction rules as [|b rules IH]; intros a Hall;
    inversion Hall as [|? ? Ha Hall']; subst.
  - cbn [map Join flat_map app].
    change ("-keep " +++ a) with ("-keep" +++ String " " a).
    rewrite SplitSpace_word by reflexivity.
    now rewrite SplitSpace_last_word.
  - change (Join (map (fun element => "-keep " +++ element) (a :: b :: rules)) " ")
      with ("-keep" +++ String " "
              (a +++ String " "
                 (Join (map (fun element => "-keep " +++ element) (b :: rules)) " "))).
    rewrite SplitSpace_word by reflexivity.
    rewrite SplitSpace_word by assumption.
    rewrite (IH b Hall'). reflexivity.
Qed.

(* ===================================================================== *)
(** ** Properties of strings and of the matcher                          *)
(* ===================================================================== *)

Lemma append_assoc (a b c : string) : (a +++ b) +++ c = a +++ b +++ c.
Proof. induction a as [|x a IH]; simpl; [reflexivity | now rewrite IH]. Qed.

Lemma append_empty_r (a : string) : a +++ "" = a.
Proof. induction a as [|x a IH]; simpl; [reflexivity | now rewrite IH]. Qed.

Lemma spaces_append (a b : string) : spaces (a +++ b) = spaces a + spaces b.
Proof. induction a as [|x a IH]; simpl; [reflexivity | rewrite IH; lia]. Qed.


Lemma is_space_space (c : ascii) : Ascii.eqb c " " = true -> is_space c = true.
Proof. unfold is_space; intros ->; now rewrite !orb_true_r. Qed.

Lemma nonspace_spaces (s : string) : nonspace s = true -> spaces s = 0.
Proof.
  induction s as [|c s IH]; simpl; [reflexivity|].
  intros H; apply andb_true_iff in H as [Hc Hs].
  destruct (Ascii.eqb c " ") eqn:Ec.
  - rewrite (is_space_space _ Ec) in Hc; discriminate.
  - now rewrite IH.
Qed.

Lemma token_spaces (s : string) : token s = true -> spaces s = 0.
Proof.
  unfold token; intros H; apply andb_true_iff in H as [_ H].
  now apply nonspace_spaces.
Qed.

Lemma strip_append (l s s' : string) : strip l s = Some s' -> s = l +++ s'.
Proof.
  revert s; induction l as [|a l IH]; intros [|b s]; simpl; try congruence.
  destruct (Ascii.eqb_spec a b); [|discriminate].
  intros H; subst; f_equal; now apply IH.
Qed.

Lemma strip_here (l s : string) : strip l (l +++ s) = Some s.
Proof.
  induction l as [|a l IH]; simpl; [reflexivity|].
  now rewrite Ascii.eqb_refl.
Qed.

Section Continuations.

Variable k : string -> result.

(** A greedy [.*] gives the answer of the longest run, when there is one. *)
Lemma star_keep (c : ascii) (s : string) (r : list string * string) :
  is_newline c = false -> star k s = Some r -> star k (String c s) = Some r.
Proof. intros Hc Hs; simpl; now rewrite Hc, Hs. Qed.

Lemma star_skip (c : ascii) (s : string) :
  is_newline c = false -> star k s = None -> star k (String c s) = k (String c s).
Proof. intros Hc Hs; simpl; now rewrite Hc, Hs. Qed.

(** The answer of [.*] is an answer of the continuation on a suffix. *)
Lemma star_suffix (s : string) (r : list string * string) :
  star k s = Some r -> exists u v, s = u +++ v /\ k v = Some r.
Proof.
  induction s as [|c s IH]; simpl.
  - intros H; now exists "", "".
  - destruct (is_newline c).
    + intros H; now exists "", (String c s).
    + destruct (star k s) as [r'|] eqn:Es.
      * intros H; injection H as ->.
        destruct (IH eq_refl) as (u & v & -> & Hv).
        now exists (String c u), v.
      * intros H; now exists "", (String c s).
Qed.

(** A greedy [(\S+)] in front of a token takes the whole token when the
    continuation accepts what follows it. *)
Lemma plus_token (tok s : string) (r : list string * string) :
  token tok = true -> plus k s = None -> k s = Some r ->
  plus k (tok +++ s) = Some (tok, r).
Proof.
  unfold token; intros Ht Hp Hk.
  apply andb_true_iff in Ht as [Hne Hns].
  induction tok as [|c tok IH]; [discriminate|].
  simpl in Hns; apply andb_true_iff in Hns as [Hc Hns].
  apply negb_true_iff in Hc. simpl; rewrite Hc.
  destruct tok as [|c' tok].
  - simpl; now rewrite Hp, Hk.
  - now rewrite IH.
Qed.

(** What [(\S+)] captures is a token in front of the subject. *)
Lemma plus_captures (s tok : string) (r : list string * string) :
  plus k s = Some (tok, r) ->
  token tok = true /\ exists v, s = tok +++ v /\ k v = Some r.
Proof.
  revert tok; induction s as [|c s IH]; simpl; [discriminate|].
  intros tok. destruct (is_space c) eqn:Ec; [discriminate|].
  destruct (plus k s) as [[tok' r']|] eqn:Ep.
  - intros H; injection H as <- ->.
    destruct (IH _ eq_refl) as (Ht & v & -> & Hv).
    split.
    + unfold token in *; simpl; rewrite Ec; simpl.
      now apply andb_true_iff in Ht as [_ ->].
    + now exists v.
  - destruct (k s) as [r'|] eqn:Ek; [|discriminate].
    intros H; injection H as <- <-.
    split; [unfold token; simpl; now rewrite Ec|].
    now exists s.
Qed.

End Continuations.

(** A match consumes at least the spaces of the literals of the pattern. *)
Lemma match_here_spaces (p : regexp) :
  forall s caps rest, match_here p s = Some (caps, rest) ->
  lit_spaces p + spaces rest <= spaces s.
Proof.
  induction p as [|[l| |] p IH]; intros s caps rest; simpl.
  - intros H; injection H as _ ->; lia.
  - destruct (strip l s) as [s'|] eqn:Es; [|discriminate].
    intros H; apply IH in H. apply strip_append in Es; subst.
    rewrite spaces_append; lia.
  - intros H; apply star_suffix in H as (u & v & -> & Hv).
    apply IH in Hv. rewrite spaces_append; lia.
  - destruct (plus (match_here p) s) as [[tok [caps' rest']]|] eqn:Ep;
      [|discriminate].
    intros H; injection H as _ ->.
    apply plus_captures in Ep as (_ & v & -> & Hv).
    apply IH in Hv. rewrite spaces_append; lia.
Qed.

(** A match yields one capture per group. *)
Lemma match_here_groups (p : regexp) :
  forall s caps rest, match_here p s = Some (caps, rest) ->
  List.length caps = groups p.
Proof.
  induction p as [|[l| |] p IH]; intros s caps rest; simpl.
  - now intros H; injection H as <- _.
  - destruct (strip l s) as [s'|]; [apply IH | discriminate].
  - intros H; apply star_suffix in H as (u & v & _ & Hv); eauto.
  - destruct (plus (match_here p) s) as [[tok [caps' rest']]|] eqn:Ep;
      [|discriminate].
    intros H; injection H as <- _.
    apply plus_captures in Ep as (_ & v & _ & Hv).
    simpl; f_equal; eauto.
Qed.

(** [FindStringSubmatch] returns [nil] or the match and all its groups. *)
Lemma FindStringSubmatch_length (p : regexp) (s : string) :
  FindStringSubmatch p s = [] \/
  List.length (FindStringSubmatch p s) = S (groups p).
Proof.
  induction s as [|c s IH]; simpl.
  - destruct (match_here p "") as [[caps rest]|] eqn:Em; [right | now left].
    simpl; f_equal; eapply match_here_groups; eauto.
  - destruct (match_here p (String c s)) as [[caps rest]|] eqn:Em; [right | exact IH].
    simpl; f_equal; eapply match_here_groups; eauto.
Qed.

Lemma FindStringSubmatch_here (p : regexp) (s : string) caps rest :
  match_here p s = Some (caps, rest) ->
  FindStringSubmatch p s
  = substring 0 (String.length s - String.length rest) s :: caps.
Proof. intros H; destruct s; simpl; now rewrite H. Qed.


(** What a match says about its subject, item by item. *)
Lemma match_here_lit (l : string) (p : regexp) (s : string) (r : list string * string) :
  match_here (Lit l :: p) s = Some r ->
  exists s', s = l +++ s' /\ match_here p s' = Some r.
Proof.
  simpl. destruct (strip l s) as [s'|] eqn:Es; [|discriminate].
  intros H; exists s'; split; [now apply strip_append | exact H].
Qed.

Lemma match_here_star (p : regexp) (s : string) (r : list string * string) :
  match_here (AnyStar :: p) s = Some r ->
  exists u v, s = u +++ v /\ match_here p v = Some r.
Proof. simpl; apply star_suffix. Qed.

Lemma match_here_plus (p : regexp) (s : string) (caps : list string) (rest : string) :
  match_here (NonSpacePlus :: p) s = Some (caps, rest) ->
  exists tok caps' v,
    caps = tok :: caps' /\ token tok = true /\ s = tok +++ v /\
    match_here p v = Some (caps', rest).
Proof.
  simpl. destruct (plus (match_here p) s) as [[tok [caps' rest']]|] eqn:Ep;
    [|discriminate].
  intros H; injection H as <- <-.
  apply plus_captures in Ep as (Ht & v & -> & Hv).
  now exists tok, caps', v.
Qed.

(** A result of [FindStringSubmatch] is a match somewhere in the subject. *)
Lemma FindStringSubmatch_sound (p : regexp) (s whole : string) (caps : list string) :
  FindStringSubmatch p s = whole :: caps ->
  exists pre s' rest, s = pre +++ s' /\ match_here p s' = Some (caps, rest).
Proof.
  induction s as [|c s IH]; simpl.
  - destruct (match_here p "") as [[caps' rest]|] eqn:Em; [|discriminate].
    intros H; injection H as _ <-. now exists "", "", rest.
  - destruct (match_here p (String c s)) as [[caps' rest]|] eqn:Em.
    + intros H; injection H as _ <-. now exists "", (String c s), rest.
    + intros H; destruct (IH H) as (pre & s' & rest & -> & Hm).
      now exists (String c pre), s', rest.
Qed.

(** A match of the "Files:" pattern: four tokens between its literals. *)
Lemma filesRe_sound (s a b c d rest : string) :
  match_here filesRe s = Some ([a; b; c; d], rest) ->
  token a = true /\ token b = true /\ token c = true /\ token d = true /\
  exists pre,
    s = pre +++ ": " +++ a +++ " total, " +++ b +++ " bytes; " +++ c
        +++ " new, " +++ d +++ " bytes" +++ rest.
Proof.
  unfold filesRe; intros H.
  apply match_here_star in H as (pre & v0 & -> & H).
  apply match_here_lit in H as (v1 & -> & H).
  apply match_here_plus in H as (a' & caps1 & v2 & E1 & Ha & -> & H).
  apply match_here_lit in H as (v3 & -> & H).
  apply match_here_plus in H as (b' & caps2 & v4 & E2 & Hb & -> & H).
  apply match_here_lit in H as (v5 & -> & H).
  apply match_here_plus in H as (c' & caps3 & v6 & E3 & Hc & -> & H).
  apply match_here_lit in H as (v7 & -> & H).
  apply match_here_plus in H as (d' & caps4 & v8 & E4 & Hd & -> & H).
  apply match_here_lit in H as (v9 & -> & H).
  simpl in H. injection H as <- <-. subst caps3 caps2 caps1.
  injection E1 as -> -> -> ->.
  repeat split; auto. now exists pre.
Qed.

(** On such a line the pattern captures the four tokens. *)
Lemma filesRe_filesLine (a b c d : string) :
  token a = true -> token b = true -> token c = true -> token d = true ->
  match_here filesRe (filesLine a b c d) = Some ([a; b; c; d], "").
Proof.
  intros Ha Hb Hc Hd.
  set (p := tl filesRe).
  assert (Hk : match_here p (": " +++ a +++ " total, " +++ b +++ " bytes; "
                             +++ c +++ " new, " +++ d +++ " bytes")
               = Some ([a; b; c; d], "")).
  { unfold p; simpl.
    rewrite (plus_token _ a _ ([b; c; d], "") Ha); [reflexivity | reflexivity |].
    simpl.
    rewrite (plus_token _ b _ ([c; d], "") Hb); [reflexivity | reflexivity |].
    simpl.
    rewrite (plus_token _ c _ ([d], "") Hc); [reflexivity | reflexivity |].
    simpl.
    rewrite (plus_token _ d _ ([], "") Hd); reflexivity. }
  assert (Hn : star (match_here p) (a +++ " total, " +++ b +++ " bytes; "
                             +++ c +++ " new, " +++ d +++ " bytes") = None).
  { destruct (star _ _) as [[caps rest]|] eqn:Es; [exfalso | reflexivity].
    change (match_here (AnyStar :: p) (a +++ " total, " +++ b +++ " bytes; "
              +++ c +++ " new, " +++ d +++ " bytes") = Some (caps, rest)) in Es.
    apply match_here_spaces in Es.
    rewrite !spaces_append, (token_spaces a), (token_spaces b),
      (token_spaces c), (token_spaces d) in Es by assumption.
    simpl in Es; lia. }
  change (star (match_here p) (filesLine a b c d) = Some ([a; b; c; d], "")).
  unfold filesLine.
  do 5 (apply star_keep; [reflexivity|]).
  change (": " +++ a +++ " total, " +++ b +++ " bytes; " +++ c +++ " new, "
          +++ d +++ " bytes")
    with (String ":" (String " " (a +++ " total, " +++ b +++ " bytes; "
          +++ c +++ " new, " +++ d +++ " bytes"))) in Hk.
  simpl String.append.
  rewrite star_skip; [exact Hk | reflexivity |].
  rewrite star_skip; [reflexivity | reflexivity | exact Hn].
Qed.

(* ===================================================================== *)
(** ** The line sinks                                                    *)
(* ===================================================================== *)

Ltac run_go :=
  unfold bind, ret, emit, logMessage, logError, ask, index, panic, logged;
  simpl.

(** [backupLogger] never panics: it logs, and leaves [observed] in the
    captured record. *)
Lemma backupLogger_observed (line : string) (entry : backupRevision) (w : world) :
  exists evs, backupLogger line entry w = Some (observed line entry, logged w evs)
              /\ steps evs = [].
Proof.
  unfold backupLogger, observed.
  destruct (HasPrefix line "Files:").
  { destruct (FindStringSubmatch_length filesRe line) as [H|H].
    - rewrite H; run_go; rewrite <- ?app_assoc; eexists; split; reflexivity.
    - destruct (FindStringSubmatch filesRe line)
        as [|e0 [|e1 [|e2 [|e3 [|e4 [|e5 l]]]]]]; try discriminate H.
      run_go; rewrite <- ?app_assoc; eexists; split; reflexivity. }
  destruct (HasPrefix line "All chunks:").
  { destruct (FindStringSubmatch_length chunksRe line) as [H|H].
    - rewrite H; run_go; rewrite <- ?app_assoc; eexists; split; reflexivity.
    - destruct (FindStringSubmatch chunksRe line)
        as [|e0 [|e1 [|e2 [|e3 [|e4 [|e5 [|e6 l]]]]]]]; try discriminate H.
      run_go; rewrite <- ?app_assoc; eexists; split; reflexivity. }
  destruct (HasPrefix line "Enter storage password:"
            || HasSuffix line "Authorization failure").
  - run_go; rewrite <- ?app_assoc; eexists; split; reflexivity.
  - run_go; eexists; split; reflexivity.
Qed.

Lemma copyLogger_observed (line : string) (entry : copyRevision) (w : world) :
  exists evs, copyLogger line entry w = Some (observedCopy line entry, logged w evs)
              /\ steps evs = [].
Proof.
  unfold copyLogger, observedCopy.
  destruct (HasPrefix line "Copy complete, ").
  - destruct (FindStringSubmatch_length copyRe line) as [H|H].
    + rewrite H; run_go; rewrite <- ?app_assoc; eexists; split; reflexivity.
    + destruct (FindStringSubmatch copyRe line)
        as [|e0 [|e1 [|e2 [|e3 [|e4 l]]]]]; try discriminate H.
      run_go; rewrite <- ?app_assoc; eexists; split; reflexivity.
  - run_go; eexists; split; reflexivity.
Qed.

Lemma observed_twice (line : string) (entry : backupRevision) :
  observed line (observed line entry) = observed line entry.
Proof.
  unfold observed.
  destruct (HasPrefix line "Files:").
  { destruct (FindStringSubmatch filesRe line)
      as [|e0 [|e1 [|e2 [|e3 [|e4 [|e5 l]]]]]]; reflexivity. }
  destruct (HasPrefix line "All chunks:"); [|reflexivity].
  destruct (FindStringSubmatch chunksRe line)
    as [|e0 [|e1 [|e2 [|e3 [|e4 [|e5 [|e6 l]]]]]]]; reflexivity.
Qed.

Lemma observedCopy_twice (line : string) (entry : copyRevision) :
  observedCopy line (observedCopy line entry) = observedCopy line entry.
Proof.
  unfold observedCopy.
  destruct (HasPrefix line "Copy complete, "); [|reflexivity].
  destruct (FindStringSubmatch copyRe line)
    as [|e0 [|e1 [|e2 [|e3 [|e4 l]]]]]; reflexivity.
Qed.

(** Whatever the line, the fields that the "Files:" case assigns are four
    tokens that stand in the line, between the literals of the pattern. *)
Lemma backupLogger_files_verbatim (line : string) (entry : backupRevision)
    (w : world) :
  HasPrefix line "Files:" = true ->
  exists entry' w',
    backupLogger line entry w = Some (entry', w') /\
    (entry' = entry \/
     exists pre a b c d rest,
       line = pre +++ ": " +++ a +++ " total, " +++ b +++ " bytes; " +++ c
              +++ " new, " +++ d +++ " bytes" +++ rest /\
       token a = true /\ token b = true /\ token c = true /\ token d = true /\
       entry' = setFiles entry a b c d).
Proof.
  intros Hp.
  destruct (backupLogger_observed line entry w) as (evs & Hrun & _).
  exists (observed line entry), (logged w evs); split; [exact Hrun|].
  unfold observed; rewrite Hp.
  destruct (FindStringSubmatch filesRe line)
    as [|e0 [|a [|b [|c [|d [|e5 l]]]]]] eqn:Ef; auto.
  right. apply FindStringSubmatch_sound in Ef as (pre0 & s' & rest & -> & Hm).
  apply filesRe_sound in Hm as (Ha & Hb & Hc & Hd & pre & ->).
  exists (pre0 +++ pre), a, b, c, d, rest.
  rewrite append_assoc. repeat split; auto.
Qed.

(** C4.  On a line [Files: <a> total, <b> bytes; <c> new, <d> bytes], where
    the four tokens are non-empty and free of white space, [backupLogger]
    returns normally; in the record it leaves, [filesTotalCount],
    [filesTotalSize], [filesNewCount] and [filesNewSize] are the four tokens
    as they stand in the line, and the seven other fields are those of the
    record it found. *)
Theorem backupLogger_files_line (a b c d : string) (entry : backupRevision)
    (w : world) :
  token a = true -> token b = true -> token c = true -> token d = true ->
  exists entry' w',
    backupLogger (filesLine a b c d) entry w = Some (entry', w') /\
    filesTotalCount entry' = a /\ filesTotalSize entry' = b /\
    filesNewCount entry' = c /\ filesNewSize entry' = d /\
    storage entry' = storage entry /\
    chunkTotalCount entry' = chunkTotalCount entry /\
    chunkTotalSize entry' = chunkTotalSize entry /\
    chunkNewCount entry' = chunkNewCount entry /\
    chunkNewSize entry' = chunkNewSize entry /\
    chunkNewUploaded entry' = chunkNewUploaded entry /\
    duration entry' = duration entry.
Proof.
  intros Ha Hb Hc Hd.
  destruct (backupLogger_observed (filesLine a b c d) entry w) as [evs [Hrun _]].
  exists (observed (filesLine a b c d) entry), (logged w evs).
  split; [exact Hrun|].
  unfold observed.
  replace (HasPrefix (filesLine a b c d) "Files:") with true by reflexivity.
  rewrite (FindStringSubmatch_here _ _ _ _ (filesRe_filesLine a b c d Ha Hb Hc Hd)).
  simpl; repeat split; reflexivity.
Qed.

Lemma backupLogger_files_line_witness :
  exists entry' w',
    backupLogger "Files: 161318 total, 1666G bytes; 373 new, 15,951M bytes"
      zeroBackupRevision {| backupTable := []; copyTable := []; trace := [] |}
    = Some (entry', w') /\
    filesTotalCount entry' = "161318" /\ filesTotalSize entry' = "1666G" /\
    filesNewCount entry' = "373" /\ filesNewSize entry' = "15,951M" /\
    storage entry' = "" /\ chunkTotalCount entry' = "" /\
    chunkTotalSize entry' = "" /\ chunkNewCount entry' = "" /\
    chunkNewSize entry' = "" /\ chunkNewUploaded entry' = "" /\
    duration entry' = "".
Proof.
  apply (backupLogger_files_line "161318" "1666G" "373" "15,951M"
           zeroBackupRevision); reflexivity.
Defined.

(** C7.  A line that starts with none of ["Files:"], ["All chunks:"],
    ["Enter storage password:"] and does not end with
    ["Authorization failure"] leaves the record of [backupLogger] as it
    was, and the only thing that happens is [logger.Println(line)]; the
    same holds for [copyLogger] and a line that does not start with its
    one prefix, ["Copy complete, "]. *)
Theorem unrecognized_line_only_logged (line : string) (w : world) :
  (forall entry : backupRevision,
     HasPrefix line "Files:" = false ->
     HasPrefix line "All chunks:" = false ->
     HasPrefix line "Enter storage password:" = false ->
     HasSuffix line "Authorization failure" = false ->
     backupLogger line entry w = Some (entry, logged w [Println line])) /\
  (forall entry : copyRevision,
     HasPrefix line "Copy complete, " = false ->
     copyLogger line entry w = Some (entry, logged w [Println line])).
Proof.
  split.
  - intros entry H1 H2 H3 H4; unfold backupLogger.
    rewrite H1, H2, H3, H4; reflexivity.
  - intros entry H1; unfold copyLogger; rewrite H1; reflexivity.
Qed.

Lemma unrecognized_line_only_logged_witness :
  let line := "Storage set to /mnt/backup" in
  let w := {| backupTable := []; copyTable := []; trace := [] |} in
  backupLogger line zeroBackupRevision w
    = Some (zeroBackupRevision, logged w [Println line]) /\
  copyLogger line zeroCopyRevision w
    = Some (zeroCopyRevision, logged w [Println line]).
Proof.
  intros line w.
  destruct (unrecognized_line_only_logged line w) as [Hb Hc].
  split; [apply Hb | apply Hc]; reflexivity.
Defined.

(** C8.  [backupLogger] returns normally on every line, and called again on
    the same line with the record it left, it leaves the same record; so
    does [copyLogger]. *)
Theorem observing_twice_is_observing_once (line : string) (w : world) :
  (forall entry : backupRevision, exists entry1 w1 w2,
     backupLogger line entry w = Some (entry1, w1) /\
     backupLogger line entry1 w1 = Some (entry1, w2)) /\
  (forall entry : copyRevision, exists entry1 w1 w2,
     copyLogger line entry w = Some (entry1, w1) /\
     copyLogger line entry1 w1 = Some (entry1, w2)).
Proof.
  split; intros entry.
  - destruct (backupLogger_observed line entry w) as [evs [H1 _]].
    destruct (backupLogger_observed line (observed line entry) (logged w evs))
      as [evs' [H2 _]].
    rewrite observed_twice in H2. eauto 6.
  - destruct (copyLogger_observed line entry w) as [evs [H1 _]].
    destruct (copyLogger_observed line (observedCopy line entry) (logged w evs))
      as [evs' [H2 _]].
    rewrite observedCopy_twice in H2. eauto 6.
Qed.

(* ===================================================================== *)
(** ** The operation runners                                             *)
(* ===================================================================== *)

Lemma steps_app (a b : list event) : steps (a ++ b) = steps a ++ steps b.
Proof. apply filter_app. Qed.

Lemma logged_logged (w : world) (a b : list event) :
  logged (logged w a) b = logged w (a ++ b).
Proof. unfold logged; simpl; now rewrite app_assoc. Qed.

Lemma logged_nil (w : world) : logged w [] = w.
Proof. destruct w; unfold logged; simpl; now rewrite app_nil_r. Qed.

Lemma bind_Some {A B} (m : M A) (f : A -> M B) (w w1 : world) (a : A) :
  m w = Some (a, w1) -> bind m f w = f a w1.
Proof. unfold bind; now intros ->. Qed.

Lemma emit_logged (e : event) (w : world) : emit e w = Some (tt, logged w [e]).
Proof. reflexivity. Qed.

(** The sinks never panic and never start a step of their own. *)
Lemma eachLine_backupLogger (out : list string) :
  forall (entry : backupRevision) (w : world),
  exists evs,
    eachLine backupLogger out entry w
    = Some (fold_left (fun e line => observed line e) out entry, logged w evs)
    /\ steps evs = [].
Proof.
  induction out as [|line out IH]; intros entry w; simpl.
  - exists []; now rewrite logged_nil.
  - destruct (backupLogger_observed line entry w) as (evs & Hrun & Hs).
    destruct (IH (observed line entry) (logged w evs)) as (evs' & Hrun' & Hs').
    exists (evs ++ evs'); split.
    + rewrite (bind_Some _ _ _ _ _ Hrun), Hrun'; now rewrite logged_logged.
    + now rewrite steps_app, Hs, Hs'.
Qed.

Lemma eachLine_copyLogger (out : list string) :
  forall (entry : copyRevision) (w : world),
  exists evs,
    eachLine copyLogger out entry w
    = Some (fold_left (fun e line => observedCopy line e) out entry, logged w evs)
    /\ steps evs = [].
Proof.
  induction out as [|line out IH]; intros entry w; simpl.
  - exists []; now rewrite logged_nil.
  - destruct (copyLogger_observed line entry w) as (evs & Hrun & Hs).
    destruct (IH (observedCopy line entry) (logged w evs)) as (evs' & Hrun' & Hs').
    exists (evs ++ evs'); split.
    + rewrite (bind_Some _ _ _ _ _ Hrun), Hrun'; now rewrite logged_logged.
    + now rewrite steps_app, Hs, Hs'.
Qed.

Lemma eachLine_anon (out : list string) (w : world) :
  exists evs, eachLine anon out tt w = Some (tt, logged w evs) /\ steps evs = [].
Proof.
  revert w; induction out as [|line out IH]; intros w; simpl.
  - exists []; now rewrite logged_nil.
  - destruct (IH (logged w [Println line])) as (evs' & Hrun' & Hs').
    exists (Println line :: evs'); split; [|exact Hs'].
    unfold anon at 1.
    rewrite (bind_Some _ _ _ _ _ (emit_logged _ w)), Hrun'.
    now rewrite logged_logged.
Qed.

Lemma testCmdArgs_ok (suffix : string) (i : nat) (testArgs : list string) :
  testArgsOK testArgs = true ->
  testCmdArgs suffix i testArgs = ret (testHeader suffix i testArgs).
Proof.
  destruct testArgs as [|a0 [|a1 rest]]; simpl; try reflexivity.
  - destruct (String.eqb a0 "testbackup"); [discriminate | reflexivity].
  - destruct (String.eqb a0 "testbackup"); reflexivity.
Qed.

Section RunnerSteps.

Variable E : env.

(** A process invocation, whatever the sink: the event, then log output. *)
Lemma callExecutor_run {St} (sink : string -> St -> M St)
    (final : list string -> St -> St) (cmdArgs : list string) (s : St) (w : world) :
  (forall out s w, exists evs,
      eachLine sink out s w = Some (final out s, logged w evs) /\ steps evs = []) ->
  exists out res evs,
    callExecutor E cmdArgs sink s w
    = Some ((res, final out s),
            logged w (Executor (duplicacyPath E) cmdArgs (RepoDir (configFile E))
                        out res :: evs))
    /\ steps evs = [].
Proof.
  intros Hsink. unfold callExecutor, ask.
  destruct (executor E (trace w) (duplicacyPath E) cmdArgs (RepoDir (configFile E)))
    as [out res] eqn:Ex.
  destruct (Hsink out s (logged w [Executor (duplicacyPath E) cmdArgs
                                     (RepoDir (configFile E)) out res]))
    as (evs & Hrun & Hs).
  exists out, res, evs; split; [|exact Hs].
  unfold bind at 1, ret; simpl. rewrite Ex; simpl.
  rewrite (bind_Some _ _ _ _ _ (emit_logged _ w)).
  rewrite (bind_Some _ _ _ _ _ Hrun).
  now rewrite logged_logged.
Qed.

End RunnerSteps.

Local Arguments String.append : simpl never.

Section RunnerBodies.

Variable E : env.

Lemma backupCmdArgs_head (hdr : list string) (bi : BackupInfo.t) :
  exists a0 rest, backupCmdArgs hdr bi = a0 :: rest.
Proof.
  unfold backupCmdArgs.
  destruct hdr as [|h hdr]; destruct (BackupInfo.Vss bi);
    destruct (negb (String.eqb (BackupInfo.VssTimeout bi) ""));
    destruct (negb (String.eqb (BackupInfo.Quote bi) ""));
    simpl; eauto.
Qed.

Lemma copyCmdArgs_head (hdr : list string) (ci : CopyInfo.t) :
  exists a0 rest, copyCmdArgs hdr ci = a0 :: rest.
Proof.
  unfold copyCmdArgs.
  destruct hdr as [|h hdr];
    destruct (negb (String.eqb (CopyInfo.Quote ci) "")); simpl; eauto.
Qed.

Lemma testDuration_run (cmdArgs : list string) (d : string) (w : world) :
  (exists a0 rest, cmdArgs = a0 :: rest) ->
  exists d', testDuration cmdArgs d w = Some (d', w).
Proof.
  intros (a0 & rest & ->). unfold testDuration; run_go. eauto.
Qed.

Ltac open_body :=
  unfold bind, ret, emit, ask, logMessage, logError, logExecuting,
    appendBackupTable, appendCopyTable;
  destruct (debugFlag E); simpl.

Ltac close_body Hs :=
  eexists; eexists; eexists; split; [reflexivity|];
  split; [simpl; rewrite <- ?app_assoc; reflexivity|];
  split; [rewrite ?steps_app; simpl; rewrite Hs; reflexivity|].

(** One turn of the backup loop: log output around one invocation; on
    failure the error is handed back and the table is left alone, on success
    the captured record, stamped with the name of the target, is appended
    to the table and carried into the next turn. *)
Lemma backupStep_run (testArgs : list string) (i : nat) (bi : BackupInfo.t)
    (entry : backupRevision) (w : world) :
  testArgsOK testArgs = true ->
  exists out res t r w',
    backupStep E testArgs i bi entry w = Some (r, w') /\
    trace w' = trace w ++ t /\
    steps t = [Executor (duplicacyPath E) (backupArgsOf testArgs i bi)
                 (RepoDir (configFile E)) out res] /\
    copyTable w' = copyTable w /\
    match res with
    | Some e => r = inl e /\ backupTable w' = backupTable w
    | None =>
        exists d,
          let entry' :=
            setStorageDuration (fold_left (fun e line => observed line e) out entry)
              (BackupInfo.Name bi) d in
          r = inr entry' /\ backupTable w' = backupTable w ++ [entry']
    end.
Proof.
  intros Hok. unfold backupStep, backupArgsOf. rewrite (testCmdArgs_ok _ _ _ Hok).
  open_body.
  all: match goal with
       | |- context [callExecutor E ?a backupLogger ?s ?W] =>
           destruct (callExecutor_run E backupLogger
                       (fold_left (fun e line => observed line e)) a s W
                       eachLine_backupLogger)
             as (out & res & evs & Hcall & Hs)
       end.
  all: exists out, res; rewrite Hcall; simpl.
  all: destruct res as [e|]; simpl.
  all: try match goal with
       | |- context [testDuration ?a ?d ?W] =>
           destruct (testDuration_run a d W (backupCmdArgs_head _ _)) as [d' Hd];
           rewrite Hd; simpl
       end.
  all: close_body Hs.
  all: split; [reflexivity|].
  all: try (split; reflexivity).
  all: eexists; split; reflexivity.
Qed.

Lemma backupStep_invokes (testArgs : list string) (i : nat) (bi : BackupInfo.t)
    (entry : backupRevision) :
  testArgsOK testArgs = true ->
  invokes E (backupArgsOf testArgs i bi) (backupStep E testArgs i bi entry).
Proof.
  intros Hok w.
  destruct (backupStep_run testArgs i bi entry w Hok)
    as (out & res & t & r & w' & Hrun & Ht & Hs & _ & Hres).
  exists out, res, t, r, w'; repeat split; try assumption.
  destruct res as [e|].
  - now destruct Hres as [-> _].
  - now destruct Hres as (d & -> & _).
Qed.

Lemma copyStep_invokes (testArgs : list string) (i : nat) (ci : CopyInfo.t)
    (entry : copyRevision) :
  testArgsOK testArgs = true ->
  invokes E (copyArgsOf testArgs i ci) (copyStep E testArgs i ci entry).
Proof.
  intros Hok w. unfold copyStep, copyArgsOf. rewrite (testCmdArgs_ok _ _ _ Hok).
  open_body.
  all: match goal with
       | |- context [callExecutor E ?a copyLogger ?s ?W] =>
           destruct (callExecutor_run E copyLogger
                       (fold_left (fun e line => observedCopy line e)) a s W
                       eachLine_copyLogger)
             as (out & res & evs & Hcall & Hs)
       end.
  all: exists out, res; rewrite Hcall; simpl.
  all: destruct res as [e|]; simpl.
  all: try match goal with
       | |- context [testDuration ?a ?d ?W] =>
           destruct (testDuration_run a d W (copyCmdArgs_head _ _)) as [d' Hd];
           rewrite Hd; simpl
       end.
  all: close_body Hs.
  all: reflexivity.
Qed.

Lemma pruneStep_invokes (testArgs : list string) (i : nat) (pi : PruneInfo.t)
    (u : unit) :
  testArgsOK testArgs = true ->
  invokes E (pruneArgsOf testArgs i pi) (pruneStep E testArgs i pi u).
Proof.
  intros Hok w. unfold pruneStep, pruneArgsOf. rewrite (testCmdArgs_ok _ _ _ Hok).
  open_body.
  all: match goal with
       | |- context [callExecutor E ?a anon ?s ?W] =>
           destruct (callExecutor_run E anon (fun _ _ => tt) a s W)
             as (out & res & evs & Hcall & Hs);
           [intros o [] W'; apply eachLine_anon|]
       end.
  all: exists out, res; rewrite Hcall; simpl.
  all: destruct res as [e|]; simpl.
  all: close_body Hs.
  all: reflexivity.
Qed.

Lemma checkStep_invokes (testArgs : list string) (i : nat) (ci : CheckInfo.t)
    (u : unit) :
  testArgsOK testArgs = true ->
  invokes E (checkArgsOf testArgs i ci) (checkStep E testArgs i ci u).
Proof.
  intros Hok w. unfold checkStep, checkArgsOf. rewrite (testCmdArgs_ok _ _ _ Hok).
  open_body.
  all: match goal with
       | |- context [callExecutor E ?a anon ?s ?W] =>
           destruct (callExecutor_run E anon (fun _ _ => tt) a s W)
             as (out & res & evs & Hcall & Hs);
           [intros o [] W'; apply eachLine_anon|]
       end.
  all: exists out, res; rewrite Hcall; simpl.
  all: destruct res as [e|]; simpl.
  all: close_body Hs.
  all: reflexivity.
Qed.

End RunnerBodies.

(* ===================================================================== *)
(** ** The loops                                                         *)
(* ===================================================================== *)

Lemma follows_app (pl1 pl2 : list stage) (ss1 ss2 : list event) (r : option error) :
  follows pl1 ss1 None -> follows pl2 ss2 r -> follows (pl1 ++ pl2) (ss1 ++ ss2) r.
Proof.
  intros H1; remember None as r0 eqn:Er0; revert Er0.
  induction H1 as [|st pl ev ss r0 Hst Hf H1 IH|]; intros Er0 H2;
    [exact H2 | | discriminate].
  simpl; apply follows_ok; auto.
Qed.

Lemma follows_stop (pl1 pl2 : list stage) (ss : list event) (e : error) :
  follows pl1 ss (Some e) -> follows (pl1 ++ pl2) ss (Some e).
Proof.
  intros H1; remember (Some e) as r0 eqn:Er0; revert Er0.
  induction H1 as [|st pl ev ss r0 Hst Hf H1 IH|st pl ev e' Hst Hf]; intros Er0.
  - discriminate.
  - simpl; apply follows_ok; auto.
  - simpl; injection Er0 as ->; now apply follows_fail.
Qed.

Section ForRange.

Context {T St : Type}.
Variable E : env.
Variable body : nat -> T -> St -> M (error + St).
Variable argsOf : nat -> T -> list string.
Variable st : stage.

Hypothesis body_invokes : forall i x s, invokes E (argsOf i x) (body i x s).
Hypothesis body_stage : forall i x out res,
  stage_of (Executor (duplicacyPath E) (argsOf i x) (RepoDir (configFile E)) out res)
  = Some st.

(** A loop over the targets: it returns; its steps are invocations with the
    planned arguments, one target after the other, up to the first one that
    fails, whose error is the result. *)
Lemma forRange_run (xs : list T) :
  forall (i : nat) (s : St) (w : world),
  exists r w' t,
    forRange body i xs s w = Some (r, w') /\
    trace w' = trace w ++ t /\
    Forall2 (invocation_of E) (steps t)
      (firstn (List.length (steps t)) (plannedArgs argsOf i xs)) /\
    follows (repeat st (List.length xs)) (steps t) r.
Proof.
  induction xs as [|x xs IH]; intros i s w; simpl.
  - exists None, w, []; rewrite app_nil_r; repeat split; constructor.
  - destruct (body_invokes i x s w)
      as (out & res & t1 & r1 & w1 & Hrun & Ht & Hs & Hres).
    rewrite (bind_Some _ _ _ _ _ Hrun).
    destruct r1 as [e|s1].
    + subst res. exists (Some e), w1, t1; unfold ret; repeat split; auto.
      * rewrite Hs; simpl; constructor; [|constructor]. now exists out, (Some e).
      * rewrite Hs; apply follows_fail; [apply body_stage | reflexivity].
    + subst res. destruct (IH (S i) s1 w1) as (r & w' & t2 & Hrun2 & Ht2 & Hf2 & Hfo).
      exists r, w', (t1 ++ t2); repeat split; auto.
      * rewrite Ht2, Ht; now rewrite app_assoc.
      * rewrite steps_app, Hs; simpl; constructor; [|exact Hf2].
        now exists out, None.
      * rewrite steps_app, Hs; simpl.
        apply follows_ok; [apply body_stage | reflexivity | exact Hfo].
Qed.

End ForRange.

Section BackupLoop.

Variable E : env.
Variable testArgs : list string.
Hypothesis testArgs_ok : testArgsOK testArgs = true.

(** The backup loop: besides what every loop does, each target whose
    invocation succeeded has left one record in [backupTable], under its
    name and in the order of the targets; the invocations before the last
    all succeeded, and the last one failed exactly when the loop returns
    an error, which is then the error of that invocation. *)
Lemma backupLoop_run (targets : list BackupInfo.t) :
  forall (i : nat) (entry : backupRevision) (w : world),
  exists r w' t new,
    forRange (backupStep E testArgs) i targets entry w = Some (r, w') /\
    trace w' = trace w ++ t /\
    backupTable w' = backupTable w ++ new /\
    copyTable w' = copyTable w /\
    map storage new = map BackupInfo.Name (firstn (List.length new) targets) /\
    map snd (invocations t) = repeat None (List.length new) ++ failed r /\
    map fst (invocations t)
    = firstn (List.length (invocations t)) (plannedArgs (backupArgsOf testArgs) i targets) /\
    match r with
    | None => List.length new = List.length targets
    | Some _ => List.length new < List.length targets
    end.
Proof.
  induction targets as [|bi targets IH]; intros i entry w; simpl.
  - exists None, w, [], []; rewrite !app_nil_r; repeat split.
  - destruct (backupStep_run E testArgs i bi entry w testArgs_ok)
      as (out & res & t1 & r1 & w1 & Hrun & Ht & Hs & Hc & Hres).
    rewrite (bind_Some _ _ _ _ _ Hrun).
    assert (Hinv : invocations t1 = [(backupArgsOf testArgs i bi, res)]).
    { clear - Hs. revert Hs. generalize (backupArgsOf testArgs i bi) as a.
      intros a. induction t1 as [|ev t1 IH1]; simpl; [discriminate|].
      destruct ev; simpl; auto.
      - discriminate.
      - discriminate.
      - discriminate.
      - intros H; injection H as -> -> -> -> -> Ht1.
        f_equal. clear - Ht1. induction t1 as [|ev t1 IH1]; [reflexivity|].
        simpl in Ht1. destruct ev; simpl in *; auto; discriminate.
      - discriminate. }
    destruct res as [e|].
    + destruct Hres as [-> Hb].
      exists (Some e), w1, t1, []; unfold ret; rewrite app_nil_r, Hinv; simpl.
      repeat split; auto. lia.
    + destruct Hres as (d & -> & Hb).
      match type of Hb with _ = _ ++ [?x] => set (entry' := x) in * end.
      destruct (IH (S i) entry' w1)
        as (r & w' & t2 & new & Hrun2 & Ht2 & Hb2 & Hc2 & Hst & Hres2 & Hargs & Hn).
      exists r, w', (t1 ++ t2), (entry' :: new).
      assert (Happ : invocations (t1 ++ t2) = invocations t1 ++ invocations t2).
      { clear. induction t1 as [|ev t1 IH1]; [reflexivity|].
        destruct ev; simpl; auto. now rewrite IH1. }
      rewrite Happ, Hinv; simpl.
      repeat split; auto.
      * rewrite Ht2, Ht; now rewrite app_assoc.
      * rewrite Hb2, Hb; now rewrite <- app_assoc.
      * congruence.
      * now rewrite Hst.
      * now rewrite Hres2.
      * now rewrite Hargs at 1.
      * destruct r; lia.
Qed.

End BackupLoop.

(* ===================================================================== *)
(** ** [performDuplicacyBackup]                                          *)
(* ===================================================================== *)

Lemma nth_error_repeat_failed (n k : nat) (r : option error) (e : error) :
  nth_error (repeat None n ++ failed r) k = Some (Some e) -> k = n /\ r = Some e.
Proof.
  revert k; induction n as [|n IH]; intros k; simpl.
  - destruct r as [e'|]; destruct k as [|k]; simpl; try discriminate.
    + intros H; injection H as ->; auto.
    + destruct k; discriminate.
  - destruct k as [|k]; simpl; [discriminate|].
    intros H; apply IH in H as [-> ->]; auto.
Qed.

(** C2.  When the test arguments do not make the loop header panic,
    [performDuplicacyBackup] returns, having appended some records to
    [backupTable]; if every invocation of the run succeeded, it returns
    [nil] and the records appended are as many as the configured targets
    and carry their names, in the order of the configuration. *)
Theorem performDuplicacyBackup_all_succeed (E : env) (testArgs : list string)
    (w : world) :
  testArgsOK testArgs = true ->
  exists r w' t new,
    performDuplicacyBackup E testArgs w = Some (r, w') /\
    trace w' = trace w ++ t /\
    backupTable w' = backupTable w ++ new /\
    (Forall (fun inv => snd inv = None) (invocations t) ->
     r = None /\
     List.length new = List.length (BackupInfo (configFile E)) /\
     map storage new = map BackupInfo.Name (BackupInfo (configFile E))).
Proof.
  intros Hok. unfold performDuplicacyBackup.
  destruct (backupLoop_run E testArgs Hok (BackupInfo (configFile E)) 0
              zeroBackupRevision w)
    as (r & w' & t & new & Hrun & Ht & Hb & _ & Hst & Hres & _ & Hn).
  exists r, w', t, new.
  split; [exact Hrun|]. split; [exact Ht|]. split; [exact Hb|].
  intros Hall.
  assert (Hr : r = None).
  { destruct r as [e|]; [exfalso | reflexivity].
    assert (Hin : In (Some e) (map snd (invocations t)))
      by (rewrite Hres; apply in_or_app; right; now left).
    apply in_map_iff in Hin as (inv & Hinv & Hin).
    rewrite Forall_forall in Hall; apply Hall in Hin; congruence. }
  subst r. split; [reflexivity|]. split; [exact Hn|].
  now rewrite Hst, Hn, firstn_all.
Qed.

Lemma performDuplicacyBackup_all_succeed_witness :
  exists w',
    performDuplicacyBackup (sampleEnv quietTool) [] emptyWorld = Some (None, w') /\
    map storage (backupTable w') = ["primary"; "secondary"].
Proof.
  destruct (performDuplicacyBackup_all_succeed (sampleEnv quietTool) []
              emptyWorld eq_refl)
    as (r & w' & t & new & Hrun & Ht & Hb & Hall).
  assert (Hrun' := Hrun). vm_compute in Hrun'.
  injection Hrun' as Hr Hw. subst w'. simpl in Ht, Hb. subst t new.
  destruct Hall as (-> & _ & Hnames); [repeat constructor|].
  eexists; split; [exact Hrun | exact Hnames].
Defined.

(* ===================================================================== *)
(** ** [performBackup]                                                   *)
(* ===================================================================== *)

Lemma bind_emit {B} (e : event) (k : unit -> M B) (w : world) :
  bind (emit e) k w = k tt (logged w [e]).
Proof. reflexivity. Qed.

Lemma bind_ask {A B} (f : list event -> A) (k : A -> M B) (w : world) :
  bind (ask f) k w = k (f (trace w)) w.
Proof. reflexivity. Qed.

Lemma runs_whenRequested (requested : bool) (op : list string -> M (option error))
    (next : M (option error)) (pl1 pl2 : list stage) :
  runs (op []) pl1 -> runs next pl2 ->
  runs (whenRequested requested op next) ((if requested then pl1 else []) ++ pl2).
Proof.
  intros Hop Hnext w. unfold whenRequested. destruct requested; [|apply Hnext].
  destruct (Hop w) as (r1 & w1 & t1 & Hrun1 & Ht1 & Hf1).
  rewrite (bind_Some _ _ _ _ _ Hrun1).
  destruct r1 as [e|].
  - exists (Some e), w1, t1; repeat split; auto. now apply follows_stop.
  - destruct (Hnext w1) as (r & w' & t2 & Hrun2 & Ht2 & Hf2).
    exists r, w', (t1 ++ t2); repeat split; auto.
    + rewrite Ht2, Ht1; now rewrite app_assoc.
    + rewrite steps_app; now apply follows_app.
Qed.

Section Orchestrator.

Variable E : env.

Lemma runs_performDuplicacyBackup :
  runs (performDuplicacyBackup E [])
       (repeat RunBackup (List.length (BackupInfo (configFile E)))).
Proof.
  intros w. unfold performDuplicacyBackup.
  destruct (forRange_run E (backupStep E []) (backupArgsOf []) RunBackup
              (fun i x s => backupStep_invokes E [] i x s eq_refl))
    with (xs := BackupInfo (configFile E)) (i := 0) (s := zeroBackupRevision)
         (w := w) as (r & w' & t & Hrun & Ht & _ & Hf); [|eauto 6].
  intros i bi out res. unfold backupArgsOf, backupCmdArgs.
  destruct (BackupInfo.Vss bi);
    destruct (negb (String.eqb (BackupInfo.VssTimeout bi) ""));
    destruct (negb (String.eqb (BackupInfo.Quote bi) "")); reflexivity.
Qed.

Lemma runs_performDuplicacyCopy :
  runs (performDuplicacyCopy E [])
       (repeat RunCopy (List.length (CopyInfo (configFile E)))).
Proof.
  intros w. unfold performDuplicacyCopy.
  destruct (forRange_run E (copyStep E []) (copyArgsOf []) RunCopy
              (fun i x s => copyStep_invokes E [] i x s eq_refl))
    with (xs := CopyInfo (configFile E)) (i := 0) (s := zeroCopyRevision)
         (w := w) as (r & w' & t & Hrun & Ht & _ & Hf); [|eauto 6].
  intros i ci out res. unfold copyArgsOf, copyCmdArgs.
  destruct (negb (String.eqb (CopyInfo.Quote ci) "")); reflexivity.
Qed.

Lemma runs_performDuplicacyPrune :
  runs (performDuplicacyPrune E [])
       (repeat RunPrune (List.length (PruneInfo (configFile E)))).
Proof.
  intros w. unfold performDuplicacyPrune.
  destruct (forRange_run E (pruneStep E []) (pruneArgsOf []) RunPrune
              (fun i x s => pruneStep_invokes E [] i x s eq_refl))
    with (xs := PruneInfo (configFile E)) (i := 0) (s := tt)
         (w := w) as (r & w' & t & Hrun & Ht & _ & Hf); [|eauto 6].
  intros i pi out res. unfold pruneArgsOf, pruneCmdArgs.
  destruct (PruneInfo.All pi);
    destruct (negb (String.eqb (PruneInfo.Quote pi) "")); reflexivity.
Qed.

Lemma runs_performDuplicacyCheck :
  runs (performDuplicacyCheck E [])
       (repeat RunCheck (List.length (CheckInfo (configFile E)))).
Proof.
  intros w. unfold performDuplicacyCheck.
  destruct (forRange_run E (checkStep E []) (checkArgsOf []) RunCheck
              (fun i x s => checkStep_invokes E [] i x s eq_refl))
    with (xs := CheckInfo (configFile E)) (i := 0) (s := tt)
         (w := w) as (r & w' & t & Hrun & Ht & _ & Hf); [|eauto 6].
  intros i ci out res. unfold checkArgsOf, checkCmdArgs.
  destruct (CheckInfo.All ci);
    destruct (negb (String.eqb (CheckInfo.Quote ci) "")); reflexivity.
Qed.

(** [performBackup] returns, and its steps follow the plan. *)
Lemma performBackup_runs : runs (performBackup E) (plan E).
Proof.
  intros w. unfold performBackup, plan.
  rewrite bind_emit, bind_ask, bind_emit.
  destruct (rotateLogFiles E _) as [e|].
  { eexists; eexists; eexists; split; [reflexivity|].
    split; [simpl; rewrite <- ?app_assoc; reflexivity|].
    now apply follows_fail. }
  rewrite bind_ask, bind_emit.
  destruct (osCreate E _) as [e|].
  { rewrite bind_emit.
    eexists; eexists; eexists; split; [reflexivity|].
    split; [simpl; rewrite <- ?app_assoc; reflexivity|].
    apply follows_ok; [reflexivity | reflexivity |].
    now apply follows_fail. }
  rewrite bind_ask. unfold logMessage. rewrite !bind_emit.
  match goal with
  | |- context [whenRequested _ _ _ ?W] => set (w0 := W)
  end.
  match goal with
  | |- context [whenRequested ?b ?op ?next w0] =>
      assert (Hchain : runs (whenRequested b op next)
                (skipn 3 (plan E)))
  end.
  { unfold plan; simpl skipn.
    apply runs_whenRequested; [apply runs_performDuplicacyBackup|].
    apply runs_whenRequested; [apply runs_performDuplicacyCopy|].
    apply runs_whenRequested; [apply runs_performDuplicacyPrune|].
    apply runs_whenRequested; [apply runs_performDuplicacyCheck|].
    intros w1. rewrite bind_emit, bind_ask, bind_emit.
    unfold bind at 1, ask at 1.
    rewrite bind_emit. unfold ret, logged; simpl.
    destruct (notifyOfSuccess E _ _ _) as [e|].
    - eexists; eexists; eexists; split; [reflexivity|].
      split; [simpl; rewrite <- ?app_assoc; reflexivity|].
      now apply follows_fail.
    - eexists; eexists; eexists; split; [reflexivity|].
      split; [simpl; rewrite <- ?app_assoc; reflexivity|].
      apply follows_ok; [reflexivity | reflexivity | constructor]. }
  destruct (Hchain w0) as (r & w' & t & Hrun & Ht & Hf).
  eexists; eexists; eexists; split; [exact Hrun|].
  split; [rewrite Ht; unfold w0; simpl; rewrite <- ?app_assoc; reflexivity|].
  simpl; rewrite ?steps_app.
  repeat (apply follows_ok; [reflexivity | reflexivity |]).
  exact Hf.
Qed.

End Orchestrator.

(** *** What [follows] says *)

Lemma log_no_failure (ev : event) : is_log ev = true -> failure ev = None.
Proof. destruct ev; simpl; congruence. Qed.

(** The stages gone through are a prefix of the plan. *)
Lemma follows_prefix (pl : list stage) (ss : list event) (r : option error) :
  follows pl ss r -> exists rest, map stage_of ss ++ map Some rest = map Some pl.
Proof.
  induction 1 as [|st pl ev ss r Hst Hf H IH|st pl ev e Hst Hf].
  - now exists [].
  - destruct IH as [rest IH]; exists rest; simpl; now rewrite Hst, IH.
  - exists pl; simpl; now rewrite Hst.
Qed.

(** A run that returns an error ends with the step that failed with it. *)
Lemma follows_error_last (pl : list stage) (ss : list event) (e : error) :
  follows pl ss (Some e) ->
  exists ss0 ev, ss = ss0 ++ [ev] /\ Forall succeeded ss0 /\ failure ev = Some e.
Proof.
  intros H; remember (Some e) as r eqn:Er; revert Er.
  induction H as [|st pl ev ss r Hst Hf H IH|st pl ev e' Hst Hf]; intros Er.
  - discriminate.
  - destruct (IH Er) as (ss0 & ev' & -> & Hall & Hfail).
    exists (ev :: ss0), ev'; repeat split; auto.
  - injection Er as ->. exists [], ev; repeat split; auto.
Qed.

(** A run that returns [nil] went through the whole plan without failure. *)
Lemma follows_nil (pl : list stage) (ss : list event) :
  follows pl ss None -> map stage_of ss = map Some pl /\ Forall succeeded ss.
Proof.
  intros H; remember None as r eqn:Er; revert Er.
  induction H as [|st pl ev ss r Hst Hf H IH|]; intros Er.
  - split; constructor.
  - destruct (IH Er) as [Hm Hall]; split; [simpl; congruence | now constructor].
  - discriminate.
Qed.

(** Nothing comes after a step that failed, and its error is the result. *)
Lemma follows_failure_is_last (pl : list stage) (ss : list event) (r : option error) :
  follows pl ss r ->
  forall ss1 ev ss2 e,
    ss = ss1 ++ ev :: ss2 -> failure ev = Some e -> ss2 = [] /\ r = Some e.
Proof.
  induction 1 as [|st pl ev0 ss r Hst Hf H IH|st pl ev0 e0 Hst Hf];
    intros ss1 ev ss2 e Hss Hfail.
  - now destruct ss1.
  - destruct ss1 as [|a ss1]; simpl in Hss; injection Hss as -> Hss.
    + congruence.
    + eauto.
  - destruct ss1 as [|a ss1]; simpl in Hss; injection Hss as -> Hss.
    + subst ss2; split; congruence.
    + now destruct ss1.
Qed.

(** A step of the last stage of a plan, when no other stage of the plan is
    that stage, comes after every other stage was gone through without
    failure. *)
Lemma follows_last_stage (st : stage) (pl0 : list stage) :
  ~ In st pl0 ->
  forall ss r ev,
    follows (pl0 ++ [st]) ss r -> In ev ss -> stage_of ev = Some st ->
    exists ss0,
      ss = ss0 ++ [ev] /\ Forall succeeded ss0 /\ map stage_of ss0 = map Some pl0.
Proof.
  induction pl0 as [|st0 pl0 IH]; intros Hnot ss r ev Hf Hin Hst; simpl in Hf.
  - exists []. inversion Hf as [|? ? ev' ss' ? ? ? Hf'|]; subst.
    + inversion Hf'; subst. destruct Hin as [->|[]]. repeat split; constructor.
    + destruct Hin as [->|[]]. repeat split; constructor.
  - assert (Hne : st0 <> st) by (intros ->; apply Hnot; now left).
    assert (Hnot' : ~ In st pl0) by (intros H; apply Hnot; now right).
    inversion Hf as [|? ? ev' ss' ? Hst' Hok Hf'|? ? ev' ? Hst' Hfail]; subst.
    + destruct Hin as [->|Hin]; [congruence|].
      destruct (IH Hnot' ss' r ev Hf' Hin Hst) as (ss0 & -> & Hall & Hm).
      exists (ev' :: ss0); repeat split; [now constructor | simpl; congruence].
    + destruct Hin as [->|[]]; congruence.
Qed.

Lemma plan_ends_with_notification (E : env) :
  exists pl0, plan E = pl0 ++ [NotifySuccess] /\ ~ In NotifySuccess pl0.
Proof.
  unfold plan.
  match goal with
  | |- context [?a ++ ?b ++ ?c ++ ?d ++ ?e ++ [NotifySuccess]] =>
      exists (a ++ b ++ c ++ d ++ e)
  end.
  split; [now rewrite <- !app_assoc|].
  rewrite !in_app_iff; simpl.
  destruct (cmdBackup E), (cmdCopy E), (cmdPrune E), (cmdCheck E); simpl.
  all: intros H; repeat destruct H as [H|H]; try discriminate H; try exact H.
  all: try (apply repeat_spec in H; discriminate H).
Qed.

(** C6.  [performBackup] returns, whatever the collaborators answer, and
    its steps follow the plan: log rotation, creation of the log file,
    start notification, one invocation per backup target if backup was
    requested, then likewise copy, prune and check, then the success
    notification.  Hence the stages gone through are a prefix of the plan,
    in which an operation that was not requested does not occur; when the
    run returns an error, the step that failed with this error is the last
    step of the run and every step before it succeeded; and the success
    notification is sent exactly when every other stage of the plan was
    gone through without failure. *)
Theorem performBackup_follows_plan (E : env) (w : world) :
  exists r w' t,
    performBackup E w = Some (r, w') /\
    trace w' = trace w ++ t /\
    follows (plan E) (steps t) r /\
    (exists rest, map stage_of (steps t) ++ map Some rest = map Some (plan E)) /\
    (forall e, r = Some e ->
       exists ss0 ev,
         steps t = ss0 ++ [ev] /\ Forall succeeded ss0 /\ failure ev = Some e) /\
    ((exists res, In (NotifyOfSuccess res) t) <->
     (exists ss0 res,
        steps t = ss0 ++ [NotifyOfSuccess res] /\
        Forall succeeded ss0 /\
        map stage_of ss0 ++ [Some NotifySuccess] = map Some (plan E))).
Proof.
  destruct (performBackup_runs E w) as (r & w' & t & Hrun & Ht & Hf).
  exists r, w', t.
  split; [exact Hrun|]. split; [exact Ht|]. split; [exact Hf|].
  split; [eapply follows_prefix; eauto|].
  split; [intros e ->; eapply follows_error_last; eauto|].
  split.
  - intros [res Hin].
    destruct (plan_ends_with_notification E) as (pl0 & Hpl & Hnot).
    assert (Hin' : In (NotifyOfSuccess res) (steps t))
      by (apply filter_In; split; [exact Hin | reflexivity]).
    rewrite Hpl in Hf.
    destruct (follows_last_stage _ _ Hnot _ _ _ Hf Hin' eq_refl)
      as (ss0 & Hss & Hall & Hm).
    exists ss0, res; repeat split; auto.
    now rewrite Hm, Hpl, map_app.
  - intros (ss0 & res & Hss & _). exists res.
    assert (Hin : In (NotifyOfSuccess res) (steps t))
      by (rewrite Hss; apply in_or_app; right; now left).
    now apply filter_In in Hin as [Hin _].
Qed.
(** C1, in [performDuplicacyBackup] and in [performBackup].
    (a) [performDuplicacyBackup] returns (the test arguments permitting);
    if its invocation number [k+1] failed with the error [e], then it
    returns [e], it has appended exactly [k] records to [backupTable], the
    failed invocation is the one planned for target [k+1], and there are
    [k+1] invocations in all: none for a later target.
    (b) [performBackup] returns; if a backup invocation of the run failed
    with [e], then [performBackup] returns [e] and all that happens after
    that invocation is log output: no invocation for a later target or for
    copy, prune or check, and no notification. *)
Theorem backup_invocation_failure (E : env) (w : world) :
  (forall testArgs, testArgsOK testArgs = true ->
   exists r w' t new,
     performDuplicacyBackup E testArgs w = Some (r, w') /\
     trace w' = trace w ++ t /\
     backupTable w' = backupTable w ++ new /\
     forall k args e,
       nth_error (invocations t) k = Some (args, Some e) ->
       r = Some e /\
       List.length new = k /\
       nth_error (plannedArgs (backupArgsOf testArgs) 0 (BackupInfo (configFile E))) k
       = Some args /\
       List.length (invocations t) = S k) /\
  (exists r w' t,
     performBackup E w = Some (r, w') /\
     trace w' = trace w ++ t /\
     forall t1 ev t2 e,
       t = t1 ++ ev :: t2 ->
       stage_of ev = Some RunBackup -> failure ev = Some e ->
       r = Some e /\ steps t2 = []).
Proof.
  split.
  - intros testArgs Hok. unfold performDuplicacyBackup.
    destruct (backupLoop_run E testArgs Hok (BackupInfo (configFile E)) 0
                zeroBackupRevision w)
      as (r & w' & t & new & Hrun & Ht & Hb & _ & _ & Hres & Hargs & _).
    exists r, w', t, new.
    split; [exact Hrun|]. split; [exact Ht|]. split; [exact Hb|].
    intros k args e Hk.
    assert (Hk2 := map_nth_error snd _ _ Hk). simpl in Hk2.
    rewrite Hres in Hk2. apply nth_error_repeat_failed in Hk2 as [-> ->].
    assert (Hlen : List.length (invocations t) = S (List.length new)).
    { rewrite <- (length_map snd), Hres, length_app, repeat_length; simpl; lia. }
    split; [reflexivity|]. split; [reflexivity|]. split; [|exact Hlen].
    assert (Hk1 := map_nth_error fst _ _ Hk). simpl in Hk1.
    rewrite Hargs, nth_error_firstn, Hlen in Hk1.
    now rewrite (proj2 (Nat.ltb_lt _ _) (Nat.lt_succ_diag_r _)) in Hk1.
  - destruct (performBackup_runs E w) as (r & w' & t & Hrun & Ht & Hf).
    exists r, w', t.
    split; [exact Hrun|]. split; [exact Ht|].
    intros t1 ev t2 e -> _ Hfail.
    rewrite steps_app in Hf. simpl in Hf.
    destruct (is_log ev) eqn:El;
      [rewrite (log_no_failure _ El) in Hfail; discriminate|].
    simpl in Hf.
    destruct (follows_failure_is_last _ _ _ Hf _ _ _ _ eq_refl Hfail) as [H1 H2].
    now split.
Qed.

Lemma backup_invocation_failure_witness :
  (exists w',
     performDuplicacyBackup (sampleEnv failsOnSecondary) [] emptyWorld
     = Some (Some "exit status 100", w') /\
     List.length (backupTable w') = 1 /\
     List.length (invocations (trace w')) = 2) /\
  (exists w',
     performBackup (sampleEnv failsOnSecondary) emptyWorld
     = Some (Some "exit status 100", w') /\
     steps (skipn 14 (trace w')) = []).
Proof.
  destruct (backup_invocation_failure (sampleEnv failsOnSecondary) emptyWorld)
    as [Ha Hb].
  split.
  - destruct (Ha [] eq_refl) as (r & w' & t & new & Hrun & Ht & Htab & Hk).
    assert (Hrun' := Hrun). vm_compute in Hrun'.
    injection Hrun' as Hr Hw. subst w'. simpl in Ht, Htab. subst t new.
    destruct (Hk 1 ["backup"; "-storage"; "secondary"; "-stats"; "-threads"; "1"]
                "exit status 100" eq_refl) as (-> & Hn & _ & Hinv).
    eexists; split; [exact Hrun|]. split; [exact Hn | exact Hinv].
  - destruct Hb as (r & w' & t & Hrun & Ht & Hfail).
    assert (Hrun' := Hrun). vm_compute in Hrun'.
    injection Hrun' as Hr Hw. subst w'. simpl in Ht. subst t.
    match type of Hfail with
    | forall t1 ev t2 e, ?tr = _ -> _ =>
        destruct (Hfail (firstn 13 tr) (nth 13 tr NotifyOfStart) (skipn 14 tr)
                    "exit status 100" eq_refl eq_refl eq_refl) as [-> Hnone]
    end.
    eexists; split; [exact Hrun | exact Hnone].
Defined.

(** C3 (the code departs from it).  [backupEntry] is declared before the
    loop of [performDuplicacyBackup] and is not cleared between two turns.
    In the sample run the tool prints its statistics for "primary" and not
    a single line for "secondary"; both invocations succeed.  The record
    appended for "secondary" nevertheless carries the statistics of
    "primary" in every field that a line would have set. *)
Theorem backupEntry_carried_over_targets :
  exists w' first second,
    performDuplicacyBackup (sampleEnv silentOnSecondary) [] emptyWorld
    = Some (None, w') /\
    backupTable w' = [first; second] /\
    map (fun inv => mentions "secondary" (fst inv)) (invocations (trace w'))
    = [false; true] /\
    In (Executor "duplicacy"
          ["backup"; "-storage"; "secondary"; "-stats"; "-threads"; "1"]
          "/home/user" [] None) (trace w') /\
    storage second = "secondary" /\
    filesTotalCount second = "100" /\ filesTotalSize second = "10G" /\
    filesNewCount second = "5" /\ filesNewSize second = "200M" /\
    chunkTotalCount second = "400" /\ chunkTotalSize second = "12G" /\
    chunkNewCount second = "20" /\ chunkNewSize second = "300M" /\
    chunkNewUploaded second = "290M".
Proof.
  do 3 eexists. split; [vm_compute; reflexivity|].
  split; [reflexivity|]. split; [reflexivity|].
  split; [simpl; tauto|]. repeat split; reflexivity.
Qed.

(** The scenario of one target: the two summary lines of the tool end up
    in the record of the target. *)
Example primary_record :
  option_map (fun rw => hd_error (backupTable (snd rw)))
    (performDuplicacyBackup (sampleEnv silentOnSecondary) [] emptyWorld)
  = Some (Some {| storage := "primary";
                  chunkTotalCount := "400"; chunkTotalSize := "12G";
                  filesTotalCount := "100"; filesTotalSize := "10G";
                  filesNewCount := "5"; filesNewSize := "200M";
                  chunkNewCount := "20"; chunkNewSize := "300M";
                  chunkNewUploaded := "290M"; duration := "2 seconds" |}).
Proof. vm_compute; reflexivity. Qed.

(** A whole run in which nothing fails goes through the whole plan. *)
Example quiet_run_stages :
  option_map (fun rw => (fst rw, map stage_of (steps (trace (snd rw)))))
    (performBackup (sampleEnv quietTool) emptyWorld)
  = Some (None, map Some (plan (sampleEnv quietTool))).
Proof. vm_compute; reflexivity. Qed.

(* ===================================================================== *)
(** ** Command construction                                              *)
(* ===================================================================== *)

Example keepFlags_example : keepFlags "7 30 365" = "-keep 7 -keep 30 -keep 365".
Proof. reflexivity. Qed.

(** The rules "7 30 365" through the body of the loop of [loadConfig] and
    through the construction of the arguments. *)
Lemma pruneCmdArgs_three_rules (testArgs : list string) (name threads quote : string)
    (all : bool) :
  let stored := {| PruneInfo.Storage := name; PruneInfo.Keep := "7 30 365";
                   PruneInfo.Threads := threads; PruneInfo.All := all;
                   PruneInfo.Quote := quote |} in
  PruneInfo.Keep (loadPruneInfo stored) = "-keep 7 -keep 30 -keep 365" /\
  exists rest,
    pruneCmdArgs testArgs (loadPruneInfo stored)
    = testArgs ++ ["prune"; "-storage"; name]
      ++ ["-keep"; "7"; "-keep"; "30"; "-keep"; "365"] ++ rest.
Proof.
  intros stored; split; [reflexivity|].
  unfold pruneCmdArgs, stored, loadPruneInfo; cbn [PruneInfo.Storage PruneInfo.Keep
    PruneInfo.Threads PruneInfo.All PruneInfo.Quote].
  change (SplitSpace (if String.eqb "7 30 365" "" then "7 30 365"
                      else keepFlags "7 30 365"))
    with ["-keep"; "7"; "-keep"; "30"; "-keep"; "365"].
  destruct all; destruct (negb (String.eqb quote ""));
    rewrite <- ?app_assoc; eexists; reflexivity.
Qed.

(** With a passthrough string, the last argument of a backup or of a copy
    is that string behind a space, in one piece. *)
Lemma backupCmdArgs_last_quote (cmdArgs : list string) (bi : BackupInfo.t) :
  BackupInfo.Quote bi <> "" ->
  last (backupCmdArgs cmdArgs bi) "" = " " +++ BackupInfo.Quote bi.
Proof.
  intros Hq. unfold backupCmdArgs.
  destruct (String.eqb_spec (BackupInfo.Quote bi) ""); [contradiction|].
  simpl negb; cbv iota. apply last_last.
Qed.

Lemma copyCmdArgs_last_quote (cmdArgs : list string) (ci : CopyInfo.t) :
  CopyInfo.Quote ci <> "" ->
  last (copyCmdArgs cmdArgs ci) "" = " " +++ CopyInfo.Quote ci.
Proof.
  intros Hq. unfold copyCmdArgs.
  destruct (String.eqb_spec (CopyInfo.Quote ci) ""); [contradiction|].
  simpl negb; cbv iota. apply last_last.
Qed.

(** C9 (the code departs from it).  For a backup target and for a copy
    target whose passthrough string is "-dry-run", the argument appended
    last is " -dry-run", with a space in front, not the string as it is
    configured. *)
Theorem quote_flag_gets_leading_space :
  backupCmdArgs [] (sampleTarget "primary" "-dry-run")
  = ["backup"; "-storage"; "primary"; "-stats"; "-threads"; "1"; " -dry-run"] /\
  copyCmdArgs [] {| CopyInfo.From := "primary"; CopyInfo.To := "offsite";
                    CopyInfo.Threads := "1"; CopyInfo.Quote := "-dry-run" |}
  = ["copy"; "-from"; "primary"; "-to"; "offsite"; "-threads"; "1"; " -dry-run"] /\
  last (backupCmdArgs [] (sampleTarget "primary" "-dry-run")) "" <> "-dry-run".
Proof. split; [reflexivity|]. split; [reflexivity | discriminate]. Qed.

(* ===================================================================== *)
(** ** Configuration loading                                             *)
(* ===================================================================== *)

(** Whatever the defaults did to the configuration, the elements of
    [PruneInfo] are those that the decoder made from the document. *)
Lemma UnmarshalYAML_PruneInfo (prune : list pruneNode) (config : configurationFile) :
  UnmarshalYAML (yamlUnmarshal prune) config
  = (None,
     {| configFilename := configFilename config;
        RepoDir := RepoDir config;
        BackupInfo := BackupInfo config;
        CopyInfo := CopyInfo config;
        PruneInfo := map decodePruneNode prune;
        CheckInfo := CheckInfo config |}).
Proof. reflexivity. Qed.

(** [loadConfig] does not touch [All]. *)
Lemma loadConfig_All (config : configurationFile) :
  map PruneInfo.All (PruneInfo (loadConfig config))
  = map PruneInfo.All (PruneInfo config).
Proof. unfold loadConfig; simpl; rewrite map_map; reflexivity. Qed.

(** C10 (the code departs from it).  For a document whose one prune entry
    has no [all] key, [defaults.Set] runs on a configuration that has no
    prune entry yet, the decoder then makes the entry with [All] at its
    zero value, and [loadConfig] leaves it so: [All] is false and the
    arguments built for the entry do not contain [-all]. *)
Theorem prune_all_default_not_applied :
  let document := [{| storageKey := "primary"; keepKey := "7 30 365";
                      threadsKey := None; allKey := None; quoteKey := None |}] in
  let config :=
    loadConfig (snd (UnmarshalYAML (yamlUnmarshal document) newConfigurationFile)) in
  map PruneInfo.All (PruneInfo config) = [false] /\
  map (pruneCmdArgs []) (PruneInfo config)
  = [["prune"; "-storage"; "primary"; "-keep"; "7"; "-keep"; "30"; "-keep"; "365";
      "-threads"; "1"]].
Proof. split; reflexivity. Qed.

(* ===================================================================== *)
(** * Further properties                                                 *)
(* ===================================================================== *)

(** ** The line sinks on the other lines of the tool *)

Local Arguments String.append : clear simpl.

(** On a chunk summary the pattern captures the five tokens. *)
Lemma chunksRe_chunksLine (a b c d u : string) :
  token a = true -> token b = true -> token c = true -> token d = true ->
  token u = true ->
  match_here chunksRe (chunksLine a b c d u) = Some ([a; b; c; d; u], "").
Proof.
  intros Ha Hb Hc Hd Hu.
  set (p := tl chunksRe).
  set (body := a +++ " total, " +++ b +++ " bytes; " +++ c +++ " new, " +++ d
               +++ " bytes, " +++ u +++ " bytes uploaded").
  assert (Hk : match_here p (String ":" (String " " body)) = Some ([a; b; c; d; u], "")).
  { unfold p, body; simpl.
    rewrite (plus_token _ a _ ([b; c; d; u], "") Ha); [reflexivity | reflexivity |].
    simpl.
    rewrite (plus_token _ b _ ([c; d; u], "") Hb); [reflexivity | reflexivity |].
    simpl.
    rewrite (plus_token _ c _ ([d; u], "") Hc); [reflexivity | reflexivity |].
    simpl.
    rewrite (plus_token _ d _ ([u], "") Hd); [reflexivity | reflexivity |].
    simpl.
    rewrite (plus_token _ u _ ([], "") Hu); reflexivity. }
  assert (Hn : star (match_here p) body = None).
  { destruct (star _ _) as [[caps rest]|] eqn:Es; [exfalso | reflexivity].
    change (match_here (AnyStar :: p) body = Some (caps, rest)) in Es.
    apply match_here_spaces in Es. unfold body in Es.
    rewrite !spaces_append, (token_spaces a), (token_spaces b),
      (token_spaces c), (token_spaces d), (token_spaces u) in Es by assumption.
    simpl in Es; lia. }
  change (star (match_here p) (chunksLine a b c d u) = Some ([a; b; c; d; u], "")).
  unfold chunksLine. fold body.
  change ("All chunks: " +++ body)
    with (String "A" (String "l" (String "l" (String " " (String "c" (String "h"
          (String "u" (String "n" (String "k" (String "s"
          (String ":" (String " " body)))))))))))).
  do 10 (apply star_keep; [reflexivity|]).
  rewrite star_skip; [exact Hk | reflexivity |].
  rewrite star_skip; [reflexivity | reflexivity | exact Hn].
Qed.

(** On a copy summary the pattern captures the three tokens. *)
Lemma copyRe_copyLine (a b c : string) :
  token a = true -> token b = true -> token c = true ->
  match_here copyRe (copyLine a b c) = Some ([a; b; c], "").
Proof.
  intros Ha Hb Hc. unfold copyRe, copyLine; simpl.
  rewrite (plus_token _ a _ ([b; c], "") Ha); [reflexivity | reflexivity |].
  simpl.
  rewrite (plus_token _ b _ ([c], "") Hb); [reflexivity | reflexivity |].
  simpl.
  rewrite (plus_token _ c _ ([], "") Hc); reflexivity.
Qed.

(** X1.  On a line [All chunks: <a> total, <b> bytes; <c> new, <d> bytes,
    <u> bytes uploaded] with five non-empty tokens free of white space,
    [backupLogger] returns normally and leaves the five tokens in
    [chunkTotalCount], [chunkTotalSize], [chunkNewCount], [chunkNewSize]
    and [chunkNewUploaded]; the six other fields are as they were. *)
Theorem backupLogger_chunks_line (a b c d u : string) (entry : backupRevision)
    (w : world) :
  token a = true -> token b = true -> token c = true -> token d = true ->
  token u = true ->
  exists entry' w',
    backupLogger (chunksLine a b c d u) entry w = Some (entry', w') /\
    chunkTotalCount entry' = a /\ chunkTotalSize entry' = b /\
    chunkNewCount entry' = c /\ chunkNewSize entry' = d /\
    chunkNewUploaded entry' = u /\
    storage entry' = storage entry /\
    filesTotalCount entry' = filesTotalCount entry /\
    filesTotalSize entry' = filesTotalSize entry /\
    filesNewCount entry' = filesNewCount entry /\
    filesNewSize entry' = filesNewSize entry /\
    duration entry' = duration entry.
Proof.
  intros Ha Hb Hc Hd Hu.
  destruct (backupLogger_observed (chunksLine a b c d u) entry w) as [evs [Hrun _]].
  exists (observed (chunksLine a b c d u) entry), (logged w evs).
  split; [exact Hrun|].
  unfold observed.
  replace (HasPrefix (chunksLine a b c d u) "Files:") with false by reflexivity.
  replace (HasPrefix (chunksLine a b c d u) "All chunks:") with true by reflexivity.
  rewrite (FindStringSubmatch_here _ _ _ _
             (chunksRe_chunksLine a b c d u Ha Hb Hc Hd Hu)).
  simpl; repeat split; reflexivity.
Qed.

Lemma backupLogger_chunks_line_witness :
  exists entry' w',
    backupLogger
      "All chunks: 348444 total, 1668G bytes; 2415 new, 12,391M bytes, 12,255M bytes uploaded"
      zeroBackupRevision emptyWorld = Some (entry', w') /\
    chunkTotalCount entry' = "348444" /\ chunkTotalSize entry' = "1668G" /\
    chunkNewCount entry' = "2415" /\ chunkNewSize entry' = "12,391M" /\
    chunkNewUploaded entry' = "12,255M" /\
    storage entry' = "" /\ filesTotalCount entry' = "" /\
    filesTotalSize entry' = "" /\ filesNewCount entry' = "" /\
    filesNewSize entry' = "" /\ duration entry' = "".
Proof.
  apply (backupLogger_chunks_line "348444" "1668G" "2415" "12,391M" "12,255M"
           zeroBackupRevision emptyWorld); reflexivity.
Defined.

(** X2.  On a line [Copy complete, <a> total chunks, <b> chunks copied, <c>
    skipped] with three non-empty tokens free of white space, [copyLogger]
    returns normally and leaves the three tokens in [chunkTotalCount],
    [chunkCopyCount] and [chunkSkipCount]; the storages and the duration
    are as they were. *)
Theorem copyLogger_copy_line (a b c : string) (entry : copyRevision) (w : world) :
  token a = true -> token b = true -> token c = true ->
  exists entry' w',
    copyLogger (copyLine a b c) entry w = Some (entry', w') /\
    Copy.chunkTotalCount entry' = a /\ Copy.chunkCopyCount entry' = b /\
    Copy.chunkSkipCount entry' = c /\
    Copy.storageFrom entry' = Copy.storageFrom entry /\
    Copy.storageTo entry' = Copy.storageTo entry /\
    Copy.duration entry' = Copy.duration entry.
Proof.
  intros Ha Hb Hc.
  destruct (copyLogger_observed (copyLine a b c) entry w) as [evs [Hrun _]].
  exists (observedCopy (copyLine a b c) entry), (logged w evs).
  split; [exact Hrun|].
  unfold observedCopy.
  rewrite (proj2 (HasPrefix_true_iff (copyLine a b c) "Copy complete, "))
    by (eexists; reflexivity).
  rewrite (FindStringSubmatch_here _ _ _ _ (copyRe_copyLine a b c Ha Hb Hc)).
  simpl; repeat split; reflexivity.
Qed.

Lemma copyLogger_copy_line_witness :
  exists entry' w',
    copyLogger "Copy complete, 107 total chunks, 0 chunks copied, 107 skipped"
      zeroCopyRevision emptyWorld = Some (entry', w') /\
    Copy.chunkTotalCount entry' = "107" /\ Copy.chunkCopyCount entry' = "0" /\
    Copy.chunkSkipCount entry' = "107" /\
    Copy.storageFrom entry' = "" /\ Copy.storageTo entry' = "" /\
    Copy.duration entry' = "".
Proof.
  apply (copyLogger_copy_line "107" "0" "107" zeroCopyRevision emptyWorld);
    reflexivity.
Defined.

(** Each case of the sinks hands the line to [logger.Println]. *)
Lemma backupLogger_logs (line : string) (entry : backupRevision) (w : world) :
  exists evs, backupLogger line entry w = Some (observed line entry, logged w evs)
              /\ steps evs = [] /\ In (Println line) evs.
Proof.
  unfold backupLogger, observed.
  destruct (HasPrefix line "Files:").
  { destruct (FindStringSubmatch_length filesRe line) as [H|H].
    - rewrite H; run_go; rewrite <- ?app_assoc; eexists; split; [reflexivity|].
      split; [reflexivity | now left].
    - destruct (FindStringSubmatch filesRe line)
        as [|e0 [|e1 [|e2 [|e3 [|e4 [|e5 l]]]]]]; try discriminate H.
      run_go; rewrite <- ?app_assoc; eexists; split; [reflexivity|].
      split; [reflexivity | now left]. }
  destruct (HasPrefix line "All chunks:").
  { destruct (FindStringSubmatch_length chunksRe line) as [H|H].
    - rewrite H; run_go; rewrite <- ?app_assoc; eexists; split; [reflexivity|].
      split; [reflexivity | now left].
    - destruct (FindStringSubmatch chunksRe line)
        as [|e0 [|e1 [|e2 [|e3 [|e4 [|e5 [|e6 l]]]]]]]; try discriminate H.
      run_go; rewrite <- ?app_assoc; eexists; split; [reflexivity|].
      split; [reflexivity | now left]. }
  destruct (HasPrefix line "Enter storage password:"
            || HasSuffix line "Authorization failure").
  - run_go; rewrite <- ?app_assoc; eexists; split; [reflexivity|].
    split; [reflexivity | right; now left].
  - run_go; eexists; split; [reflexivity|]. split; [reflexivity | now left].
Qed.

Lemma copyLogger_logs (line : string) (entry : copyRevision) (w : world) :
  exists evs, copyLogger line entry w = Some (observedCopy line entry, logged w evs)
              /\ steps evs = [] /\ In (Println line) evs.
Proof.
  unfold copyLogger, observedCopy.
  destruct (HasPrefix line "Copy complete, ").
  - destruct (FindStringSubmatch_length copyRe line) as [H|H].
    + rewrite H; run_go; rewrite <- ?app_assoc; eexists; split; [reflexivity|].
      split; [reflexivity | now left].
    + destruct (FindStringSubmatch copyRe line)
        as [|e0 [|e1 [|e2 [|e3 [|e4 l]]]]]; try discriminate H.
      run_go; rewrite <- ?app_assoc; eexists; split; [reflexivity|].
      split; [reflexivity | now left].
  - run_go; eexists; split; [reflexivity|]. split; [reflexivity | now left].
Qed.

(** X3.  The three sinks never index out of range, whatever the line: the
    guards [len(elements) >= 4] and [>= 6] are only passed by a match, which
    has one element more than the pattern has groups.  All a sink does to
    the world is log output, with [logger.Println(line)] in every case:
    the tables are untouched and no step of the run is started. *)
Theorem sinks_only_log (line : string) (w : world) :
  (forall entry : backupRevision, exists entry' evs,
     backupLogger line entry w = Some (entry', logged w evs) /\
     steps evs = [] /\ In (Println line) evs) /\
  (forall entry : copyRevision, exists entry' evs,
     copyLogger line entry w = Some (entry', logged w evs) /\
     steps evs = [] /\ In (Println line) evs) /\
  anon line tt w = Some (tt, logged w [Println line]).
Proof.
  split; [|split].
  - intros entry. destruct (backupLogger_logs line entry w) as (evs & H).
    now exists (observed line entry), evs.
  - intros entry. destruct (copyLogger_logs line entry w) as (evs & H).
    now exists (observedCopy line entry), evs.
  - reflexivity.
Qed.

Lemma FindStringSubmatch_spaces (p : regexp) (s : string) :
  spaces s < lit_spaces p -> FindStringSubmatch p s = [].
Proof.
  intros Hlt.
  destruct (FindStringSubmatch p s) as [|whole caps] eqn:Ef; [reflexivity|].
  apply FindStringSubmatch_sound in Ef as (pre & s' & rest & -> & Hm).
  apply match_here_spaces in Hm. rewrite spaces_append in Hlt. lia.
Qed.

(** X4.  A line that starts with "Files:" and has fewer than the eight
    spaces of the pattern, or that starts with "All chunks:" and has fewer
    than the eleven spaces of its pattern, cannot match: it is logged twice
    (as it is, and indented) and the record is left as it was. *)
Theorem summary_line_too_short (line : string) (entry : backupRevision) (w : world) :
  (HasPrefix line "Files:" = true -> spaces line < 8 ->
   backupLogger line entry w
   = Some (entry, logged w [Println line; LogMessage true ("  " +++ line)])) /\
  (HasPrefix line "Files:" = false -> HasPrefix line "All chunks:" = true ->
   spaces line < 11 ->
   backupLogger line entry w
   = Some (entry, logged w [Println line; LogMessage true ("  " +++ line)])).
Proof.
  split.
  - intros Hp Hs. unfold backupLogger. rewrite Hp.
    rewrite (FindStringSubmatch_spaces filesRe line) by exact Hs.
    run_go. now rewrite <- app_assoc.
  - intros Hf Hp Hs. unfold backupLogger. rewrite Hf, Hp.
    rewrite (FindStringSubmatch_spaces chunksRe line) by exact Hs.
    run_go. now rewrite <- app_assoc.
Qed.

Lemma summary_line_too_short_witness :
  backupLogger "Files: 12 total" zeroBackupRevision emptyWorld
  = Some (zeroBackupRevision,
          logged emptyWorld [Println "Files: 12 total";
                             LogMessage true "  Files: 12 total"]) /\
  backupLogger "All chunks: none" zeroBackupRevision emptyWorld
  = Some (zeroBackupRevision,
          logged emptyWorld [Println "All chunks: none";
                             LogMessage true "  All chunks: none"]).
Proof.
  destruct (summary_line_too_short "Files: 12 total" zeroBackupRevision emptyWorld)
    as [Hf _].
  destruct (summary_line_too_short "All chunks: none" zeroBackupRevision emptyWorld)
    as [_ Hc].
  split; [apply Hf | apply Hc]; try reflexivity; simpl; lia.
Defined.

Lemma observed_commute (l1 l2 : string) (entry : backupRevision) :
  HasPrefix l1 "Files:" = true -> HasPrefix l2 "Files:" = false ->
  observed l1 (observed l2 entry) = observed l2 (observed l1 entry).
Proof.
  intros H1 H2. unfold observed. rewrite H1, H2.
  destruct (FindStringSubmatch filesRe l1)
    as [|e0 [|e1 [|e2 [|e3 [|e4 [|e5 l]]]]]]; try reflexivity.
  destruct (HasPrefix l2 "All chunks:"); [|reflexivity].
  destruct (FindStringSubmatch chunksRe l2)
    as [|f0 [|f1 [|f2 [|f3 [|f4 [|f5 [|f6 l]]]]]]]; reflexivity.
Qed.

(** X5.  A line that starts with "Files:" and a line that does not are
    observed with the same result in either order: the file counts and
    the chunk counts are kept in different fields, and nothing else is
    assigned by the sink. *)
Theorem files_line_commutes (l1 l2 : string) (entry : backupRevision) (w : world) :
  HasPrefix l1 "Files:" = true -> HasPrefix l2 "Files:" = false ->
  exists entry' w12 w21,
    eachLine backupLogger [l1; l2] entry w = Some (entry', w12) /\
    eachLine backupLogger [l2; l1] entry w = Some (entry', w21).
Proof.
  intros H1 H2.
  destruct (eachLine_backupLogger [l1; l2] entry w) as (evs & Hrun & _).
  destruct (eachLine_backupLogger [l2; l1] entry w) as (evs' & Hrun' & _).
  simpl fold_left in Hrun, Hrun'.
  rewrite (observed_commute l1 l2 entry H1 H2) in Hrun'.
  eauto.
Qed.

Lemma files_line_commutes_witness :
  exists entry' w12 w21,
    eachLine backupLogger
      ["Files: 100 total, 10G bytes; 5 new, 200M bytes";
       "All chunks: 400 total, 12G bytes; 20 new, 300M bytes, 290M bytes uploaded"]
      zeroBackupRevision emptyWorld = Some (entry', w12) /\
    eachLine backupLogger
      ["All chunks: 400 total, 12G bytes; 20 new, 300M bytes, 290M bytes uploaded";
       "Files: 100 total, 10G bytes; 5 new, 200M bytes"]
      zeroBackupRevision emptyWorld = Some (entry', w21).
Proof.
  apply (files_line_commutes
           "Files: 100 total, 10G bytes; 5 new, 200M bytes"
           "All chunks: 400 total, 12G bytes; 20 new, 300M bytes, 290M bytes uploaded"
           zeroBackupRevision emptyWorld); reflexivity.
Defined.

(* ===================================================================== *)
(** ** Configuration loading                                             *)
(* ===================================================================== *)

Lemma SplitSpace_words (s : string) : Forall (fun a => spaces a = 0) (SplitSpace s).
Proof.
  induction s as [|c s IH]; simpl; [repeat constructor|].
  destruct (Ascii.eqb c " ") eqn:Ec; [constructor; [reflexivity | exact IH]|].
  destruct (SplitSpace s) as [|a rest]; [repeat constructor; simpl; now rewrite Ec|].
  inversion IH; subst. constructor; [simpl; now rewrite Ec | assumption].
Qed.

(** The body of the loop of [loadConfig] followed by the construction of
    the arguments, for any rules. *)
Lemma pruneCmdArgs_loadPruneInfo (testArgs : list string) (pi : PruneInfo.t) :
  PruneInfo.Keep pi <> "" ->
  pruneCmdArgs testArgs (loadPruneInfo pi)
  = testArgs ++ ["prune"; "-storage"; PruneInfo.Storage pi]
    ++ flat_map (fun rule => ["-keep"; rule]) (SplitSpace (PruneInfo.Keep pi))
    ++ ["-threads"; if String.eqb (PruneInfo.Threads pi) "" then "1"
                    else PruneInfo.Threads pi]
    ++ (if PruneInfo.All pi then ["-all"] else [])
    ++ (if String.eqb (PruneInfo.Quote pi) "" then []
        else [" " +++ PruneInfo.Quote pi]).
Proof.
  intros Hk. unfold pruneCmdArgs, loadPruneInfo.
  cbn [PruneInfo.Storage PruneInfo.Keep PruneInfo.Threads PruneInfo.All
       PruneInfo.Quote].
  destruct (String.eqb_spec (PruneInfo.Keep pi) ""); [contradiction|].
  assert (Hs : SplitSpace (keepFlags (PruneInfo.Keep pi))
               = flat_map (fun rule => ["-keep"; rule])
                   (SplitSpace (PruneInfo.Keep pi))).
  { rewrite <- (Join_SplitSpace (PruneInfo.Keep pi)) at 1.
    apply keep_rules_expanded;
      [apply SplitSpace_nonempty | apply SplitSpace_words]. }
  rewrite Hs.
  destruct (PruneInfo.All pi); destruct (String.eqb (PruneInfo.Quote pi) "");
    cbn [negb]; rewrite <- ?app_assoc, ?app_nil_r; reflexivity.
Qed.

(** X7.  [loadConfig] leaves every backup, copy and prune entry with a
    thread count: the configured one, or "1" when there was none.  It keeps
    the entries in their order and leaves the storage names, the snapshot
    settings, [All], the passthrough strings, the check entries and the
    repository as they were. *)
Theorem loadConfig_entries (config : configurationFile) :
  Forall2 (fun bi bi' =>
             BackupInfo.Threads bi' <> "" /\
             (BackupInfo.Threads bi <> "" -> BackupInfo.Threads bi' = BackupInfo.Threads bi) /\
             (BackupInfo.Threads bi = "" -> BackupInfo.Threads bi' = "1") /\
             BackupInfo.Name bi' = BackupInfo.Name bi /\
             BackupInfo.Vss bi' = BackupInfo.Vss bi /\
             BackupInfo.VssTimeout bi' = BackupInfo.VssTimeout bi /\
             BackupInfo.Quote bi' = BackupInfo.Quote bi)
          (BackupInfo config) (BackupInfo (loadConfig config)) /\
  Forall2 (fun ci ci' =>
             CopyInfo.Threads ci' <> "" /\
             (CopyInfo.Threads ci <> "" -> CopyInfo.Threads ci' = CopyInfo.Threads ci) /\
             (CopyInfo.Threads ci = "" -> CopyInfo.Threads ci' = "1") /\
             CopyInfo.From ci' = CopyInfo.From ci /\
             CopyInfo.To ci' = CopyInfo.To ci /\
             CopyInfo.Quote ci' = CopyInfo.Quote ci)
          (CopyInfo config) (CopyInfo (loadConfig config)) /\
  Forall2 (fun pi pi' =>
             PruneInfo.Threads pi' <> "" /\
             (PruneInfo.Threads pi <> "" -> PruneInfo.Threads pi' = PruneInfo.Threads pi) /\
             (PruneInfo.Threads pi = "" -> PruneInfo.Threads pi' = "1") /\
             PruneInfo.Storage pi' = PruneInfo.Storage pi /\
             PruneInfo.All pi' = PruneInfo.All pi /\
             PruneInfo.Quote pi' = PruneInfo.Quote pi)
          (PruneInfo config) (PruneInfo (loadConfig config)) /\
  CheckInfo (loadConfig config) = CheckInfo config /\
  RepoDir (loadConfig config) = RepoDir config.
Proof.
  unfold loadConfig; cbn [BackupInfo CopyInfo PruneInfo CheckInfo RepoDir].
  split; [|split; [|split; [|split; reflexivity]]].
  - induction (BackupInfo config) as [|bi l IH]; constructor; [|exact IH].
    unfold loadBackupInfo; cbn.
    destruct (String.eqb_spec (BackupInfo.Threads bi) "");
      repeat split; try discriminate; try congruence.
  - induction (CopyInfo config) as [|ci l IH]; constructor; [|exact IH].
    unfold loadCopyInfo; cbn.
    destruct (String.eqb_spec (CopyInfo.Threads ci) "");
      repeat split; try discriminate; try congruence.
  - induction (PruneInfo config) as [|pi l IH]; constructor; [|exact IH].
    unfold loadPruneInfo; cbn.
    destruct (String.eqb_spec (PruneInfo.Threads pi) "");
      repeat split; try discriminate; try congruence.
Qed.

Section RangeErr.

Context {T : Type}.
Variable body : nat -> T -> option error -> option error.
Variable good : T -> Prop.
Hypothesis body_none : forall i x err, body i x err = None <-> err = None /\ good x.
Hypothesis body_good : forall i x err, good x -> body i x err = err.

Lemma rangeErr_none (xs : list T) :
  forall i err, rangeErr body i xs err = None <-> err = None /\ Forall good xs.
Proof.
  induction xs as [|x xs IH]; intros i err; simpl.
  - split; [intros ->; split; constructor | now intros [-> _]].
  - rewrite IH, body_none. split.
    + intros [[-> Hx] Hxs]; split; [reflexivity | now constructor].
    + intros [-> Hall]; inversion Hall; subst; auto.
Qed.

Lemma rangeErr_good (xs : list T) :
  forall i err, Forall good xs -> rangeErr body i xs err = err.
Proof.
  induction xs as [|x xs IH]; intros i err Hall; simpl; [reflexivity|].
  inversion Hall; subst. rewrite IH by assumption. now apply body_good.
Qed.

Lemma rangeErr_app (xs ys : list T) :
  forall i err,
    rangeErr body i (xs ++ ys) err
    = rangeErr body (i + List.length xs) ys (rangeErr body i xs err).
Proof.
  induction xs as [|x xs IH]; intros i err; simpl.
  - now rewrite Nat.add_0_r.
  - rewrite IH. now rewrite Nat.add_succ_r.
Qed.

End RangeErr.

Lemma backupInfoErr_none i bi err :
  backupInfoErr i bi err = None <-> err = None /\ BackupInfo.Name bi <> "".
Proof.
  unfold backupInfoErr. destruct (String.eqb_spec (BackupInfo.Name bi) "").
  - split; [discriminate | now intros [_ H]].
  - tauto.
Qed.

Lemma copyInfoErr_none i ci err :
  copyInfoErr i ci err = None
  <-> err = None /\ (CopyInfo.From ci <> "" /\ CopyInfo.To ci <> "").
Proof.
  unfold copyInfoErr.
  destruct (String.eqb_spec (CopyInfo.From ci) ""),
           (String.eqb_spec (CopyInfo.To ci) "");
    split; try discriminate; tauto.
Qed.

Lemma pruneInfoErr_none i pi err :
  pruneInfoErr i pi err = None
  <-> err = None /\ (PruneInfo.Storage pi <> "" /\ PruneInfo.Keep pi <> "").
Proof.
  unfold pruneInfoErr.
  destruct (String.eqb_spec (PruneInfo.Storage pi) ""),
           (String.eqb_spec (PruneInfo.Keep pi) "");
    split; try discriminate; tauto.
Qed.

Lemma checkInfoErr_none i ci err :
  checkInfoErr i ci err = None <-> err = None /\ CheckInfo.Storage ci <> "".
Proof.
  unfold checkInfoErr. destruct (String.eqb_spec (CheckInfo.Storage ci) "").
  - split; [discriminate | now intros [_ H]].
  - tauto.
Qed.

(** X8.  [loadConfig] returns [nil] exactly when [os.Stat] accepts the
    repository directory, there is at least one backup, one prune and one
    check entry, and no entry lacks a storage name, a copy source or
    destination, or a keep string. *)
Theorem loadConfigErr_nil_iff (osStat : string -> option error)
    (config : configurationFile) :
  loadConfigErr osStat config = None
  <-> osStat (RepoDir config) = None /\ validConfig config.
Proof.
  unfold loadConfigErr, validConfig.
  destruct (CheckInfo config) as [|ck cks] eqn:Eck.
  { split; [discriminate | intros (_ & _ & _ & _ & _ & _ & H & _); now elim H]. }
  rewrite (rangeErr_none _ _ checkInfoErr_none).
  rewrite (rangeErr_none _ _ pruneInfoErr_none).
  destruct (PruneInfo config) as [|pr prs] eqn:Epr.
  { split; [intros [[H _] _]; discriminate
           | intros (_ & _ & _ & _ & H & _); now elim H]. }
  rewrite (rangeErr_none _ _ copyInfoErr_none).
  destruct (BackupInfo config) as [|bk bks] eqn:Ebk.
  { split; [intros [[[H _] _] _]; discriminate | intros (_ & H & _); now elim H]. }
  rewrite (rangeErr_none _ _ backupInfoErr_none).
  split.
  - intros [[[[Hs Hb] Hc] Hp] Hk]. repeat split; auto; discriminate.
  - intros (Hs & _ & Hb & Hc & _ & Hp & _ & Hk). repeat split; auto.
Qed.

Lemma backupInfoErr_good i bi err :
  BackupInfo.Name bi <> "" -> backupInfoErr i bi err = err.
Proof.
  unfold backupInfoErr. now destruct (String.eqb_spec (BackupInfo.Name bi) "").
Qed.

Lemma copyInfoErr_good i ci err :
  CopyInfo.From ci <> "" /\ CopyInfo.To ci <> "" -> copyInfoErr i ci err = err.
Proof.
  unfold copyInfoErr. intros [H1 H2].
  now destruct (String.eqb_spec (CopyInfo.From ci) ""),
               (String.eqb_spec (CopyInfo.To ci) "").
Qed.

Lemma pruneInfoErr_good i pi err :
  PruneInfo.Storage pi <> "" /\ PruneInfo.Keep pi <> "" ->
  pruneInfoErr i pi err = err.
Proof.
  unfold pruneInfoErr. intros [H1 H2].
  now destruct (String.eqb_spec (PruneInfo.Storage pi) ""),
               (String.eqb_spec (PruneInfo.Keep pi) "").
Qed.

Lemma checkInfoErr_good i ci err :
  CheckInfo.Storage ci <> "" -> checkInfoErr i ci err = err.
Proof.
  unfold checkInfoErr. now destruct (String.eqb_spec (CheckInfo.Storage ci) "").
Qed.

(** X9.  When the entries of the configuration pass their checks, what
    [loadConfig] returns is what [os.Stat] returned for the repository
    directory.  The error "missing mandatory repository location" that is
    assigned for an empty [RepoDir] is overwritten by the result of
    [os.Stat] and is not what the caller sees. *)
Theorem loadConfigErr_repository (osStat : string -> option error)
    (config : configurationFile) :
  validConfig config -> loadConfigErr osStat config = osStat (RepoDir config).
Proof.
  intros (Hb0 & Hb & Hc & Hp0 & Hp & Hk0 & Hk). unfold loadConfigErr.
  destruct (CheckInfo config) as [|ck cks] eqn:Eck; [now elim Hk0|].
  rewrite (rangeErr_good _ _ checkInfoErr_good) by assumption.
  rewrite (rangeErr_good _ _ pruneInfoErr_good) by assumption.
  destruct (PruneInfo config) as [|pr prs] eqn:Epr; [now elim Hp0|].
  rewrite (rangeErr_good _ _ copyInfoErr_good) by assumption.
  destruct (BackupInfo config) as [|bk bks] eqn:Ebk; [now elim Hb0|].
  now rewrite (rangeErr_good _ _ backupInfoErr_good) by assumption.
Qed.

Lemma loadConfigErr_repository_witness :
  loadConfigErr (fun _ => None)
    {| configFilename := configFilename sampleConfig; RepoDir := "";
       BackupInfo := BackupInfo sampleConfig; CopyInfo := CopyInfo sampleConfig;
       PruneInfo := PruneInfo sampleConfig; CheckInfo := CheckInfo sampleConfig |}
  = None.
Proof.
  apply (loadConfigErr_repository (fun _ => None)
           {| configFilename := configFilename sampleConfig; RepoDir := "";
              BackupInfo := BackupInfo sampleConfig;
              CopyInfo := CopyInfo sampleConfig;
              PruneInfo := PruneInfo sampleConfig;
              CheckInfo := CheckInfo sampleConfig |}).
  unfold validConfig; simpl.
  repeat split; try discriminate; repeat constructor; discriminate.
Defined.

(** X10.  Only the last error found is returned.  When a check entry has
    no storage name and every check entry after it has one, [loadConfig]
    returns "missing mandatory check field: <i>.storage" with the index of
    that entry, whatever else is wrong in the configuration. *)
Theorem loadConfigErr_last_check (osStat : string -> option error)
    (config : configurationFile) (before after : list CheckInfo.t)
    (ci : CheckInfo.t) :
  CheckInfo config = before ++ ci :: after ->
  CheckInfo.Storage ci = "" ->
  Forall (fun c => CheckInfo.Storage c <> "") after ->
  loadConfigErr osStat config
  = Some ("missing mandatory check field: " +++ Itoa (List.length before)
          +++ ".storage").
Proof.
  intros Hck Hci Hafter. unfold loadConfigErr. rewrite Hck.
  destruct (before ++ ci :: after) as [|c0 l0] eqn:El;
    [now destruct before|]. rewrite <- El.
  rewrite rangeErr_app. simpl rangeErr.
  rewrite (rangeErr_good _ _ checkInfoErr_good) by assumption.
  unfold checkInfoErr at 1. rewrite Hci. reflexivity.
Qed.

Lemma loadConfigErr_last_check_witness :
  loadConfigErr (fun _ => Some "stat : no such file or directory")
    {| configFilename := ""; RepoDir := ""; BackupInfo := []; CopyInfo := [];
       PruneInfo := [];
       CheckInfo := [{| CheckInfo.Storage := ""; CheckInfo.All := false;
                        CheckInfo.Quote := "" |};
                     {| CheckInfo.Storage := ""; CheckInfo.All := true;
                        CheckInfo.Quote := "" |};
                     {| CheckInfo.Storage := "b2"; CheckInfo.All := false;
                        CheckInfo.Quote := "" |}] |}
  = Some "missing mandatory check field: 1.storage".
Proof.
  apply (loadConfigErr_last_check _ _
           [{| CheckInfo.Storage := ""; CheckInfo.All := false;
               CheckInfo.Quote := "" |}]
           [{| CheckInfo.Storage := "b2"; CheckInfo.All := false;
               CheckInfo.Quote := "" |}]
           {| CheckInfo.Storage := ""; CheckInfo.All := true;
              CheckInfo.Quote := "" |});
    [reflexivity | reflexivity | repeat constructor; discriminate].
Defined.

(* ===================================================================== *)
(** ** The runners: output lines, tables, panics                         *)
(* ===================================================================== *)

Local Arguments String.append : simpl never.

Lemma eachLine_backupLogger_logs (out : list string) :
  forall (entry : backupRevision) (w : world),
  exists evs,
    eachLine backupLogger out entry w
    = Some (fold_left (fun e line => observed line e) out entry, logged w evs)
    /\ steps evs = [] /\ Forall (fun line => In (Println line) evs) out.
Proof.
  induction out as [|line out IH]; intros entry w; simpl.
  - exists []; rewrite logged_nil; repeat split; constructor.
  - destruct (backupLogger_logs line entry w) as (evs & Hrun & Hs & Hin).
    destruct (IH (observed line entry) (logged w evs)) as (evs' & Hrun' & Hs' & Hall).
    exists (evs ++ evs'); split; [|split].
    + rewrite (bind_Some _ _ _ _ _ Hrun), Hrun'; now rewrite logged_logged.
    + now rewrite steps_app, Hs, Hs'.
    + constructor; [apply in_or_app; now left|].
      eapply Forall_impl; [|exact Hall].
      intros l Hl; apply in_or_app; now right.
Qed.

Lemma eachLine_copyLogger_logs (out : list string) :
  forall (entry : copyRevision) (w : world),
  exists evs,
    eachLine copyLogger out entry w
    = Some (fold_left (fun e line => observedCopy line e) out entry, logged w evs)
    /\ steps evs = [] /\ Forall (fun line => In (Println line) evs) out.
Proof.
  induction out as [|line out IH]; intros entry w; simpl.
  - exists []; rewrite logged_nil; repeat split; constructor.
  - destruct (copyLogger_logs line entry w) as (evs & Hrun & Hs & Hin).
    destruct (IH (observedCopy line entry) (logged w evs))
      as (evs' & Hrun' & Hs' & Hall).
    exists (evs ++ evs'); split; [|split].
    + rewrite (bind_Some _ _ _ _ _ Hrun), Hrun'; now rewrite logged_logged.
    + now rewrite steps_app, Hs, Hs'.
    + constructor; [apply in_or_app; now left|].
      eapply Forall_impl; [|exact Hall].
      intros l Hl; apply in_or_app; now right.
Qed.

Lemma eachLine_anon_logs (out : list string) (w : world) :
  exists evs, eachLine anon out tt w = Some (tt, logged w evs) /\ steps evs = []
              /\ Forall (fun line => In (Println line) evs) out.
Proof.
  revert w; induction out as [|line out IH]; intros w; simpl.
  - exists []; rewrite logged_nil; repeat split; constructor.
  - destruct (IH (logged w [Println line])) as (evs' & Hrun' & Hs' & Hall).
    exists (Println line :: evs'); split; [|split; [exact Hs'|]].
    + unfold anon at 1.
      rewrite (bind_Some _ _ _ _ _ (emit_logged _ w)), Hrun'.
      now rewrite logged_logged.
    + constructor; [now left|].
      eapply Forall_impl; [|exact Hall]. intros l Hl; now right.
Qed.

Section RunnerTurns.

Variable E : env.

Lemma callExecutor_logs {St} (sink : string -> St -> M St)
    (final : list string -> St -> St) (cmdArgs : list string) (s : St) (w : world) :
  (forall out s w, exists evs,
      eachLine sink out s w = Some (final out s, logged w evs) /\ steps evs = []
      /\ Forall (fun line => In (Println line) evs) out) ->
  exists out res evs,
    callExecutor E cmdArgs sink s w
    = Some ((res, final out s),
            logged w (Executor (duplicacyPath E) cmdArgs (RepoDir (configFile E))
                        out res :: evs))
    /\ steps evs = [] /\ Forall (fun line => In (Println line) evs) out.
Proof.
  intros Hsink. unfold callExecutor, ask.
  destruct (executor E (trace w) (duplicacyPath E) cmdArgs (RepoDir (configFile E)))
    as [out res] eqn:Ex.
  destruct (Hsink out s (logged w [Executor (duplicacyPath E) cmdArgs
                                     (RepoDir (configFile E)) out res]))
    as (evs & Hrun & Hs & Hall).
  exists out, res, evs; split; [|split; assumption].
  unfold bind at 1, ret; simpl. rewrite Ex; simpl.
  rewrite (bind_Some _ _ _ _ _ (emit_logged _ w)).
  rewrite (bind_Some _ _ _ _ _ Hrun).
  now rewrite logged_logged.
Qed.

Ltac open_turn :=
  unfold bind, ret, emit, ask, logMessage, logError, logExecuting,
    appendBackupTable, appendCopyTable;
  destruct (debugFlag E); simpl.

Ltac lines_in Hall :=
  eapply Forall_impl; [|exact Hall];
  let l := fresh "l" in let Hl := fresh "Hl" in
  intros l Hl; simpl; rewrite ?in_app_iff; simpl; tauto.

(** One turn of the backup loop, with the record it appends in full. *)
Lemma backupStep_full (testArgs : list string) (i : nat) (bi : BackupInfo.t)
    (entry : backupRevision) (w : world) :
  testArgsOK testArgs = true ->
  exists out res t r w',
    backupStep E testArgs i bi entry w = Some (r, w') /\
    trace w' = trace w ++ t /\
    steps t = [Executor (duplicacyPath E) (backupArgsOf testArgs i bi)
                 (RepoDir (configFile E)) out res] /\
    Forall (fun line => In (Println line) t) out /\
    copyTable w' = copyTable w /\
    match res with
    | Some e => r = inl e /\ backupTable w' = backupTable w
    | None =>
        exists d,
          let entry' :=
            setStorageDuration (fold_left (fun e line => observed line e) out entry)
              (BackupInfo.Name bi) d in
          r = inr entry' /\ backupTable w' = backupTable w ++ [entry'] /\
          (hd_error (backupArgsOf testArgs i bi) = Some "testbackup" ->
           d = "x seconds") /\
          (hd_error (backupArgsOf testArgs i bi) <> Some "testbackup" ->
           exists h, d = getTimeDiffString E h)
    end.
Proof.
  intros Hok. unfold backupStep, backupArgsOf. rewrite (testCmdArgs_ok _ _ _ Hok).
  destruct (backupCmdArgs_head (testHeader "_backup" i testArgs) bi)
    as (a0 & rest & Hargs).
  open_turn.
  all: match goal with
       | |- context [callExecutor E ?a backupLogger ?s ?W] =>
           destruct (callExecutor_logs backupLogger
                       (fold_left (fun e line => observed line e)) a s W
                       eachLine_backupLogger_logs)
             as (out & res & evs & Hcall & Hs & Hall)
       end.
  all: exists out, res; rewrite Hcall; simpl.
  all: destruct res as [e|]; simpl.
  all: try (unfold testDuration, index, bind, ret; rewrite Hargs; simpl).
  all: eexists; eexists; eexists; split; [reflexivity|].
  all: split; [simpl; rewrite <- ?app_assoc; reflexivity|].
  all: split; [rewrite ?steps_app; simpl; rewrite Hs; reflexivity|].
  all: split; [lines_in Hall|].
  all: split; [reflexivity|].
  all: try (split; reflexivity).
  all: eexists; split; [reflexivity|]; split; [reflexivity|].
  all: rewrite ?Hargs; simpl; split.
  all: try (intros H; injection H as ->; reflexivity).
  all: intros H; destruct (String.eqb_spec a0 "testbackup") as [->|Hne];
    [now elim H | eexists; reflexivity].
Qed.

(** One turn of the copy loop. *)
Lemma copyStep_full (testArgs : list string) (i : nat) (ci : CopyInfo.t)
    (entry : copyRevision) (w : world) :
  testArgsOK testArgs = true ->
  exists out res t r w',
    copyStep E testArgs i ci entry w = Some (r, w') /\
    trace w' = trace w ++ t /\
    steps t = [Executor (duplicacyPath E) (copyArgsOf testArgs i ci)
                 (RepoDir (configFile E)) out res] /\
    Forall (fun line => In (Println line) t) out /\
    backupTable w' = backupTable w /\
    match res with
    | Some e => r = inl e /\ copyTable w' = copyTable w
    | None =>
        exists d,
          let entry' :=
            setCopyStorageDuration
              (fold_left (fun e line => observedCopy line e) out entry)
              (CopyInfo.From ci) (CopyInfo.To ci) d in
          r = inr entry' /\ copyTable w' = copyTable w ++ [entry']
    end.
Proof.
  intros Hok. unfold copyStep, copyArgsOf. rewrite (testCmdArgs_ok _ _ _ Hok).
  destruct (copyCmdArgs_head (testHeader "_copy" i testArgs) ci)
    as (a0 & rest & Hargs).
  open_turn.
  all: match goal with
       | |- context [callExecutor E ?a copyLogger ?s ?W] =>
           destruct (callExecutor_logs copyLogger
                       (fold_left (fun e line => observedCopy line e)) a s W
                       eachLine_copyLogger_logs)
             as (out & res & evs & Hcall & Hs & Hall)
       end.
  all: exists out, res; rewrite Hcall; simpl.
  all: destruct res as [e|]; simpl.
  all: try (unfold testDuration, index, bind, ret; rewrite Hargs; simpl).
  all: eexists; eexists; eexists; split; [reflexivity|].
  all: split; [simpl; rewrite <- ?app_assoc; reflexivity|].
  all: split; [rewrite ?steps_app; simpl; rewrite Hs; reflexivity|].
  all: split; [lines_in Hall|].
  all: split; [reflexivity|].
  all: try (split; reflexivity).
  all: eexists; split; reflexivity.
Qed.

(** One turn of the prune loop and of the check loop: log output around
    one invocation, and nothing else. *)
Lemma pruneStep_full (testArgs : list string) (i : nat) (pi : PruneInfo.t)
    (w : world) :
  testArgsOK testArgs = true ->
  exists out res t r,
    pruneStep E testArgs i pi tt w = Some (r, logged w t) /\
    steps t = [Executor (duplicacyPath E) (pruneArgsOf testArgs i pi)
                 (RepoDir (configFile E)) out res] /\
    Forall (fun line => In (Println line) t) out /\
    match r with
    | inl e => res = Some e
    | inr _ => res = None
    end.
Proof.
  intros Hok. unfold pruneStep, pruneArgsOf. rewrite (testCmdArgs_ok _ _ _ Hok).
  open_turn.
  all: match goal with
       | |- context [callExecutor E ?a anon ?s ?W] =>
           destruct (callExecutor_logs anon (fun _ _ => tt) a s W)
             as (out & res & evs & Hcall & Hs & Hall);
           [intros o [] W'; apply eachLine_anon_logs|]
       end.
  all: exists out, res; rewrite Hcall; simpl.
  all: destruct res as [e|]; simpl.
  all: unfold logged; simpl; rewrite <- ?app_assoc; simpl.
  all: eexists; eexists; split; [reflexivity|].
  all: split; [unfold steps in *; simpl; rewrite ?filter_app; simpl;
               rewrite Hs; reflexivity|].
  all: split; [lines_in Hall | reflexivity].
Qed.

Lemma checkStep_full (testArgs : list string) (i : nat) (ci : CheckInfo.t)
    (w : world) :
  testArgsOK testArgs = true ->
  exists out res t r,
    checkStep E testArgs i ci tt w = Some (r, logged w t) /\
    steps t = [Executor (duplicacyPath E) (checkArgsOf testArgs i ci)
                 (RepoDir (configFile E)) out res] /\
    Forall (fun line => In (Println line) t) out /\
    match r with
    | inl e => res = Some e
    | inr _ => res = None
    end.
Proof.
  intros Hok. unfold checkStep, checkArgsOf. rewrite (testCmdArgs_ok _ _ _ Hok).
  open_turn.
  all: match goal with
       | |- context [callExecutor E ?a anon ?s ?W] =>
           destruct (callExecutor_logs anon (fun _ _ => tt) a s W)
             as (out & res & evs & Hcall & Hs & Hall);
           [intros o [] W'; apply eachLine_anon_logs|]
       end.
  all: exists out, res; rewrite Hcall; simpl.
  all: destruct res as [e|]; simpl.
  all: unfold logged; simpl; rewrite <- ?app_assoc; simpl.
  all: eexists; eexists; split; [reflexivity|].
  all: split; [unfold steps in *; simpl; rewrite ?filter_app; simpl;
               rewrite Hs; reflexivity|].
  all: split; [lines_in Hall | reflexivity].
Qed.

End RunnerTurns.

Lemma invocations_steps (t : list event) : invocations t = invocations (steps t).
Proof.
  induction t as [|ev t IH]; [reflexivity|].
  destruct ev; simpl; auto. now rewrite IH.
Qed.

Lemma outputs_steps (t : list event) : outputs t = outputs (steps t).
Proof.
  induction t as [|ev t IH]; [reflexivity|].
  destruct ev; simpl; auto. now rewrite IH.
Qed.

Lemma invocations_app (a b : list event) :
  invocations (a ++ b) = invocations a ++ invocations b.
Proof.
  induction a as [|ev a IH]; [reflexivity|].
  destruct ev; simpl; auto. now rewrite IH.
Qed.

Lemma outputs_app (a b : list event) : outputs (a ++ b) = outputs a ++ outputs b.
Proof.
  induction a as [|ev a IH]; [reflexivity|].
  destruct ev; simpl; auto. now rewrite IH.
Qed.

(** A turn that logs the lines of its one invocation. *)
Lemma linesLogged_turn (t : list event) path args dir out res :
  steps t = [Executor path args dir out res] ->
  Forall (fun line => In (Println line) t) out ->
  linesLogged t.
Proof.
  intros Hs Hall path' args' dir' out' res' line Hin Hline.
  assert (Hin' : In (Executor path' args' dir' out' res') (steps t))
    by (apply filter_In; split; [exact Hin | reflexivity]).
  rewrite Hs in Hin'. destruct Hin' as [Heq|[]].
  injection Heq as _ _ _ <- _.
  rewrite Forall_forall in Hall. now apply Hall.
Qed.

Lemma linesLogged_app (a b : list event) :
  linesLogged a -> linesLogged b -> linesLogged (a ++ b).
Proof.
  intros Ha Hb path args dir out res line Hin Hline.
  apply in_app_iff in Hin as [Hin|Hin]; apply in_app_iff;
    [left; eapply Ha | right; eapply Hb]; eauto.
Qed.

Lemma linesLogged_logs (t : list event) : steps t = [] -> linesLogged t.
Proof.
  intros Hs path args dir out res line Hin _.
  assert (Hin' : In (Executor path args dir out res) (steps t))
    by (apply filter_In; split; [exact Hin | reflexivity]).
  rewrite Hs in Hin'. destruct Hin'.
Qed.

Lemma testCmdArgs_panic (suffix : string) (i : nat) (testArgs : list string)
    (w : world) :
  testArgsOK testArgs = false -> testCmdArgs suffix i testArgs w = None.
Proof.
  destruct testArgs as [|a0 [|a1 rest]]; simpl; try discriminate.
  destruct (String.eqb a0 "testbackup"); [reflexivity | discriminate].
Qed.

Lemma logged_inj (w : world) (a b : list event) : logged w a = logged w b -> a = b.
Proof.
  intros H. apply (f_equal trace) in H. simpl in H. now apply app_inv_head in H.
Qed.

Section Loops.

Variable E : env.
Variable testArgs : list string.

Section LogOnly.

(** The loops of prune and check: turns that do nothing but log and invoke. *)
Context {T : Type}.
Variable body : nat -> T -> unit -> M (error + unit).
Variable argsOf : nat -> T -> list string.
Hypothesis body_full : forall i x w,
  exists out res t r,
    body i x tt w = Some (r, logged w t) /\
    steps t = [Executor (duplicacyPath E) (argsOf i x) (RepoDir (configFile E))
                 out res] /\
    Forall (fun line => In (Println line) t) out /\
    match r with
    | inl e => res = Some e
    | inr _ => res = None
    end.

Lemma logOnlyLoop_full (xs : list T) :
  forall (i : nat) (w : world),
  exists r t n,
    forRange body i xs tt w = Some (r, logged w t) /\
    linesLogged t /\
    map snd (invocations t) = repeat None n ++ failed r /\
    map fst (invocations t)
    = firstn (List.length (invocations t)) (plannedArgs argsOf i xs) /\
    match r with
    | None => n = List.length xs
    | Some _ => n < List.length xs
    end.
Proof.
  induction xs as [|x xs IH]; intros i w; simpl.
  - exists None, [], 0; rewrite logged_nil; repeat split.
    now apply linesLogged_logs.
  - destruct (body_full i x w) as (out & res & t1 & r1 & Hrun & Hs & Hall & Hres).
    rewrite (bind_Some _ _ _ _ _ Hrun).
    assert (Hinv : invocations t1 = [(argsOf i x, res)])
      by (rewrite invocations_steps, Hs; reflexivity).
    assert (Hlog : linesLogged t1) by (eapply linesLogged_turn; eauto).
    destruct r1 as [e|[]].
    + subst res. exists (Some e), t1, 0; unfold ret; rewrite Hinv; simpl.
      repeat split; auto. lia.
    + subst res. destruct (IH (S i) (logged w t1))
        as (r & t2 & n & Hrun2 & Hlog2 & Hres2 & Hargs & Hn).
      exists r, (t1 ++ t2), (S n).
      rewrite invocations_app, Hinv; simpl.
      repeat split.
      * now rewrite Hrun2, logged_logged.
      * now apply linesLogged_app.
      * now rewrite Hres2.
      * now rewrite Hargs at 1.
      * destruct r; lia.
Qed.

(** The steps of such a loop are invocations of the tool with the planned
    arguments, and nothing else. *)
Lemma logOnlyLoop_steps (xs : list T) :
  forall (i : nat) (w : world) (r : option error) (t : list event),
    forRange body i xs tt w = Some (r, logged w t) ->
    Forall2 (invocation_of E) (steps t)
      (firstn (List.length (steps t)) (plannedArgs argsOf i xs)).
Proof.
  induction xs as [|x xs IH]; intros i w r t Hrun; simpl in Hrun.
  - assert (Ht : logged w [] = logged w t)
      by (rewrite logged_nil; unfold ret in Hrun; congruence).
    apply logged_inj in Ht. subst t. constructor.
  - destruct (body_full i x w) as (out & res & t1 & r1 & Hrun1 & Hs & _ & Hres).
    rewrite (bind_Some _ _ _ _ _ Hrun1) in Hrun.
    destruct r1 as [e|[]].
    + assert (Ht : logged w t1 = logged w t) by (unfold ret in Hrun; congruence).
      apply logged_inj in Ht. subst t.
      rewrite Hs; simpl. constructor; [now exists out, res | constructor].
    + destruct (logOnlyLoop_full xs (S i) (logged w t1))
        as (r2 & t2 & n & Hrun2 & _).
      rewrite Hrun2, logged_logged in Hrun.
      assert (Ht : logged w (t1 ++ t2) = logged w t) by congruence.
      apply logged_inj in Ht. subst t.
      rewrite steps_app, Hs; simpl.
      constructor; [now exists out, res | exact (IH _ _ _ _ Hrun2)].
Qed.

End LogOnly.

Hypothesis testArgs_ok : testArgsOK testArgs = true.

(** The copy loop, like the backup loop with [copyTable]. *)
Lemma copyLoop_full (targets : list CopyInfo.t) :
  forall (i : nat) (entry : copyRevision) (w : world),
  exists r w' t new,
    forRange (copyStep E testArgs) i targets entry w = Some (r, w') /\
    trace w' = trace w ++ t /\
    copyTable w' = copyTable w ++ new /\
    backupTable w' = backupTable w /\
    linesLogged t /\
    map (fun e => (Copy.storageFrom e, Copy.storageTo e)) new
    = map (fun ci => (CopyInfo.From ci, CopyInfo.To ci))
        (firstn (List.length new) targets) /\
    map snd (invocations t) = repeat None (List.length new) ++ failed r /\
    map fst (invocations t)
    = firstn (List.length (invocations t)) (plannedArgs (copyArgsOf testArgs) i targets) /\
    match r with
    | None => List.length new = List.length targets
    | Some _ => List.length new < List.length targets
    end.
Proof.
  induction targets as [|ci targets IH]; intros i entry w; simpl.
  - exists None, w, [], []; rewrite !app_nil_r; repeat split.
    now apply linesLogged_logs.
  - destruct (copyStep_full E testArgs i ci entry w testArgs_ok)
      as (out & res & t1 & r1 & w1 & Hrun & Ht & Hs & Hall & Hb & Hres).
    rewrite (bind_Some _ _ _ _ _ Hrun).
    assert (Hinv : invocations t1 = [(copyArgsOf testArgs i ci, res)])
      by (rewrite invocations_steps, Hs; reflexivity).
    assert (Hlog : linesLogged t1) by (eapply linesLogged_turn; eauto).
    destruct res as [e|].
    + destruct Hres as [-> Hc].
      exists (Some e), w1, t1, []; unfold ret; rewrite app_nil_r, Hinv; simpl.
      repeat split; auto. lia.
    + destruct Hres as (d & -> & Hc).
      match type of Hc with _ = _ ++ [?x] => set (entry' := x) in * end.
      destruct (IH (S i) entry' w1)
        as (r & w' & t2 & new & Hrun2 & Ht2 & Hc2 & Hb2 & Hlog2 & Hst & Hres2
            & Hargs & Hn).
      exists r, w', (t1 ++ t2), (entry' :: new).
      rewrite invocations_app, Hinv; simpl.
      repeat split; auto.
      * rewrite Ht2, Ht; now rewrite app_assoc.
      * rewrite Hc2, Hc; now rewrite <- app_assoc.
      * congruence.
      * now apply linesLogged_app.
      * now rewrite Hst.
      * now rewrite Hres2.
      * now rewrite Hargs at 1.
      * destruct r; lia.
Qed.

End Loops.

(** The sink assigns neither the storage nor the duration of the record. *)
Lemma observed_stamp (line : string) (e : backupRevision) (name d : string) :
  observed line (setStorageDuration e name d)
  = setStorageDuration (observed line e) name d.
Proof.
  unfold observed.
  destruct (HasPrefix line "Files:").
  { destruct (FindStringSubmatch filesRe line)
      as [|e0 [|e1 [|e2 [|e3 [|e4 [|e5 l]]]]]]; reflexivity. }
  destruct (HasPrefix line "All chunks:"); [|reflexivity].
  destruct (FindStringSubmatch chunksRe line)
    as [|f0 [|f1 [|f2 [|f3 [|f4 [|f5 [|f6 l]]]]]]]; reflexivity.
Qed.

Lemma observed_all_stamp (lines : list string) :
  forall (e : backupRevision) (name d : string),
  fold_left (fun e line => observed line e) lines (setStorageDuration e name d)
  = setStorageDuration (fold_left (fun e line => observed line e) lines e) name d.
Proof.
  induction lines as [|line lines IH]; intros e name d; simpl; [reflexivity|].
  now rewrite observed_stamp, IH.
Qed.

Lemma backupArgsOf_head (testArgs : list string) (i : nat) (bi : BackupInfo.t) :
  hd_error (backupArgsOf testArgs i bi) = Some (hd "backup" testArgs).
Proof.
  unfold backupArgsOf, backupCmdArgs, testHeader.
  destruct testArgs as [|a0 [|a1 rest]];
    try destruct (String.eqb a0 "testbackup");
    destruct (BackupInfo.Vss bi);
    destruct (negb (String.eqb (BackupInfo.VssTimeout bi) ""));
    destruct (negb (String.eqb (BackupInfo.Quote bi) "")); reflexivity.
Qed.

Section BackupRecords.

Variable E : env.
Variable testArgs : list string.
Hypothesis testArgs_ok : testArgsOK testArgs = true.

(** The backup loop, with what each record holds. *)
Lemma backupLoop_full (targets : list BackupInfo.t) :
  forall (i : nat) (entry : backupRevision) (w : world),
  exists r w' t new,
    forRange (backupStep E testArgs) i targets entry w = Some (r, w') /\
    trace w' = trace w ++ t /\
    backupTable w' = backupTable w ++ new /\
    copyTable w' = copyTable w /\
    linesLogged t /\
    forall k rec,
      nth_error new k = Some rec ->
      setStorageDuration rec "" ""
      = setStorageDuration
          (fold_left (fun e line => observed line e)
             (concat (firstn (S k) (outputs t))) entry) "" "" /\
      (hd "backup" testArgs = "testbackup" -> duration rec = "x seconds") /\
      (hd "backup" testArgs <> "testbackup" ->
       exists h, duration rec = getTimeDiffString E h).
Proof.
  induction targets as [|bi targets IH]; intros i entry w; simpl.
  - exists None, w, [], []; rewrite !app_nil_r; repeat split;
      try (now apply linesLogged_logs); now destruct k.
  - destruct (backupStep_full E testArgs i bi entry w testArgs_ok)
      as (out & res & t1 & r1 & w1 & Hrun & Ht & Hs & Hall & Hc & Hres).
    rewrite (bind_Some _ _ _ _ _ Hrun).
    assert (Hout : outputs t1 = [out]) by (rewrite outputs_steps, Hs; reflexivity).
    assert (Hlog : linesLogged t1) by (eapply linesLogged_turn; eauto).
    destruct res as [e|].
    + destruct Hres as [-> Hb].
      exists (Some e), w1, t1, []; unfold ret; rewrite app_nil_r.
      repeat split; auto; now destruct k.
    + destruct Hres as (d & -> & Hb & Hd1 & Hd2).
      rewrite backupArgsOf_head in Hd1, Hd2.
      match type of Hb with _ = _ ++ [?x] => set (entry' := x) in * end.
      destruct (IH (S i) entry' w1)
        as (r & w' & t2 & new & Hrun2 & Ht2 & Hb2 & Hc2 & Hlog2 & Hrec).
      exists r, w', (t1 ++ t2), (entry' :: new).
      split; [exact Hrun2|].
      split; [rewrite Ht2, Ht; now rewrite app_assoc|].
      split; [rewrite Hb2, Hb; now rewrite <- app_assoc|].
      split; [congruence|].
      split; [now apply linesLogged_app|].
      intros k rec Hk. rewrite outputs_app, Hout.
      destruct k as [|k]; simpl in Hk.
      * injection Hk as <-. simpl. rewrite app_nil_r.
        split; [reflexivity|]. split.
        -- intros H; apply Hd1; now f_equal.
        -- intros H; apply Hd2; congruence.
      * destruct (Hrec k rec Hk) as (Hstats & Hdur).
        split; [|exact Hdur].
        rewrite Hstats. cbn [app firstn concat].
        rewrite fold_left_app. unfold entry'.
        now rewrite observed_all_stamp.
Qed.

End BackupRecords.

(** X11.  What a backup record holds.  The statistics of the record number
    [k+1] that a call of [performDuplicacyBackup] appends are what
    [backupLogger] leaves, starting from the empty record, after the output
    lines of the first [k+1] invocations of the call taken in order: the
    lines of the target itself, after those of the targets before it.
    ([setStorageDuration rec "" ""] is [rec] without its storage name and
    its duration.) *)
Theorem backup_record_statistics (E : env) (testArgs : list string) (w : world) :
  testArgsOK testArgs = true ->
  exists r w' t new,
    performDuplicacyBackup E testArgs w = Some (r, w') /\
    trace w' = trace w ++ t /\
    backupTable w' = backupTable w ++ new /\
    forall w0 k rec,
      nth_error new k = Some rec ->
      exists entry w1,
        eachLine backupLogger (concat (firstn (S k) (outputs t)))
          zeroBackupRevision w0 = Some (entry, w1) /\
        setStorageDuration rec "" "" = entry.
Proof.
  intros Hok. unfold performDuplicacyBackup.
  destruct (backupLoop_full E testArgs Hok (BackupInfo (configFile E)) 0
              zeroBackupRevision w)
    as (r & w' & t & new & Hrun & Ht & Hb & _ & _ & Hrec).
  exists r, w', t, new.
  split; [exact Hrun|]. split; [exact Ht|]. split; [exact Hb|].
  intros w0 k rec Hk. destruct (Hrec k rec Hk) as (Hstats & _).
  destruct (eachLine_backupLogger (concat (firstn (S k) (outputs t)))
              zeroBackupRevision w0) as (evs & Hrun' & _).
  eexists; eexists; split; [exact Hrun'|].
  rewrite Hstats. symmetry.
  change zeroBackupRevision with (setStorageDuration zeroBackupRevision "" "") at 1.
  apply observed_all_stamp.
Qed.

Lemma backup_record_statistics_witness :
  exists w' rec entry w1,
    performDuplicacyBackup (sampleEnv silentOnSecondary) [] emptyWorld
    = Some (None, w') /\
    nth_error (backupTable w') 0 = Some rec /\
    eachLine backupLogger (concat (firstn 1 (outputs (trace w'))))
      zeroBackupRevision emptyWorld = Some (entry, w1) /\
    setStorageDuration rec "" "" = entry /\
    filesNewSize entry = "200M".
Proof.
  destruct (backup_record_statistics (sampleEnv silentOnSecondary) [] emptyWorld
              eq_refl)
    as (r & w' & t & new & Hrun & Ht & Hb & Hrec).
  assert (Hrun' := Hrun). vm_compute in Hrun'.
  injection Hrun' as Hr Hw. subst w' r. simpl in Ht, Hb. subst t new.
  match type of Hrec with
  | forall w0 k rec, nth_error (?r0 :: _) k = _ -> _ =>
      destruct (Hrec emptyWorld 0 r0 eq_refl) as (entry & w1 & Heach & Heq)
  end.
  eexists; eexists; exists entry, w1.
  split; [exact Hrun|]. split; [reflexivity|]. split; [exact Heach|].
  split; [exact Heq|]. now rewrite <- Heq.
Defined.

(** X12.  The duration of a backup record.  When the first test argument
    is "testbackup", every record that [performDuplicacyBackup] appends
    has the duration "x seconds"; otherwise the duration of every record
    is a string that [getTimeDiffString] returned. *)
Theorem backup_record_duration (E : env) (testArgs : list string) (w : world) :
  testArgsOK testArgs = true ->
  exists r w' new,
    performDuplicacyBackup E testArgs w = Some (r, w') /\
    backupTable w' = backupTable w ++ new /\
    (hd_error testArgs = Some "testbackup" ->
     Forall (fun rec => duration rec = "x seconds") new) /\
    (hd_error testArgs <> Some "testbackup" ->
     Forall (fun rec => exists h, duration rec = getTimeDiffString E h) new).
Proof.
  intros Hok. unfold performDuplicacyBackup.
  destruct (backupLoop_full E testArgs Hok (BackupInfo (configFile E)) 0
              zeroBackupRevision w)
    as (r & w' & t & new & Hrun & _ & Hb & _ & _ & Hrec).
  exists r, w', new. split; [exact Hrun|]. split; [exact Hb|].
  split; intros Hhd; apply Forall_forall; intros rec Hin;
    apply In_nth_error in Hin as [k Hk];
    destruct (Hrec k rec Hk) as (_ & Hx & Hclock).
  - apply Hx. destruct testArgs; [discriminate | now injection Hhd].
  - apply Hclock. intros H; apply Hhd.
    destruct testArgs; [discriminate | simpl in *; now subst].
Qed.

Lemma backup_record_duration_witness :
  exists w',
    performDuplicacyBackup (sampleEnv quietTool) ["testbackup"; "run"] emptyWorld
    = Some (None, w') /\
    map duration (backupTable w') = ["x seconds"; "x seconds"] /\
    map (fun inv => nth 1 (fst inv) "") (invocations (trace w'))
    = ["run_backup1"; "run_backup2"].
Proof.
  destruct (backup_record_duration (sampleEnv quietTool) ["testbackup"; "run"]
              emptyWorld eq_refl)
    as (r & w' & new & Hrun & Hb & Htest & _).
  assert (Hrun' := Hrun). vm_compute in Hrun'.
  injection Hrun' as Hr Hw. subst w' r. simpl in Hb. subst new.
  specialize (Htest eq_refl).
  eexists; split; [exact Hrun|]. split; [|reflexivity].
  inversion Htest as [|? ? H1 Htest']; subst.
  inversion Htest' as [|? ? H2 _]; subst.
  cbn [map backupTable]. rewrite H1, H2. reflexivity.
Defined.

Lemma all_succeeded (n : nat) (r : option error)
    (invs : list (list string * option error)) :
  map snd invs = repeat None n ++ failed r ->
  Forall (fun inv => snd inv = None) invs -> r = None.
Proof.
  intros Hres Hall. destruct r as [e|]; [exfalso | reflexivity].
  assert (Hin : In (Some e) (map snd invs))
    by (rewrite Hres; apply in_or_app; right; now left).
  apply in_map_iff in Hin as (inv & Hinv & Hin).
  rewrite Forall_forall in Hall; apply Hall in Hin; congruence.
Qed.

Lemma failed_at (n k : nat) (r : option error)
    (invs : list (list string * option error)) (planned : list (list string))
    (args : list string) (e : error) :
  map snd invs = repeat None n ++ failed r ->
  map fst invs = firstn (List.length invs) planned ->
  nth_error invs k = Some (args, Some e) ->
  r = Some e /\ k = n /\ List.length invs = S k /\ nth_error planned k = Some args.
Proof.
  intros Hres Hargs Hk.
  assert (Hk2 := map_nth_error snd _ _ Hk). simpl in Hk2.
  rewrite Hres in Hk2. apply nth_error_repeat_failed in Hk2 as [-> ->].
  assert (Hlen : List.length invs = S n).
  { rewrite <- (length_map snd), Hres, length_app, repeat_length; simpl; lia. }
  repeat split; auto.
  assert (Hk1 := map_nth_error fst _ _ Hk). simpl in Hk1.
  rewrite Hargs, nth_error_firstn, Hlen in Hk1.
  now rewrite (proj2 (Nat.ltb_lt _ _) (Nat.lt_succ_diag_r _)) in Hk1.
Qed.

(** X13.  [performDuplicacyCopy] returns (the test arguments permitting)
    without touching [backupTable].  The records it appends to [copyTable]
    carry the source and the destination of the first targets, in the
    order of the configuration.  If every invocation succeeded it returns
    [nil] and there is one record per target; if invocation [k+1] failed
    with [e], it returns [e], it has appended [k] records, the invocation
    is the one planned for target [k+1] and no invocation follows it. *)
Theorem performDuplicacyCopy_records (E : env) (testArgs : list string) (w : world) :
  testArgsOK testArgs = true ->
  exists r w' t new,
    performDuplicacyCopy E testArgs w = Some (r, w') /\
    trace w' = trace w ++ t /\
    copyTable w' = copyTable w ++ new /\
    backupTable w' = backupTable w /\
    map (fun e => (Copy.storageFrom e, Copy.storageTo e)) new
    = map (fun ci => (CopyInfo.From ci, CopyInfo.To ci))
        (firstn (List.length new) (CopyInfo (configFile E))) /\
    (Forall (fun inv => snd inv = None) (invocations t) ->
     r = None /\ List.length new = List.length (CopyInfo (configFile E))) /\
    (forall k args e,
       nth_error (invocations t) k = Some (args, Some e) ->
       r = Some e /\ List.length new = k /\
       List.length (invocations t) = S k /\
       nth_error (plannedArgs (copyArgsOf testArgs) 0 (CopyInfo (configFile E))) k
       = Some args).
Proof.
  intros Hok. unfold performDuplicacyCopy.
  destruct (copyLoop_full E testArgs Hok (CopyInfo (configFile E)) 0
              zeroCopyRevision w)
    as (r & w' & t & new & Hrun & Ht & Hc & Hb & _ & Hst & Hres & Hargs & Hn).
  exists r, w', t, new.
  split; [exact Hrun|]. split; [exact Ht|]. split; [exact Hc|].
  split; [exact Hb|]. split; [exact Hst|]. split.
  - intros Hall. assert (Hr := all_succeeded _ _ _ Hres Hall). subst r.
    now split.
  - intros k args e Hk.
    destruct (failed_at _ _ _ _ _ _ _ Hres Hargs Hk) as (-> & -> & Hlen & Hp).
    repeat split; auto.
Qed.

Lemma performDuplicacyCopy_records_witness :
  exists w',
    performDuplicacyCopy (sampleEnv quietTool) [] emptyWorld = Some (None, w') /\
    map (fun e => (Copy.storageFrom e, Copy.storageTo e)) (copyTable w')
    = [("primary", "offsite")] /\
    backupTable w' = [].
Proof.
  destruct (performDuplicacyCopy_records (sampleEnv quietTool) [] emptyWorld eq_refl)
    as (r & w' & t & new & Hrun & Ht & Hc & Hb & Hst & Hall & _).
  assert (Hrun' := Hrun). vm_compute in Hrun'.
  injection Hrun' as Hr Hw. subst w'. simpl in Ht, Hc, Hb. subst t new.
  destruct Hall as (-> & _); [repeat constructor|].
  eexists; split; [exact Hrun|]. split; [exact Hst | exact Hb].
Defined.

Lemma plannedArgs_pruneArgsOf (testArgs : list string) (xs : list PruneInfo.t) :
  forall i, plannedArgs (pruneArgsOf testArgs) i xs = map (pruneCmdArgs testArgs) xs.
Proof.
  induction xs as [|x xs IH]; intros i; simpl; [reflexivity|]. now rewrite IH.
Qed.

(** X14.  [performDuplicacyPrune] and [performDuplicacyCheck] return (the
    test arguments permitting) and do nothing to the world but log and
    invoke the tool: both tables are as they were, and every step of the
    run that is not log output is an invocation of the tool, in the
    repository, with the arguments planned for an entry.  The invocations
    are those planned for the first entries, in order; for prune the arguments
    start with the test arguments as they were passed, without the renaming
    that the other operations apply to the second of them.  If invocation
    [k+1] failed with [e], the function returns [e] and no invocation
    follows; if no invocation failed it returns [nil] after one invocation
    per entry. *)
Theorem prune_and_check_invocations (E : env) (testArgs : list string) (w : world) :
  testArgsOK testArgs = true ->
  (exists r t,
     performDuplicacyPrune E testArgs w = Some (r, logged w t) /\
     Forall2 (invocation_of E) (steps t)
       (firstn (List.length (steps t))
          (map (pruneCmdArgs testArgs) (PruneInfo (configFile E)))) /\
     map fst (invocations t)
     = firstn (List.length (invocations t))
         (map (pruneCmdArgs testArgs) (PruneInfo (configFile E))) /\
     (forall k args e,
        nth_error (invocations t) k = Some (args, Some e) ->
        r = Some e /\ List.length (invocations t) = S k) /\
     (Forall (fun inv => snd inv = None) (invocations t) ->
      r = None /\
      List.length (invocations t) = List.length (PruneInfo (configFile E)))) /\
  (exists r t,
     performDuplicacyCheck E testArgs w = Some (r, logged w t) /\
     Forall2 (invocation_of E) (steps t)
       (firstn (List.length (steps t))
          (plannedArgs (checkArgsOf testArgs) 0 (CheckInfo (configFile E)))) /\
     map fst (invocations t)
     = firstn (List.length (invocations t))
         (plannedArgs (checkArgsOf testArgs) 0 (CheckInfo (configFile E))) /\
     (forall k args e,
        nth_error (invocations t) k = Some (args, Some e) ->
        r = Some e /\ List.length (invocations t) = S k) /\
     (Forall (fun inv => snd inv = None) (invocations t) ->
      r = None /\
      List.length (invocations t) = List.length (CheckInfo (configFile E)))).
Proof.
  intros Hok. split.
  - unfold performDuplicacyPrune.
    destruct (logOnlyLoop_full E (pruneStep E testArgs) (pruneArgsOf testArgs)
                (fun i x w => pruneStep_full E testArgs i x w Hok)
                (PruneInfo (configFile E)) 0 w)
      as (r & t & n & Hrun & _ & Hres & Hargs & Hn).
    exists r, t. split; [exact Hrun|].
    split; [rewrite <- plannedArgs_pruneArgsOf with (i := 0);
            exact (logOnlyLoop_steps E (pruneStep E testArgs) (pruneArgsOf testArgs)
                     (fun i x w => pruneStep_full E testArgs i x w Hok)
                     _ _ _ _ _ Hrun)|].
    split; [now rewrite <- plannedArgs_pruneArgsOf with (i := 0)|].
    split.
    + intros k args e Hk.
      destruct (failed_at _ _ _ _ _ _ _ Hres Hargs Hk) as (-> & _ & Hlen & _).
      now split.
    + intros Hall. assert (Hr := all_succeeded _ _ _ Hres Hall). subst r.
      split; [reflexivity|].
      rewrite <- (length_map snd), Hres, length_app, repeat_length; simpl in *; lia.
  - unfold performDuplicacyCheck.
    destruct (logOnlyLoop_full E (checkStep E testArgs) (checkArgsOf testArgs)
                (fun i x w => checkStep_full E testArgs i x w Hok)
                (CheckInfo (configFile E)) 0 w)
      as (r & t & n & Hrun & _ & Hres & Hargs & Hn).
    exists r, t. split; [exact Hrun|].
    split; [exact (logOnlyLoop_steps E (checkStep E testArgs) (checkArgsOf testArgs)
                     (fun i x w => checkStep_full E testArgs i x w Hok)
                     _ _ _ _ _ Hrun)|].
    split; [exact Hargs|].
    split.
    + intros k args e Hk.
      destruct (failed_at _ _ _ _ _ _ _ Hres Hargs Hk) as (-> & _ & Hlen & _).
      now split.
    + intros Hall. assert (Hr := all_succeeded _ _ _ Hres Hall). subst r.
      split; [reflexivity|].
      rewrite <- (length_map snd), Hres, length_app, repeat_length; simpl in *; lia.
Qed.

Lemma prune_and_check_invocations_witness :
  (exists t,
     performDuplicacyPrune (sampleEnv quietTool) ["testbackup"; "run"] emptyWorld
     = Some (None, logged emptyWorld t) /\
     Forall2 (invocation_of (sampleEnv quietTool)) (steps t)
       [["testbackup"; "run"; "prune"; "-storage"; "primary"; "-keep"; "7";
         "-keep"; "30"; "-keep"; "365"; "-threads"; "1"; "-all"]] /\
     map fst (invocations t)
     = [["testbackup"; "run"; "prune"; "-storage"; "primary"; "-keep"; "7";
         "-keep"; "30"; "-keep"; "365"; "-threads"; "1"; "-all"]]) /\
  (exists t,
     performDuplicacyCheck (sampleEnv quietTool) ["testbackup"; "run"] emptyWorld
     = Some (None, logged emptyWorld t) /\
     Forall2 (invocation_of (sampleEnv quietTool)) (steps t)
       [["testbackup"; "run_check1"; "check"; "-storage"; "primary"]] /\
     map fst (invocations t)
     = [["testbackup"; "run_check1"; "check"; "-storage"; "primary"]]).
Proof.
  destruct (prune_and_check_invocations (sampleEnv quietTool) ["testbackup"; "run"]
              emptyWorld eq_refl)
    as [(r & t & Hrun & Hsteps & Hargs & _ & Hall)
        (r' & t' & Hrun' & Hsteps' & Hargs' & _ & Hall')].
  split.
  - assert (H := Hrun). vm_compute in H. injection H as Hr Ht. subst r.
    exists t; split; [exact Hrun|].
    split; [|rewrite Hargs, <- Ht; reflexivity].
    rewrite <- Ht in Hsteps |- *. exact Hsteps.
  - assert (H := Hrun'). vm_compute in H. injection H as Hr Ht. subst r'.
    exists t'; split; [exact Hrun'|].
    split; [|rewrite Hargs', <- Ht; reflexivity].
    rewrite <- Ht in Hsteps' |- *. exact Hsteps'.
Defined.

(* ===================================================================== *)
(** ** From the configuration document to the prune invocation           *)
(* ===================================================================== *)

(** The invocation for entry [k+1] of the prune list: it is made, with the
    arguments built from that entry, unless an earlier invocation failed. *)
Lemma prune_invocation_at (E : env) (testArgs : list string) (w : world)
    (k : nat) (pi : PruneInfo.t) :
  testArgsOK testArgs = true ->
  nth_error (PruneInfo (configFile E)) k = Some pi ->
  exists r t,
    performDuplicacyPrune E testArgs w = Some (r, logged w t) /\
    ((forall j args e, j < k -> nth_error (invocations t) j <> Some (args, Some e)) ->
     exists res,
       nth_error (invocations t) k = Some (pruneCmdArgs testArgs pi, res)).
Proof.
  intros Hok Hk. unfold performDuplicacyPrune.
  destruct (logOnlyLoop_full E (pruneStep E testArgs) (pruneArgsOf testArgs)
              (fun i x w => pruneStep_full E testArgs i x w Hok)
              (PruneInfo (configFile E)) 0 w)
    as (r & t & n & Hrun & _ & Hres & Hargs & Hn).
  exists r, t; split; [exact Hrun|]. intros Hearlier.
  rewrite plannedArgs_pruneArgsOf in Hargs.
  assert (Hlen : List.length (invocations t) = n + List.length (failed r))
    by (rewrite <- (length_map snd), Hres, length_app, repeat_length; reflexivity).
  assert (Hklt : k < List.length (PruneInfo (configFile E)))
    by (apply nth_error_Some; congruence).
  assert (Hin : k < List.length (invocations t)).
  { destruct r as [e|]; simpl in Hlen; [|lia].
    destruct (Nat.lt_ge_cases n k) as [Hlt|Hge]; [exfalso | lia].
    assert (Hn' : nth_error (map snd (invocations t)) n = Some (Some e)).
    { rewrite Hres, nth_error_app2, repeat_length, Nat.sub_diag;
        [reflexivity | rewrite repeat_length; lia]. }
    rewrite nth_error_map in Hn'.
    destruct (nth_error (invocations t) n) as [[a res]|] eqn:En; [|discriminate].
    simpl in Hn'. injection Hn' as ->. exact (Hearlier n a e Hlt En). }
  destruct (nth_error (invocations t) k) as [[a res]|] eqn:Ek;
    [|apply nth_error_None in Ek; lia].
  exists res. f_equal. f_equal.
  assert (H1 := map_nth_error fst _ _ Ek). simpl in H1.
  rewrite Hargs, nth_error_firstn in H1.
  rewrite (proj2 (Nat.ltb_lt _ _) Hin) in H1.
  rewrite (map_nth_error _ _ _ Hk) in H1. congruence.
Qed.

(** The sample configuration is what [loadConfig] leaves of the sample
    document. *)
Example sampleDocument_loaded : loadConfig sampleDocument = sampleConfig.
Proof. reflexivity. Qed.

Lemma loadConfig_prune_entry (config : configurationFile) (k : nat)
    (pi : PruneInfo.t) :
  nth_error (PruneInfo config) k = Some pi ->
  nth_error (PruneInfo (loadConfig config)) k = Some (loadPruneInfo pi).
Proof.
  intros Hk. unfold loadConfig; cbn [PruneInfo]. now apply map_nth_error.
Qed.

(** C5.  A prune entry of the configuration whose [keep] is "7 30 365" is
    left by [loadConfig] with [Keep] equal to "-keep 7 -keep 30 -keep 365".
    In the run with the configuration that [loadConfig] left,
    [performDuplicacyPrune] returns, and unless the invocation for an
    earlier entry failed, it invokes the tool for this entry with the test
    arguments, [prune -storage <name>], right after them the six arguments
    [-keep 7 -keep 30 -keep 365], and then the other flags. *)
Theorem prune_keep_expansion (E : env) (config : configurationFile) (k : nat)
    (stored : PruneInfo.t) (testArgs : list string) (w : world) :
  configFile E = loadConfig config ->
  nth_error (PruneInfo config) k = Some stored ->
  PruneInfo.Keep stored = "7 30 365" ->
  testArgsOK testArgs = true ->
  (exists loaded,
     nth_error (PruneInfo (configFile E)) k = Some loaded /\
     PruneInfo.Storage loaded = PruneInfo.Storage stored /\
     PruneInfo.Keep loaded = "-keep 7 -keep 30 -keep 365") /\
  exists r t,
    performDuplicacyPrune E testArgs w = Some (r, logged w t) /\
    ((forall j args e, j < k -> nth_error (invocations t) j <> Some (args, Some e)) ->
     exists rest res,
       nth_error (invocations t) k
       = Some (testArgs ++ ["prune"; "-storage"; PruneInfo.Storage stored]
               ++ ["-keep"; "7"; "-keep"; "30"; "-keep"; "365"] ++ rest, res)).
Proof.
  intros HE Hk Hkeep Hok.
  assert (Hl : nth_error (PruneInfo (configFile E)) k = Some (loadPruneInfo stored))
    by (rewrite HE; now apply loadConfig_prune_entry).
  destruct stored as [name keep threads all quote]; simpl in Hkeep; subst keep.
  destruct (pruneCmdArgs_three_rules testArgs name threads quote all)
    as [Hloaded (rest & Hrest)].
  split.
  - eexists; split; [exact Hl|]. split; [reflexivity | exact Hloaded].
  - destruct (prune_invocation_at E testArgs w k _ Hok Hl) as (r & t & Hrun & Hinv).
    exists r, t; split; [exact Hrun|]. intros Hearlier.
    destruct (Hinv Hearlier) as (res & Hres).
    exists rest, res. rewrite Hres, Hrest. reflexivity.
Qed.

Lemma prune_keep_expansion_witness :
  exists r t,
    performDuplicacyPrune (sampleEnv quietTool) [] emptyWorld
    = Some (r, logged emptyWorld t) /\
    exists rest res,
      nth_error (invocations t) 0
      = Some (["prune"; "-storage"; "primary";
               "-keep"; "7"; "-keep"; "30"; "-keep"; "365"] ++ rest, res).
Proof.
  destruct (prune_keep_expansion (sampleEnv quietTool) sampleDocument 0
              {| PruneInfo.Storage := "primary"; PruneInfo.Keep := "7 30 365";
                 PruneInfo.Threads := ""; PruneInfo.All := true;
                 PruneInfo.Quote := "" |}
              [] emptyWorld eq_refl eq_refl eq_refl eq_refl)
    as [_ (r & t & Hrun & Hinv)].
  exists r, t; split; [exact Hrun|].
  apply Hinv. intros j args e Hj. inversion Hj.
Defined.

(** X6.  Whatever rules the [keep] string of a prune entry of the
    configuration holds, as long as it is not empty: in the run with the
    configuration that [loadConfig] left, [performDuplicacyPrune] returns,
    and unless the invocation for an earlier entry failed, the invocation
    for this entry has exactly these arguments: the test arguments,
    [prune -storage <name>], one pair [-keep <rule>] for every piece of the
    string between two spaces (an empty piece included), [-threads] with
    the thread count or "1" when there is none, [-all] when [All] is set,
    and the passthrough string behind a space when there is one. *)
Theorem prune_args_after_loadConfig (E : env) (config : configurationFile)
    (k : nat) (pi : PruneInfo.t) (testArgs : list string) (w : world) :
  configFile E = loadConfig config ->
  nth_error (PruneInfo config) k = Some pi ->
  PruneInfo.Keep pi <> "" ->
  testArgsOK testArgs = true ->
  exists r t,
    performDuplicacyPrune E testArgs w = Some (r, logged w t) /\
    ((forall j args e, j < k -> nth_error (invocations t) j <> Some (args, Some e)) ->
     exists res,
       nth_error (invocations t) k
       = Some (testArgs ++ ["prune"; "-storage"; PruneInfo.Storage pi]
               ++ flat_map (fun rule => ["-keep"; rule])
                    (SplitSpace (PruneInfo.Keep pi))
               ++ ["-threads"; if String.eqb (PruneInfo.Threads pi) "" then "1"
                               else PruneInfo.Threads pi]
               ++ (if PruneInfo.All pi then ["-all"] else [])
               ++ (if String.eqb (PruneInfo.Quote pi) "" then []
                   else [" " +++ PruneInfo.Quote pi]), res)).
Proof.
  intros HE Hk Hkeep Hok.
  assert (Hl : nth_error (PruneInfo (configFile E)) k = Some (loadPruneInfo pi))
    by (rewrite HE; now apply loadConfig_prune_entry).
  destruct (prune_invocation_at E testArgs w k _ Hok Hl) as (r & t & Hrun & Hinv).
  exists r, t; split; [exact Hrun|]. intros Hearlier.
  destruct (Hinv Hearlier) as (res & Hres).
  exists res. rewrite Hres, (pruneCmdArgs_loadPruneInfo testArgs pi Hkeep).
  reflexivity.
Qed.

Lemma prune_args_after_loadConfig_witness :
  exists r t,
    performDuplicacyPrune
      (withConfig (sampleEnv quietTool) (loadConfig retentionDocument))
      ["-log"] emptyWorld
    = Some (r, logged emptyWorld t) /\
    exists res,
      nth_error (invocations t) 1
      = Some (["-log"; "prune"; "-storage"; "b2"; "-keep"; "0:365";
               "-keep"; "30:180"; "-keep"; ""; "-keep"; "1:7";
               "-threads"; "1"; "-all"], res).
Proof.
  destruct (prune_args_after_loadConfig
              (withConfig (sampleEnv quietTool) (loadConfig retentionDocument))
              retentionDocument 1
              {| PruneInfo.Storage := "b2"; PruneInfo.Keep := "0:365 30:180  1:7";
                 PruneInfo.Threads := ""; PruneInfo.All := true;
                 PruneInfo.Quote := "" |}
              ["-log"] emptyWorld eq_refl eq_refl)
    as (r & t & Hrun & Hinv); [discriminate | reflexivity |].
  exists r, t; split; [exact Hrun|].
  apply Hinv. intros j args e Hj.
  assert (H := Hrun). vm_compute in H. injection H as _ Ht. rewrite <- Ht.
  destruct j as [|j]; [discriminate | inversion Hj as [|? Hj']; inversion Hj'].
Defined.

Section PerformBackupKeeps.

Variable E : env.
Variable R : world -> world -> Prop.
Hypothesis R_trans : forall w1 w2 w3, R w1 w2 -> R w2 w3 -> R w1 w3.
Hypothesis R_logged : forall w evs, invocations evs = [] -> R w (logged w evs).
Hypothesis R_backup : cmdBackup E = true ->
  forall w r w', performDuplicacyBackup E [] w = Some (r, w') -> R w w'.
Hypothesis R_copy : cmdCopy E = true ->
  forall w r w', performDuplicacyCopy E [] w = Some (r, w') -> R w w'.
Hypothesis R_prune : cmdPrune E = true ->
  forall w r w', performDuplicacyPrune E [] w = Some (r, w') -> R w w'.
Hypothesis R_check : cmdCheck E = true ->
  forall w r w', performDuplicacyCheck E [] w = Some (r, w') -> R w w'.

Lemma whenRequested_keeps (requested : bool)
    (op : list string -> M (option error)) (next : M (option error)) :
  (requested = true -> forall w r w', op [] w = Some (r, w') -> R w w') ->
  (forall w r w', next w = Some (r, w') -> R w w') ->
  forall w r w', whenRequested requested op next w = Some (r, w') -> R w w'.
Proof.
  intros Hop Hnext w r w'. unfold whenRequested.
  destruct requested; [|apply Hnext].
  unfold bind. destruct (op [] w) as [[r1 w1]|] eqn:Eo; [|discriminate].
  apply (Hop eq_refl) in Eo. destruct r1 as [e|].
  - unfold ret; intros H; injection H as _ <-; exact Eo.
  - intros H; apply Hnext in H. eapply R_trans; eauto.
Qed.

(** Such a property, kept by log output, by the notifications and by the
    operations that are requested, is kept by [performBackup]. *)
Lemma performBackup_keeps (w : world) (r : option error) (w' : world) :
  performBackup E w = Some (r, w') -> R w w'.
Proof.
  unfold performBackup.
  rewrite bind_emit, bind_ask, bind_emit.
  destruct (rotateLogFiles E _) as [e|].
  { unfold ret; intros H; injection H as _ <-.
    rewrite logged_logged. now apply R_logged. }
  rewrite bind_ask, bind_emit.
  destruct (osCreate E _) as [e|].
  { rewrite bind_emit. unfold ret; intros H; injection H as _ <-.
    rewrite !logged_logged. now apply R_logged. }
  rewrite bind_ask. unfold logMessage. rewrite !bind_emit.
  rewrite !logged_logged.
  intros H.
  match type of H with
  | _ (logged w ?evs) = _ =>
      apply (R_trans w (logged w evs)); [now apply R_logged|]
  end.
  revert H. apply whenRequested_keeps; [exact R_backup|].
  apply whenRequested_keeps; [exact R_copy|].
  apply whenRequested_keeps; [exact R_prune|].
  apply whenRequested_keeps; [exact R_check|].
  intros w1 r1 w1'. rewrite bind_emit, bind_ask, bind_emit.
  unfold bind at 1, ask at 1. rewrite bind_emit.
  unfold ret; intros H; injection H as _ <-.
  rewrite !logged_logged. now apply R_logged.
Qed.

End PerformBackupKeeps.

Section RunnersKeep.

Variable E : env.

Lemma backupStep_panic (testArgs : list string) (i : nat) (bi : BackupInfo.t)
    (entry : backupRevision) (w : world) :
  testArgsOK testArgs = false -> backupStep E testArgs i bi entry w = None.
Proof.
  intros H. unfold backupStep. rewrite bind_emit. unfold bind at 1.
  now rewrite testCmdArgs_panic.
Qed.

Lemma copyStep_panic (testArgs : list string) (i : nat) (ci : CopyInfo.t)
    (entry : copyRevision) (w : world) :
  testArgsOK testArgs = false -> copyStep E testArgs i ci entry w = None.
Proof.
  intros H. unfold copyStep. rewrite bind_emit. unfold bind at 1.
  now rewrite testCmdArgs_panic.
Qed.

Lemma pruneStep_panic (testArgs : list string) (i : nat) (pi : PruneInfo.t)
    (w : world) :
  testArgsOK testArgs = false -> pruneStep E testArgs i pi tt w = None.
Proof.
  intros H. unfold pruneStep. rewrite bind_emit. unfold bind at 1.
  now rewrite testCmdArgs_panic.
Qed.

Lemma checkStep_panic (testArgs : list string) (i : nat) (ci : CheckInfo.t)
    (w : world) :
  testArgsOK testArgs = false -> checkStep E testArgs i ci tt w = None.
Proof.
  intros H. unfold checkStep. rewrite bind_emit. unfold bind at 1.
  now rewrite testCmdArgs_panic.
Qed.

End RunnersKeep.

(** X15.  The one way for a runner to end in a run-time panic: each of the
    four runners indexes out of range exactly when the test arguments are
    "testbackup" alone and the operation has at least one configured
    entry.  With any other test arguments, and with no entry, it returns. *)
Theorem runner_panics_iff (E : env) (testArgs : list string) (w : world) :
  (performDuplicacyBackup E testArgs w = None
   <-> testArgsOK testArgs = false /\ BackupInfo (configFile E) <> []) /\
  (performDuplicacyCopy E testArgs w = None
   <-> testArgsOK testArgs = false /\ CopyInfo (configFile E) <> []) /\
  (performDuplicacyPrune E testArgs w = None
   <-> testArgsOK testArgs = false /\ PruneInfo (configFile E) <> []) /\
  (performDuplicacyCheck E testArgs w = None
   <-> testArgsOK testArgs = false /\ CheckInfo (configFile E) <> []).
Proof.
  unfold performDuplicacyBackup, performDuplicacyCopy, performDuplicacyPrune,
    performDuplicacyCheck.
  destruct (testArgsOK testArgs) eqn:Hok.
  - destruct (backupLoop_run E testArgs Hok (BackupInfo (configFile E)) 0
                zeroBackupRevision w) as (r1 & w1 & t1 & n1 & H1 & _).
    destruct (copyLoop_full E testArgs Hok (CopyInfo (configFile E)) 0
                zeroCopyRevision w) as (r2 & w2 & t2 & n2 & H2 & _).
    destruct (logOnlyLoop_full E (pruneStep E testArgs) (pruneArgsOf testArgs)
                (fun i x w => pruneStep_full E testArgs i x w Hok)
                (PruneInfo (configFile E)) 0 w) as (r3 & t3 & n3 & H3 & _).
    destruct (logOnlyLoop_full E (checkStep E testArgs) (checkArgsOf testArgs)
                (fun i x w => checkStep_full E testArgs i x w Hok)
                (CheckInfo (configFile E)) 0 w) as (r4 & t4 & n4 & H4 & _).
    rewrite H1, H2, H3, H4.
    repeat split; try discriminate; intros [H _]; discriminate.
  - repeat split.
    all: try (intros _; reflexivity).
    all: try (intros [_ H]).
    all: try (intros H).
    + destruct (BackupInfo (configFile E)); [discriminate | discriminate].
    + destruct (BackupInfo (configFile E)); [now elim H|].
      simpl. unfold bind. now rewrite backupStep_panic.
    + destruct (CopyInfo (configFile E)); [discriminate | discriminate].
    + destruct (CopyInfo (configFile E)); [now elim H|].
      simpl. unfold bind. now rewrite copyStep_panic.
    + destruct (PruneInfo (configFile E)); [discriminate | discriminate].
    + destruct (PruneInfo (configFile E)); [now elim H|].
      simpl. unfold bind. now rewrite pruneStep_panic.
    + destruct (CheckInfo (configFile E)); [discriminate | discriminate].
    + destruct (CheckInfo (configFile E)); [now elim H|].
      simpl. unfold bind. now rewrite checkStep_panic.
Qed.

Lemma no_invocation_linesLogged (evs : list event) :
  invocations evs = [] -> linesLogged evs.
Proof.
  intros Hinv path args dir out res line Hin _. exfalso.
  induction evs as [|ev evs IH]; [destruct Hin|].
  destruct Hin as [->|Hin]; [discriminate|].
  destruct ev; simpl in Hinv; try discriminate; auto.
Qed.

(** X16.  No output line is lost.  [performBackup] returns, and every line
    that an invocation of the run wrote, for whatever operation and whether
    or not a pattern recognizes it, was handed to [logger.Println] as it
    is. *)
Theorem performBackup_logs_every_line (E : env) (w : world) :
  exists r w' t,
    performBackup E w = Some (r, w') /\
    trace w' = trace w ++ t /\
    forall path args dir out res line,
      In (Executor path args dir out res) t -> In line out ->
      In (Println line) t.
Proof.
  destruct (performBackup_runs E w) as (r & w' & t & Hrun & Ht & _).
  exists r, w', t. split; [exact Hrun|]. split; [exact Ht|].
  assert (HR : exists t', trace w' = trace w ++ t' /\ linesLogged t').
  { revert Hrun.
    apply (performBackup_keeps E
             (fun w w' => exists t', trace w' = trace w ++ t' /\ linesLogged t')).
    - intros w1 w2 w3 (t1 & H1 & L1) (t2 & H2 & L2).
      exists (t1 ++ t2); split; [rewrite H2, H1; symmetry; apply app_assoc|].
      now apply linesLogged_app.
    - intros w0 evs Hinv; exists evs; split; [reflexivity|].
      now apply no_invocation_linesLogged.
    - intros _ w0 r0 w0' H. unfold performDuplicacyBackup in H.
      destruct (backupLoop_full E [] eq_refl (BackupInfo (configFile E)) 0
                  zeroBackupRevision w0)
        as (r1 & w1 & t1 & new & H1 & Ht1 & _ & _ & Hl & _).
      rewrite H1 in H; injection H as _ <-. eauto.
    - intros _ w0 r0 w0' H. unfold performDuplicacyCopy in H.
      destruct (copyLoop_full E [] eq_refl (CopyInfo (configFile E)) 0
                  zeroCopyRevision w0)
        as (r1 & w1 & t1 & new & H1 & Ht1 & _ & _ & Hl & _).
      rewrite H1 in H; injection H as _ <-. eauto.
    - intros _ w0 r0 w0' H. unfold performDuplicacyPrune in H.
      destruct (logOnlyLoop_full E (pruneStep E []) (pruneArgsOf [])
                  (fun i x w => pruneStep_full E [] i x w eq_refl)
                  (PruneInfo (configFile E)) 0 w0) as (r1 & t1 & n & H1 & Hl & _).
      rewrite H1 in H; injection H as _ <-. now exists t1.
    - intros _ w0 r0 w0' H. unfold performDuplicacyCheck in H.
      destruct (logOnlyLoop_full E (checkStep E []) (checkArgsOf [])
                  (fun i x w => checkStep_full E [] i x w eq_refl)
                  (CheckInfo (configFile E)) 0 w0) as (r1 & t1 & n & H1 & Hl & _).
      rewrite H1 in H; injection H as _ <-. now exists t1. }
  destruct HR as (t' & Ht' & Hl).
  rewrite Ht in Ht'. apply app_inv_head in Ht'. now subst t'.
Qed.

(** X17.  The tables are only appended to.  Whatever [performBackup] does,
    the records that were in [backupTable] and [copyTable] are still
    there, in front, unchanged; a table gains no record at all when its
    operation (backup, respectively copy) was not requested. *)
Theorem performBackup_appends (E : env) (w : world) :
  exists r w' newBackups newCopies,
    performBackup E w = Some (r, w') /\
    backupTable w' = backupTable w ++ newBackups /\
    copyTable w' = copyTable w ++ newCopies /\
    (cmdBackup E = false -> newBackups = []) /\
    (cmdCopy E = false -> newCopies = []).
Proof.
  destruct (performBackup_runs E w) as (r & w' & t & Hrun & _ & _).
  exists r, w'.
  assert (HR : exists nb nc,
             backupTable w' = backupTable w ++ nb /\
             copyTable w' = copyTable w ++ nc /\
             (cmdBackup E = false -> nb = []) /\
             (cmdCopy E = false -> nc = [])).
  { revert Hrun.
    apply (performBackup_keeps E
             (fun w w' => exists nb nc,
                  backupTable w' = backupTable w ++ nb /\
                  copyTable w' = copyTable w ++ nc /\
                  (cmdBackup E = false -> nb = []) /\
                  (cmdCopy E = false -> nc = []))).
    - intros w1 w2 w3 (nb1 & nc1 & B1 & C1 & Fb1 & Fc1)
        (nb2 & nc2 & B2 & C2 & Fb2 & Fc2).
      exists (nb1 ++ nb2), (nc1 ++ nc2).
      rewrite B2, B1, C2, C1, !app_assoc. repeat split.
      + intros H; now rewrite Fb1, Fb2.
      + intros H; now rewrite Fc1, Fc2.
    - intros w0 evs _; exists [], []; simpl; rewrite !app_nil_r; auto.
    - intros Hb w0 r0 w0' H. unfold performDuplicacyBackup in H.
      destruct (backupLoop_run E [] eq_refl (BackupInfo (configFile E)) 0
                  zeroBackupRevision w0)
        as (r1 & w1 & t1 & new & H1 & _ & Hbt & Hct & _).
      rewrite H1 in H; injection H as _ <-.
      exists new, []; rewrite app_nil_r. repeat split; auto. congruence.
    - intros Hc w0 r0 w0' H. unfold performDuplicacyCopy in H.
      destruct (copyLoop_full E [] eq_refl (CopyInfo (configFile E)) 0
                  zeroCopyRevision w0)
        as (r1 & w1 & t1 & new & H1 & _ & Hct & Hbt & _).
      rewrite H1 in H; injection H as _ <-.
      exists [], new; rewrite app_nil_r. repeat split; auto. congruence.
    - intros _ w0 r0 w0' H. unfold performDuplicacyPrune in H.
      destruct (logOnlyLoop_full E (pruneStep E []) (pruneArgsOf [])
                  (fun i x w => pruneStep_full E [] i x w eq_refl)
                  (PruneInfo (configFile E)) 0 w0) as (r1 & t1 & n & H1 & _).
      rewrite H1 in H; injection H as _ <-.
      exists [], []; simpl; rewrite !app_nil_r; auto.
    - intros _ w0 r0 w0' H. unfold performDuplicacyCheck in H.
      destruct (logOnlyLoop_full E (checkStep E []) (checkArgsOf [])
                  (fun i x w => checkStep_full E [] i x w eq_refl)
                  (CheckInfo (configFile E)) 0 w0) as (r1 & t1 & n & H1 & _).
      rewrite H1 in H; injection H as _ <-.
      exists [], []; simpl; rewrite !app_nil_r; auto. }
  destruct HR as (nb & nc & HR). exists nb, nc. tauto.
Qed.

(* ===================================================================== *)
(** ** The sinks on every line                                           *)
(* ===================================================================== *)

(** A match of the "All chunks:" pattern: five tokens between its literals. *)
Lemma chunksRe_sound (s a b c d u rest : string) :
  match_here chunksRe s = Some ([a; b; c; d; u], rest) ->
  token a = true /\ token b = true /\ token c = true /\ token d = true /\
  token u = true /\
  exists pre,
    s = pre +++ ": " +++ a +++ " total, " +++ b +++ " bytes; " +++ c
        +++ " new, " +++ d +++ " bytes, " +++ u +++ " bytes uploaded" +++ rest.
Proof.
  unfold chunksRe; intros H.
  apply match_here_star in H as (pre & v0 & -> & H).
  apply match_here_lit in H as (v1 & -> & H).
  apply match_here_plus in H as (a' & caps1 & v2 & E1 & Ha & -> & H).
  apply match_here_lit in H as (v3 & -> & H).
  apply match_here_plus in H as (b' & caps2 & v4 & E2 & Hb & -> & H).
  apply match_here_lit in H as (v5 & -> & H).
  apply match_here_plus in H as (c' & caps3 & v6 & E3 & Hc & -> & H).
  apply match_here_lit in H as (v7 & -> & H).
  apply match_here_plus in H as (d' & caps4 & v8 & E4 & Hd & -> & H).
  apply match_here_lit in H as (v9 & -> & H).
  apply match_here_plus in H as (u' & caps5 & v10 & E5 & Hu & -> & H).
  apply match_here_lit in H as (v11 & -> & H).
  simpl in H. injection H as <- <-. subst caps4 caps3 caps2 caps1.
  injection E1 as -> -> -> -> ->.
  repeat split; auto. now exists pre.
Qed.

Lemma piece_in (pre tok post line : string) :
  line = pre +++ tok +++ post -> piece tok line.
Proof. intros ->; now exists pre, post. Qed.

(** X18.  Every statistic comes from the line as it is.  Whatever the line,
    after [backupLogger] each of the nine statistics of the record is
    either what it was before, or a non-empty piece of the line without
    white space; the storage name and the duration are what they were. *)
Theorem backupLogger_statistics_verbatim (line : string) (entry : backupRevision)
    (w : world) :
  exists entry' w',
    backupLogger line entry w = Some (entry', w') /\
    storage entry' = storage entry /\ duration entry' = duration entry /\
    Forall (fun field =>
              field entry' = field entry \/
              (token (field entry') = true /\ piece (field entry') line))
           statistics.
Proof.
  destruct (backupLogger_observed line entry w) as (evs & Hrun & _).
  exists (observed line entry), (logged w evs); split; [exact Hrun|].
  unfold observed, statistics.
  destruct (HasPrefix line "Files:").
  { destruct (FindStringSubmatch filesRe line)
      as [|e0 [|a [|b [|c [|d [|e5 l]]]]]] eqn:Ef;
      try (split; [reflexivity|]; split; [reflexivity|];
           apply Forall_forall; intros f _; now left).
    apply FindStringSubmatch_sound in Ef as (pre0 & s' & rest & -> & Hm).
    apply filesRe_sound in Hm as (Ha & Hb & Hc & Hd & pre & ->).
    split; [reflexivity|]. split; [reflexivity|].
    apply Forall_forall; intros f Hin; simpl in Hin;
      repeat destruct Hin as [<-|Hin]; try contradiction;
      first [left; reflexivity | right; split; [assumption|]]; simpl.
    - apply (piece_in (pre0 +++ pre +++ ": ")
               a (" total, " +++ b +++ " bytes; " +++ c +++ " new, " +++ d
                  +++ " bytes" +++ rest)).
      now rewrite !append_assoc.
    - apply (piece_in (pre0 +++ pre +++ ": " +++ a +++ " total, ")
               b (" bytes; " +++ c +++ " new, " +++ d +++ " bytes" +++ rest)).
      now rewrite !append_assoc.
    - apply (piece_in (pre0 +++ pre +++ ": " +++ a +++ " total, " +++ b
                       +++ " bytes; ")
               c (" new, " +++ d +++ " bytes" +++ rest)).
      now rewrite !append_assoc.
    - apply (piece_in (pre0 +++ pre +++ ": " +++ a +++ " total, " +++ b
                       +++ " bytes; " +++ c +++ " new, ")
               d (" bytes" +++ rest)).
      now rewrite !append_assoc. }
  destruct (HasPrefix line "All chunks:");
    [|split; [reflexivity|]; split; [reflexivity|];
      apply Forall_forall; intros f _; now left].
  destruct (FindStringSubmatch chunksRe line)
    as [|e0 [|a [|b [|c [|d [|u [|e6 l]]]]]]] eqn:Ef;
    try (split; [reflexivity|]; split; [reflexivity|];
           apply Forall_forall; intros f _; now left).
  apply FindStringSubmatch_sound in Ef as (pre0 & s' & rest & -> & Hm).
  apply chunksRe_sound in Hm as (Ha & Hb & Hc & Hd & Hu & pre & ->).
  split; [reflexivity|]. split; [reflexivity|].
  apply Forall_forall; intros f Hin; simpl in Hin;
    repeat destruct Hin as [<-|Hin]; try contradiction;
    first [left; reflexivity | right; split; [assumption|]]; simpl.
  - apply (piece_in (pre0 +++ pre +++ ": ")
             a (" total, " +++ b +++ " bytes; " +++ c +++ " new, " +++ d
                +++ " bytes, " +++ u +++ " bytes uploaded" +++ rest)).
    now rewrite !append_assoc.
  - apply (piece_in (pre0 +++ pre +++ ": " +++ a +++ " total, ")
             b (" bytes; " +++ c +++ " new, " +++ d +++ " bytes, " +++ u
                +++ " bytes uploaded" +++ rest)).
    now rewrite !append_assoc.
  - apply (piece_in (pre0 +++ pre +++ ": " +++ a +++ " total, " +++ b
                     +++ " bytes; ")
             c (" new, " +++ d +++ " bytes, " +++ u +++ " bytes uploaded" +++ rest)).
    now rewrite !append_assoc.
  - apply (piece_in (pre0 +++ pre +++ ": " +++ a +++ " total, " +++ b
                     +++ " bytes; " +++ c +++ " new, ")
             d (" bytes, " +++ u +++ " bytes uploaded" +++ rest)).
    now rewrite !append_assoc.
  - apply (piece_in (pre0 +++ pre +++ ": " +++ a +++ " total, " +++ b
                     +++ " bytes; " +++ c +++ " new, " +++ d +++ " bytes, ")
             u (" bytes uploaded" +++ rest)).
    now rewrite !append_assoc.
Qed.

Lemma indented_is_warning (line : string) :
  LogMessage true ("  " +++ line) = passwordWarning ->
  line = "Error: Duplicacy appears to be prompting for a password".
Proof.
  unfold passwordWarning. intros H. injection H as H. exact H.
Qed.

(** X19.  When the password warning is logged.  [backupLogger] logs
    "  Error: Duplicacy appears to be prompting for a password" exactly for
    a line that starts with "Enter storage password:" or ends with
    "Authorization failure" and starts with neither "Files:" nor
    "All chunks:"; the record is then left as it was.  [copyLogger] logs the
    warning for no line. *)
Theorem password_warning_iff (line : string) (w : world) :
  (forall entry : backupRevision, exists entry' evs,
     backupLogger line entry w = Some (entry', logged w evs) /\
     (In passwordWarning evs <->
      HasPrefix line "Files:" = false /\ HasPrefix line "All chunks:" = false /\
      (HasPrefix line "Enter storage password:"
       || HasSuffix line "Authorization failure") = true) /\
     (In passwordWarning evs -> entry' = entry)) /\
  (forall entry : copyRevision, exists entry' evs,
     copyLogger line entry w = Some (entry', logged w evs) /\
     ~ In passwordWarning evs).
Proof.
  split; intros entry.
  - unfold backupLogger.
    destruct (HasPrefix line "Files:") eqn:Hf.
    { assert (Hno : forall evs' : list event,
                 evs' = [Println line; LogMessage true ("  " +++ line)] ->
                 ~ In passwordWarning evs').
      { intros evs' -> [H|[H|[]]]; [discriminate|].
        apply indented_is_warning in H. subst line. discriminate Hf. }
      destruct (FindStringSubmatch_length filesRe line) as [H|H].
      - rewrite H; run_go; rewrite <- ?app_assoc.
        eexists; eexists; split; [reflexivity|].
        split; [split; [intros Hin; now apply Hno in Hin | intros [? _]; discriminate]
               | reflexivity].
      - destruct (FindStringSubmatch filesRe line)
          as [|e0 [|e1 [|e2 [|e3 [|e4 [|e5 l]]]]]]; try discriminate H.
        run_go; rewrite <- ?app_assoc.
        eexists; eexists; split; [reflexivity|].
        split; [split; [intros Hin; now apply Hno in Hin | intros [? _]; discriminate]
               | intros Hin; now apply Hno in Hin]. }
    destruct (HasPrefix line "All chunks:") eqn:Hc.
    { assert (Hno : forall evs' : list event,
                 evs' = [Println line; LogMessage true ("  " +++ line)] ->
                 ~ In passwordWarning evs').
      { intros evs' -> [H|[H|[]]]; [discriminate|].
        apply indented_is_warning in H. subst line. discriminate Hc. }
      destruct (FindStringSubmatch_length chunksRe line) as [H|H].
      - rewrite H; run_go; rewrite <- ?app_assoc.
        eexists; eexists; split; [reflexivity|].
        split; [split; [intros Hin; now apply Hno in Hin
                       | intros (_ & ? & _); discriminate]
               | reflexivity].
      - destruct (FindStringSubmatch chunksRe line)
          as [|e0 [|e1 [|e2 [|e3 [|e4 [|e5 [|e6 l]]]]]]]; try discriminate H.
        run_go; rewrite <- ?app_assoc.
        eexists; eexists; split; [reflexivity|].
        split; [split; [intros Hin; now apply Hno in Hin
                       | intros (_ & ? & _); discriminate]
               | intros Hin; now apply Hno in Hin]. }
    destruct (HasPrefix line "Enter storage password:"
              || HasSuffix line "Authorization failure") eqn:Hp.
    + run_go; rewrite <- ?app_assoc.
      eexists; eexists; split; [reflexivity|].
      split; [split; [auto | intros _; now left] | reflexivity].
    + run_go. eexists; eexists; split; [reflexivity|].
      split; [split; [intros [H|[]]; discriminate | intros (_ & _ & ?); discriminate]
             | reflexivity].
  - unfold copyLogger.
    destruct (HasPrefix line "Copy complete, ") eqn:Hc.
    + assert (Hno : forall evs' : list event,
                 evs' = [Println line; LogMessage true ("  " +++ line)] ->
                 ~ In passwordWarning evs').
      { intros evs' -> [H|[H|[]]]; [discriminate|].
        apply indented_is_warning in H. subst line. discriminate Hc. }
      destruct (FindStringSubmatch_length copyRe line) as [H|H].
      * rewrite H; run_go; rewrite <- ?app_assoc.
        eexists; eexists; split; [reflexivity | now apply Hno].
      * destruct (FindStringSubmatch copyRe line)
          as [|e0 [|e1 [|e2 [|e3 [|e4 l]]]]]; try discriminate H.
        run_go; rewrite <- ?app_assoc.
        eexists; eexists; split; [reflexivity | now apply Hno].
    + run_go. eexists; eexists; split; [reflexivity|].
      intros [H|[]]; discriminate.
Qed.
